(** * The Tech Referee: the reply-parsing pipeline of [route.ts]

    A shallow embedding of the request handler of the Tech Referee
    (src/app/api/referee/route.ts and its extended revision
    src/unnamed/part_000) together with the properties its specification
    states about it.

    Lay-out of the development:
    - [JS]      : the string operations of the JavaScript runtime the
                  handler calls (trim, toLowerCase, includes, split, ...);
    - [RegExp]  : regular expressions: syntax tree, the pattern parser
                  behind [new RegExp(source)], and the backtracking matcher
                  of ECMA-262 (22.2.2), leftmost search, [match], global
                  [match] and [replace];
    - [Route]   : src/app/api/referee/route.ts;
    - [Part000] : src/unnamed/part_000, the extended revision of the same
                  handler (input guards, fallback patterns, heuristics);
    - the lemmas about the matcher and the theorems of the specification.

    Strings are [string]s, one [ascii] per UTF-8 byte.  White space, case
    mapping and word characters are the ASCII ones; on ASCII text the model
    agrees with the UTF-16 strings of the runtime, and the decorative glyphs
    of the headings are matched as the byte sequences that encode them. *)

From Stdlib Require Import String Ascii List Arith Lia ZArith Bool NArith.
From stdpp Require Import gmap strings.
Import ListNotations.
Local Open Scope string_scope.

(* ===================================================================== *)
(** * JavaScript strings *)
(* ===================================================================== *)

Module JS.

Definition char_code (c : ascii) : N := N_of_ascii c.

Definition is_upper (c : ascii) : bool := ((65 <=? char_code c) && (char_code c <=? 90))%N.
Definition is_lower (c : ascii) : bool := ((97 <=? char_code c) && (char_code c <=? 122))%N.
Definition is_digit (c : ascii) : bool := ((48 <=? char_code c) && (char_code c <=? 57))%N.
Definition is_alpha (c : ascii) : bool := is_upper c || is_lower c.

(** WhiteSpace and LineTerminator of ECMA-262 below U+0080: TAB, LF, VT, FF,
    CR and SPACE.  [trim] and the class [\s] use the same set. *)
Definition is_space (c : ascii) : bool :=
  match c with
  | " "%char | "009"%char | "010"%char | "011"%char | "012"%char | "013"%char => true
  | _ => false
  end.

Definition is_line_terminator (c : ascii) : bool :=
  match c with
  | "010"%char | "013"%char => true
  | _ => false
  end.

(** [\w] without the unicode flag: [A-Za-z0-9_]. *)
Definition is_word_char (c : ascii) : bool :=
  is_alpha c || is_digit c || Ascii.eqb c "_"%char.

Definition lower (c : ascii) : ascii :=
  if is_upper c then ascii_of_N (char_code c + 32) else c.
Definition upper (c : ascii) : ascii :=
  if is_lower c then ascii_of_N (char_code c - 32) else c.

Fixpoint map_string (f : ascii -> ascii) (s : string) : string :=
  match s with
  | EmptyString => EmptyString
  | String c s' => String (f c) (map_string f s')
  end.

(** [s.toLowerCase()] *)
Definition toLowerCase (s : string) : string := map_string lower s.

Fixpoint ltrim (s : string) : string :=
  match s with
  | EmptyString => EmptyString
  | String c s' => if is_space c then ltrim s' else s
  end.

Fixpoint rtrim (s : string) : string :=
  match s with
  | EmptyString => EmptyString
  | String c s' =>
      match rtrim s' with
      | EmptyString => if is_space c then EmptyString else String c EmptyString
      | t => String c t
      end
  end.

(** [s.trim()] *)
Definition trim (s : string) : string := rtrim (ltrim s).

(** Truthiness of a string value: [!s] is true exactly for the empty one. *)
Definition truthy (s : string) : bool :=
  match s with EmptyString => false | _ => true end.

(** The text is ASCII: every byte is below 128 and stands for one UTF-16
    code unit.  On such a text the white space, the case mapping and the
    lengths of this module are those of the runtime; a theorem that depends
    on them is stated for ASCII text. *)
Fixpoint is_ascii (s : string) : bool :=
  match s with
  | EmptyString => true
  | String c s' => (char_code c <? 128)%N && is_ascii s'
  end.

(** [s.trim().length === 0] *)
Definition blank (s : string) : bool := negb (truthy (trim s)).

(** [s.includes(sub)] *)
Fixpoint includes (s sub : string) : bool :=
  String.prefix sub s ||
  match s with
  | EmptyString => false
  | String _ s' => includes s' sub
  end.

(** [s.substring(0, n)] *)
Definition substring0 (n : nat) (s : string) : string := String.substring 0 n s.

(** [s.split(sep)] for a one-character separator. *)
Fixpoint split (sep : ascii) (s : string) : list string :=
  match s with
  | EmptyString => [EmptyString]
  | String c s' =>
      if Ascii.eqb c sep then EmptyString :: split sep s'
      else match split sep s' with
           | h :: t => String c h :: t
           | [] => [String c EmptyString]
           end
  end.

(** [l.join(sep)] *)
Fixpoint join (sep : string) (l : list string) : string :=
  match l with
  | [] => EmptyString
  | [x] => x
  | x :: rest => x ++ sep ++ join sep rest
  end.

Fixpoint drop (n : nat) (s : string) : string :=
  match n, s with
  | O, _ => s
  | S n', String _ s' => drop n' s'
  | S _, EmptyString => EmptyString
  end.

(** [s.replace(pat, rep)] for a string pattern: the first occurrence only. *)
Fixpoint replace_first (pat rep s : string) : string :=
  if String.prefix pat s then rep ++ drop (String.length pat) s
  else match s with
       | EmptyString => EmptyString
       | String c s' => String c (replace_first pat rep s')
       end.

(** Decimal rendering of a length, for the messages that interpolate one. *)
Fixpoint nat_digits (fuel n : nat) (acc : string) : string :=
  match fuel with
  | O => acc
  | S f =>
      let d := String (ascii_of_nat (48 + Nat.modulo n 10)) acc in
      if Nat.ltb n 10 then d else nat_digits f (Nat.div n 10) d
  end.
Definition string_of_nat (n : nat) : string := nat_digits (S n) n EmptyString.

End JS.

(* ===================================================================== *)
(** * Exceptions *)
(* ===================================================================== *)

(** The handler runs inside [try]/[catch] blocks.  A computation either
    returns a value or throws; [try_catch] is the [try { } catch (e) { }]
    statement.  The only operation of the parsing stages that can throw on
    string arguments is [new RegExp(source)] with a malformed source. *)

Inductive exn : Type :=
| SyntaxError (message : string)
| Error (message : string)
| OpenAIError (code message : string) (details : option string).

Definition exn_message (e : exn) : string :=
  match e with
  | SyntaxError m => m
  | Error m => m
  | OpenAIError _ m _ => m
  end.

Inductive outcome (A : Type) : Type :=
| Return (a : A)
| Throw (e : exn).
Arguments Return {A} a.
Arguments Throw {A} e.

Definition bind {A B : Type} (c : outcome A) (f : A -> outcome B) : outcome B :=
  match c with
  | Return a => f a
  | Throw e => Throw e
  end.

Definition try_catch {A : Type} (body : outcome A) (handler : exn -> outcome A)
  : outcome A :=
  match body with
  | Return a => Return a
  | Throw e => handler e
  end.

Notation "'let!' x ':=' c 'in' k" := (bind c (fun x => k))
  (at level 10, x name, c at level 100, k at level 200).

(* ===================================================================== *)
(** * Regular expressions *)
(* ===================================================================== *)

Module RegExp.

Import JS.

(** ** Syntax *)

Inductive citem : Type :=
| CChar (c : ascii)
| CRange (lo hi : ascii)
| CSpace (positive : bool)      (* \s  \S *)
| CDigit (positive : bool)      (* \d  \D *)
| CWord (positive : bool).      (* \w  \W *)

Inductive regex : Type :=
| REmpty
| RChar (c : ascii)
| RDot
| RClass (negated : bool) (items : list citem)
| RSeq (r1 r2 : regex)
| RAlt (r1 r2 : regex)
| RQuant (min : nat) (max : option nat) (greedy : bool) (r : regex)
| RGroup (idx : nat) (r : regex)
| RLook (positive : bool) (r : regex)
| RBol
| REol
| RWordB (positive : bool).

(** A compiled expression: [ngroups] capturing groups, numbered from 1 in
    the order of their opening parentheses; the flags [i] and [g]. *)
Record t : Type := mk {
  source : string;
  ast : regex;
  ngroups : nat;
  ignoreCase : bool;
  global : bool
}.

(** ** The pattern parser

    The grammar of ECMA-262 22.2.1 with the web-compatibility extensions of
    Annex B.1.2 (no unicode flag): [Disjunction], [Alternative], [Term],
    [Atom], [CharacterClass] and [Quantifier].  A source the grammar rejects
    makes [new RegExp] throw a [SyntaxError]. *)

Inductive pres (A : Type) : Type :=
| POk (a : A)
| PErr (reason : string).
Arguments POk {A} a.
Arguments PErr {A} reason.

Fixpoint p_digits (s : string) (acc : option nat) : option nat * string :=
  match s with
  | String c s' =>
      if is_digit c
      then p_digits s' (Some (10 * match acc with Some n => n | None => 0 end
                              + (nat_of_ascii c - 48)))
      else (acc, s)
  | EmptyString => (acc, s)
  end.

(** [{n}], [{n,}] and [{n,m}], read after the opening brace. *)
Definition p_braces (s : string) : option (nat * option nat * string) :=
  match p_digits s None with
  | (Some n, String "}" rest) => Some (n, Some n, rest)
  | (Some n, String "," s1) =>
      match p_digits s1 None with
      | (None, String "}" rest) => Some (n, None, rest)
      | (Some m, String "}" rest) => Some (n, Some m, rest)
      | _ => None
      end
  | _ => None
  end.

(** A class atom: one character or one of the class escapes. *)
Definition p_class_atom (s : string) : pres (citem * string) :=
  match s with
  | EmptyString => PErr "Unterminated character class"
  | String "\" EmptyString => PErr "\ at end of pattern"
  | String "\" (String c rest) =>
      POk (match c with
           | "d"%char => CDigit true
           | "D"%char => CDigit false
           | "w"%char => CWord true
           | "W"%char => CWord false
           | "s"%char => CSpace true
           | "S"%char => CSpace false
           | "n"%char => CChar "010"%char
           | "r"%char => CChar "013"%char
           | "t"%char => CChar "009"%char
           | "v"%char => CChar "011"%char
           | "f"%char => CChar "012"%char
           | "b"%char => CChar "008"%char
           | "0"%char => CChar "000"%char
           | _ => CChar c
           end, rest)
  | String c rest => POk (CChar c, rest)
  end.

Fixpoint p_class_items (fuel : nat) (s : string) (acc : list citem)
  : pres (list citem * string) :=
  match fuel with
  | O => PErr "Unterminated character class"
  | S f =>
      match s with
      | EmptyString => PErr "Unterminated character class"
      | String "]" rest => POk (rev acc, rest)
      | _ =>
          match p_class_atom s with
          | PErr e => PErr e
          | POk (a, s1) =>
              match s1 with
              | String "-" (String c2 s2') =>
                  if Ascii.eqb c2 "]"%char then p_class_items f s1 (a :: acc)
                  else
                    match p_class_atom (String c2 s2') with
                    | PErr e => PErr e
                    | POk (b, s3) =>
                        match a, b with
                        | CChar lo, CChar hi =>
                            if (char_code lo <=? char_code hi)%N
                            then p_class_items f s3 (CRange lo hi :: acc)
                            else PErr "Range out of order in character class"
                        | _, _ =>
                            p_class_items f s3 (b :: CChar "-"%char :: a :: acc)
                        end
                    end
              | _ => p_class_items f s1 (a :: acc)
              end
          end
      end
  end.

Definition p_class (s : string) : pres (regex * string) :=
  let '(neg, s0) :=
    match s with
    | String "^" s' => (true, s')
    | _ => (false, s)
    end in
  match p_class_items (S (String.length s0)) s0 [] with
  | PErr e => PErr e
  | POk (items, rest) => POk (RClass neg items, rest)
  end.

(** [r1 r2] in sequence; an empty right operand is dropped. *)
Definition seq (r1 r2 : regex) : regex :=
  match r2 with
  | REmpty => r1
  | _ => RSeq r1 r2
  end.

(** The quantifier that may follow an atom. *)
Definition p_quantifier (r : regex) (s : string) : pres (regex * string) :=
  let lazy (mn : nat) (mx : option nat) (rest : string) :=
    match rest with
    | String "?" rest' => POk (RQuant mn mx false r, rest')
    | _ => POk (RQuant mn mx true r, rest)
    end in
  match s with
  | String "*" rest => lazy 0 None rest
  | String "+" rest => lazy 1 None rest
  | String "?" rest => lazy 0 (Some 1) rest
  | String "{" rest =>
      match p_braces rest with
      | Some (mn, mx, rest') =>
          match mx with
          | Some m => if Nat.ltb m mn then PErr "numbers out of order in {} quantifier"
                      else lazy mn mx rest'
          | None => lazy mn mx rest'
          end
      | None => POk (r, s)
      end
  | _ => POk (r, s)
  end.

(** An assertion takes no quantifier. *)
Definition p_no_quantifier (r : regex) (s : string) : pres (regex * string) :=
  match s with
  | String "*" _ | String "+" _ | String "?" _ => PErr "Nothing to repeat"
  | String "{" rest =>
      match p_braces rest with
      | Some _ => PErr "Nothing to repeat"
      | None => POk (r, s)
      end
  | _ => POk (r, s)
  end.

Definition p_escape (c : ascii) : pres (regex * bool) :=
  match c with
  | "b"%char => POk (RWordB true, false)
  | "B"%char => POk (RWordB false, false)
  | "d"%char => POk (RClass false [CDigit true], true)
  | "D"%char => POk (RClass false [CDigit false], true)
  | "w"%char => POk (RClass false [CWord true], true)
  | "W"%char => POk (RClass false [CWord false], true)
  | "s"%char => POk (RClass false [CSpace true], true)
  | "S"%char => POk (RClass false [CSpace false], true)
  | "n"%char => POk (RChar "010"%char, true)
  | "r"%char => POk (RChar "013"%char, true)
  | "t"%char => POk (RChar "009"%char, true)
  | "v"%char => POk (RChar "011"%char, true)
  | "f"%char => POk (RChar "012"%char, true)
  | "0"%char => POk (RChar "000"%char, true)
  | _ =>
      (* back-references, \c, \x, \u and \k are outside the modelled syntax,
         as are named groups and look-behind in [p_term]: the literals of
         the handler use none of them, and a theorem about [new RegExp] of
         a technology name is stated for names of the validator's alphabet,
         where none can occur *)
      if is_digit c || Ascii.eqb c "c"%char || Ascii.eqb c "x"%char
         || Ascii.eqb c "u"%char || Ascii.eqb c "k"%char
      then PErr "Invalid escape"
      else POk (RChar c, true)
  end.

Fixpoint p_disjunction (fuel : nat) (s : string) (g : nat)
  : pres (regex * string * nat) :=
  match fuel with
  | O => PErr "Unterminated group"
  | S f =>
      match p_alternative f s g with
      | PErr e => PErr e
      | POk (r1, s1, g1) =>
          match s1 with
          | String "|" s2 =>
              match p_disjunction f s2 g1 with
              | PErr e => PErr e
              | POk (r2, s3, g2) => POk (RAlt r1 r2, s3, g2)
              end
          | _ => POk (r1, s1, g1)
          end
      end
  end

with p_alternative (fuel : nat) (s : string) (g : nat)
  : pres (regex * string * nat) :=
  match fuel with
  | O => PErr "Unterminated group"
  | S f =>
      match s with
      | EmptyString => POk (REmpty, s, g)
      | String "|" _ => POk (REmpty, s, g)
      | String ")" _ => POk (REmpty, s, g)
      | _ =>
          match p_term f s g with
          | PErr e => PErr e
          | POk (r1, s1, g1) =>
              match p_alternative f s1 g1 with
              | PErr e => PErr e
              | POk (r2, s2, g2) => POk (seq r1 r2, s2, g2)
              end
          end
      end
  end

with p_term (fuel : nat) (s : string) (g : nat)
  : pres (regex * string * nat) :=
  let quantified (r : regex) (s1 : string) (g1 : nat) :=
    match p_quantifier r s1 with
    | PErr e => PErr e
    | POk (r', s2) => POk (r', s2, g1)
    end in
  let assertion (r : regex) (s1 : string) (g1 : nat) :=
    match p_no_quantifier r s1 with
    | PErr e => PErr e
    | POk (r', s2) => POk (r', s2, g1)
    end in
  let group (wrap : regex -> regex) (body : string) (g0 : nat) :=
    match fuel with
    | O => PErr "Unterminated group"
    | S f =>
        match p_disjunction f body g0 with
        | PErr e => PErr e
        | POk (r, String ")" rest, g1) => quantified (wrap r) rest g1
        | POk _ => PErr "Unterminated group"
        end
    end in
  match s with
  | EmptyString => POk (REmpty, s, g)
  | String "^" rest => assertion RBol rest g
  | String "$" rest => assertion REol rest g
  | String "*" _ | String "+" _ | String "?" _ => PErr "Nothing to repeat"
  | String "{" rest =>
      match p_braces rest with
      | Some _ => PErr "Nothing to repeat"
      | None => quantified (RChar "{"%char) rest g
      end
  | String "." rest => quantified RDot rest g
  | String "[" rest =>
      match p_class rest with
      | PErr e => PErr e
      | POk (r, rest') => quantified r rest' g
      end
  | String "\" EmptyString => PErr "\ at end of pattern"
  | String "\" (String c rest) =>
      match p_escape c with
      | PErr e => PErr e
      | POk (r, true) => quantified r rest g
      | POk (r, false) => assertion r rest g
      end
  | String "(" (String "?" (String ":" body)) => group (fun r => r) body g
  | String "(" (String "?" (String "=" body)) => group (RLook true) body g
  | String "(" (String "?" (String "!" body)) => group (RLook false) body g
  | String "(" (String "?" _) => PErr "Invalid group"
  | String "(" body => group (RGroup (S g)) body (S g)
  | String c rest => quantified (RChar c) rest g
  end.

Definition parse (src : string) : pres (regex * nat) :=
  match p_disjunction (3 * String.length src + 3) src 0 with
  | PErr e => PErr e
  | POk (r, EmptyString, g) => POk (r, g)
  | POk (_, String ")" _, _) => PErr "Unmatched ')'"
  | POk _ => PErr "Unexpected character"
  end.


(** ** The matcher (ECMA-262 22.2.2)

    A matcher takes a state and a continuation and returns the final state
    of the first successful path, in the order the specification explores
    them.  The state is the end position, the text that remains there, the
    character before it (for [\b]), and the captures. *)

Record mstate : Type := mkstate {
  m_prev : option ascii;
  m_rest : string;
  m_pos : nat;
  m_caps : list (option string)
}.

Definition cont : Type := mstate -> option mstate.

Definition advance (a : ascii) (rest : string) (x : mstate) : mstate :=
  mkstate (Some a) rest (S (m_pos x)) (m_caps x).

Fixpoint set_nth {A : Type} (n : nat) (v : A) (l : list A) : list A :=
  match n, l with
  | _, [] => []
  | O, _ :: t => v :: t
  | S n', h :: t => h :: set_nth n' v t
  end.

(** Capture [idx] (numbered from 1) is stored at index [idx - 1]. *)
Definition set_cap (idx : nat) (v : option string) (x : mstate) : mstate :=
  mkstate (m_prev x) (m_rest x) (m_pos x) (set_nth (pred idx) v (m_caps x)).

Definition with_caps (x : mstate) (caps : list (option string)) : mstate :=
  mkstate (m_prev x) (m_rest x) (m_pos x) caps.

Fixpoint groups_of (r : regex) : list nat :=
  match r with
  | RSeq r1 r2 | RAlt r1 r2 => groups_of r1 ++ groups_of r2
  | RQuant _ _ _ r' | RLook _ r' => groups_of r'
  | RGroup i r' => i :: groups_of r'
  | _ => []
  end.

(** Each iteration of a quantified atom starts with the captures of the atom
    reset to undefined. *)
Definition clear_caps (gs : list nat) (x : mstate) : mstate :=
  match gs with
  | [] => x
  | _ => with_caps x (fold_right (fun i caps => set_nth (pred i) None caps) (m_caps x) gs)
  end.

(** Canonicalize (22.2.5.6) without the unicode flag, on ASCII. *)
Definition canonicalize (ic : bool) (c : ascii) : ascii :=
  if ic then upper c else c.

Definition char_eqb (ic : bool) (c a : ascii) : bool :=
  Ascii.eqb (canonicalize ic c) (canonicalize ic a).

Definition citem_match (ic : bool) (a : ascii) (it : citem) : bool :=
  match it with
  | CChar c => char_eqb ic c a
  | CRange lo hi =>
      let inr (b : ascii) := ((char_code lo <=? char_code b) && (char_code b <=? char_code hi))%N in
      if ic then inr a || inr (upper a) || inr (lower a) else inr a
  | CSpace pos => Bool.eqb pos (is_space a)
  | CDigit pos => Bool.eqb pos (is_digit a)
  | CWord pos => Bool.eqb pos (is_word_char a)
  end.

Definition class_match (ic : bool) (neg : bool) (items : list citem) (a : ascii) : bool :=
  xorb neg (existsb (citem_match ic a) items).

(** The matcher of a one-character atom. *)
Definition m_single (p : ascii -> bool) (x : mstate) (k : cont) : option mstate :=
  match m_rest x with
  | String a rest => if p a then k (advance a rest x) else None
  | EmptyString => None
  end.

Definition is_word_at (o : option ascii) : bool :=
  match o with
  | Some c => is_word_char c
  | None => false
  end.

Definition next_char (x : mstate) : option ascii :=
  match m_rest x with
  | String a _ => Some a
  | EmptyString => None
  end.

(** RepeatMatcher (22.2.2.3.1).  An iteration that matches the empty string
    once [min] is exhausted fails, so every further iteration consumes a
    character: [min] plus the length of the remaining text bounds the depth,
    and [fuel] is started above that bound. *)
Fixpoint repeat_matcher (fuel : nat) (mr : mstate -> cont -> option mstate)
    (gs : list nat) (min : nat) (max : option nat) (greedy : bool)
    (x : mstate) (c : cont) {struct fuel} : option mstate :=
  match fuel with
  | O => None
  | S fuel' =>
      match max with
      | Some O => c x
      | _ =>
          let d : cont := fun y =>
            if Nat.eqb min 0 && Nat.eqb (m_pos y) (m_pos x) then None
            else repeat_matcher fuel' mr gs (pred min) (option_map pred max) greedy y c in
          let xr := clear_caps gs x in
          if negb (Nat.eqb min 0) then mr xr d
          else if greedy then
            match mr xr d with
            | Some z => Some z
            | None => c x
            end
          else
            match c x with
            | Some z => Some z
            | None => mr xr d
            end
      end
  end.

Fixpoint m (ic : bool) (r : regex) (x : mstate) (k : cont) {struct r} : option mstate :=
  match r with
  | REmpty => k x
  | RChar c => m_single (char_eqb ic c) x k
  | RDot => m_single (fun a => negb (is_line_terminator a)) x k
  | RClass neg items => m_single (class_match ic neg items) x k
  | RSeq r1 r2 => m ic r1 x (fun y => m ic r2 y k)
  | RAlt r1 r2 =>
      match m ic r1 x k with
      | Some z => Some z
      | None => m ic r2 x k
      end
  | RQuant min max greedy r' =>
      repeat_matcher (S (min + String.length (m_rest x))) (m ic r') (groups_of r')
        min max greedy x k
  | RGroup idx r' =>
      m ic r' x (fun y =>
        k (set_cap idx (Some (substring0 (m_pos y - m_pos x) (m_rest x))) y))
  | RLook true r' =>
      match m ic r' x Some with
      | Some y => k (with_caps x (m_caps y))
      | None => None
      end
  | RLook false r' =>
      match m ic r' x Some with
      | Some _ => None
      | None => k x
      end
  | RBol => if Nat.eqb (m_pos x) 0 then k x else None
  | REol =>
      match m_rest x with
      | EmptyString => k x
      | _ => None
      end
  | RWordB pos =>
      if Bool.eqb pos (xorb (is_word_at (m_prev x)) (is_word_at (next_char x)))
      then k x else None
  end.

(** ** Search and the String methods *)

(** The result of a successful match: the matched text, the captures
    ([None] is [undefined]) and the index where the match starts. *)
Record match_array : Type := mkmatch {
  matched : string;
  captures : list (option string);
  index : nat
}.

(** [match[i]] for [i >= 1]. *)
Definition capture (i : nat) (ma : match_array) : option string :=
  nth (pred i) (captures ma) None.

(** [match[i]] where the program has checked it to be a string. *)
Definition capture_or_empty (i : nat) (ma : match_array) : string :=
  match capture i ma with
  | Some s => s
  | None => EmptyString
  end.

(** [match && match[i]]: defined and not the empty string. *)
Definition has_capture (i : nat) (ma : match_array) : bool :=
  match capture i ma with
  | Some s => truthy s
  | None => false
  end.

(** RegExpBuiltinExec: the first start position, from [pos] on, where the
    matcher succeeds. *)
Fixpoint search (re : t) (prev : option ascii) (s : string) (pos : nat)
  : option match_array :=
  match m (ignoreCase re) (ast re)
          (mkstate prev s pos (List.repeat None (ngroups re))) Some with
  | Some y => Some (mkmatch (substring0 (m_pos y - pos) s) (m_caps y) pos)
  | None =>
      match s with
      | EmptyString => None
      | String a s' => search re (Some a) s' (S pos)
      end
  end.

(** [re.exec(s)] from the beginning of [s], and [s.match(re)] for an
    expression without the [g] flag. *)
Definition exec (re : t) (s : string) : option match_array :=
  search re None s 0.

(** All matches, left to right, each search resuming where the previous
    match ended (one character further after an empty match). *)
Fixpoint search_all (fuel : nat) (re : t) (prev : option ascii) (s : string)
    (pos : nat) : list match_array :=
  match fuel with
  | O => []
  | S f =>
      match search re prev s pos with
      | None => []
      | Some ma =>
          let stop := index ma + String.length (matched ma) - pos in
          let skip := match String.length (matched ma) with O => S stop | _ => stop end in
          let prev' := match skip with
                       | O => prev
                       | S n => match String.get n s with Some a => Some a | None => prev end
                       end in
          ma :: (if Nat.ltb (String.length s) skip then []
                 else search_all f re prev' (drop skip s) (pos + skip))
      end
  end.

Definition exec_all (re : t) (s : string) : list match_array :=
  search_all (S (String.length s)) re None s 0.

(** [s.match(re)] for an expression with the [g] flag: the matched texts,
    or [null] when there is none. *)
Definition match_global (re : t) (s : string) : option (list string) :=
  match exec_all re s with
  | [] => None
  | l => Some (map matched l)
  end.

(** [s.replace(re, rep)] for an expression with the [g] flag and a
    replacement text without [$] patterns. *)
Fixpoint splice (s : string) (pos : nat) (ms : list match_array) (rep : string) : string :=
  match ms with
  | [] => s
  | ma :: rest =>
      substring0 (index ma - pos) s ++ rep ++
      splice (drop (index ma - pos + String.length (matched ma)) s)
             (index ma + String.length (matched ma)) rest rep
  end.

Definition replace_global (re : t) (rep : string) (s : string) : string :=
  splice s 0 (exec_all re s) rep.

(** [new RegExp(source, flags)] for the flag strings the handler uses:
    the letters [i] and [g].  The message of the exception shows the
    source between slashes, followed by the flags. *)
Definition create (src flags : string) : outcome t :=
  match parse src with
  | POk (r, g) =>
      Return (mk src r g (includes flags "i") (includes flags "g"))
  | PErr reason =>
      Throw (SyntaxError ("Invalid regular expression: /" ++ src ++ "/" ++ flags
                          ++ ": " ++ reason))
  end.

(** A regular-expression literal [/source/flags] of the program text: the
    compiler has already accepted its source. *)
Definition literal (src flags : string) : t :=
  match parse src with
  | POk (r, g) => mk src r g (includes flags "i") (includes flags "g")
  | PErr _ => mk src (RClass false []) 0 false false
  end.

End RegExp.

(* ===================================================================== *)
(** * The data model (src/lib/types.ts) *)
(* ===================================================================== *)

(** The two descriptors of one dimension: [{ tech1, tech2 }]. *)
Record Descriptors : Type := mkDescriptors {
  tech1 : string;
  tech2 : string
}.

Record ComparisonMatrix : Type := mkComparisonMatrix {
  speed : Descriptors;
  cost : Descriptors;
  developerExperience : Descriptors;
  scalability : Descriptors;
  maintainability : Descriptors
}.

Record ScenarioVerdict : Type := mkScenarioVerdict {
  name : string;
  winner : string;
  reasoning : string;
  context : string
}.

Record HiddenTax : Type := mkHiddenTax {
  technology : string;
  warning : string;
  timeframe : string;
  impact : string
}.

Record Matchup : Type := mkMatchup {
  technology1 : string;
  technology2 : string
}.

Record RefereeAnalysis : Type := mkRefereeAnalysis {
  matchup : Matchup;
  taleOfTheTape : ComparisonMatrix;
  scenarios : list ScenarioVerdict;
  hiddenTax : HiddenTax;
  tieBreaker : string
}.

Record ApiError : Type := mkApiError {
  code : string;
  message : string;
  details : option string;
  timestamp : string
}.

(** The discriminated unions [{ success: true, data } | { success: false,
    error }] every stage returns. *)
Inductive result (E A : Type) : Type :=
| Success (data : A)
| Failure (error : E).
Arguments Success {E A} data.
Arguments Failure {E A} error.

Definition is_success {E A : Type} (r : result E A) : bool :=
  match r with
  | Success _ => true
  | Failure _ => false
  end.

(** The five sections [extractSections] returns. *)
Record Sections : Type := mkSections {
  s_matchup : string;
  s_taleOfTheTape : string;
  s_verdicts : string;
  s_hiddenTax : string;
  s_tieBreaker : string
}.

(** ** Objects used as records under construction

    [sections] and [comparison] are plain objects filled key by key.  The
    keys keep their insertion order ([Object.keys], [Object.entries]);
    assigning to a key that exists replaces the value in place. *)

Definition obj (V : Type) : Type := list (string * V).

Fixpoint obj_get {V : Type} (key : string) (o : obj V) : option V :=
  match o with
  | [] => None
  | (k, v) :: rest => if String.eqb k key then Some v else obj_get key rest
  end.

Fixpoint obj_set {V : Type} (key : string) (v : V) (o : obj V) : obj V :=
  match o with
  | [] => [(key, v)]
  | (k, w) :: rest =>
      if String.eqb k key then (k, v) :: rest else (k, w) :: obj_set key v rest
  end.

Definition obj_keys {V : Type} (o : obj V) : list string := map fst o.

Definition obj_has {V : Type} (key : string) (o : obj V) : bool :=
  match obj_get key o with
  | Some _ => true
  | None => false
  end.

(** The double-quote character. *)
Definition dquote : string := String "034"%char EmptyString.

(** The loop [for (i...) { match = content.match(patterns[i]); if (cond)
    break; }]: after it [match] is the result of the pattern that made the
    loop break or, when none did, of the last pattern tried. *)
Fixpoint loop_match (accept : option RegExp.match_array -> bool)
    (patterns : list RegExp.t) (content : string)
    (last : option RegExp.match_array) : option RegExp.match_array :=
  match patterns with
  | [] => last
  | p :: rest =>
      let mt := RegExp.exec p content in
      if accept mt then mt else loop_match accept rest content mt
  end.

(** [match && match[i]] on a possibly null match. *)
Definition has (i : nat) (mt : option RegExp.match_array) : bool :=
  match mt with
  | Some ma => RegExp.has_capture i ma
  | None => false
  end.

(** [match[i]] once [has i match] has been checked. *)
Definition cap (i : nat) (mt : option RegExp.match_array) : string :=
  match mt with
  | Some ma => RegExp.capture_or_empty i ma
  | None => EmptyString
  end.

Fixpoint create_all (sources : list string) (flags : string)
  : outcome (list RegExp.t) :=
  match sources with
  | [] => Return []
  | src :: rest =>
      let! re := RegExp.create src flags in
      let! res := create_all rest flags in
      Return (re :: res)
  end.

(* ===================================================================== *)
(** * src/app/api/referee/route.ts *)
(* ===================================================================== *)

Module Route.

Import JS.

(** ** extractSections *)

Definition patterns : list (string * RegExp.t) :=
  [ ("matchup", RegExp.literal "###\s*1\..*?(?:ü•ä|Matchup)\s*([\s\S]*?)(?=###\s*2\.|$)" "i");
    ("taleOfTheTape", RegExp.literal "###\s*2\..*?(?:üìä|Tale of the Tape)\s*([\s\S]*?)(?=###\s*3\.|$)" "i");
    ("verdicts", RegExp.literal "###\s*3\..*?(?:‚öñÔ∏è|Verdicts)\s*([\s\S]*?)(?=###\s*4\.|$)" "i");
    ("hiddenTax", RegExp.literal "###\s*4\..*?(?:‚ö†Ô∏è|Hidden Tax)\s*([\s\S]*?)(?=###\s*5\.|$)" "i");
    ("tieBreaker", RegExp.literal "###\s*5\..*?(?:üèÅ|Tie-Breaker)\s*([\s\S]*?)$" "i") ].

(** The loop over [Object.entries(patterns)]: it returns at the first key
    whose pattern does not match or captures nothing. *)
Fixpoint extract_loop (response : string) (entries : list (string * RegExp.t))
    (sections : obj string) : result string (obj string) :=
  match entries with
  | [] => Success sections
  | (key, pattern) :: rest =>
      let mt := RegExp.exec pattern response in
      if negb (has 1 mt) then
        Failure ("Missing or empty section: " ++ key ++ ". Response preview: "
                 ++ substring0 200 response)
      else extract_loop response rest (obj_set key (trim (cap 1 mt)) sections)
  end.

(** [sections.key] *)
Definition field (key : string) (sections : obj string) : string :=
  match obj_get key sections with
  | Some v => v
  | None => EmptyString
  end.

Definition sections_data (sections : obj string) : Sections :=
  mkSections (field "matchup" sections) (field "taleOfTheTape" sections)
             (field "verdicts" sections) (field "hiddenTax" sections)
             (field "tieBreaker" sections).

Definition extractSections (response : string) : outcome (result string Sections) :=
  try_catch
    (match extract_loop response patterns [] with
     | Failure e => Return (Failure e)
     | Success sections => Return (Success (sections_data sections))
     end)
    (fun error =>
       Return (Failure ("Section extraction failed: " ++ exn_message error))).

(** ** parseTaleOfTheTape *)

Definition dimensions : list string :=
  ["Speed"; "Cost"; "Developer Experience"; "Scalability"; "Maintainability"].

(** The [dimensionKeyMap] of the table phase. *)
Definition tableKeyMap (k : string) : option string :=
  if String.eqb k "speed" then Some "speed"
  else if String.eqb k "cost" then Some "cost"
  else if String.eqb k "developer experience" then Some "developerExperience"
  else if String.eqb k "scalability" then Some "scalability"
  else if String.eqb k "maintainability" then Some "maintainability"
  else None.

(** The [dimensionKeyMap] of the line-by-line phase. *)
Definition lineKeyMap (k : string) : option string :=
  if String.eqb k "speed" then Some "speed"
  else if String.eqb k "cost" then Some "cost"
  else if String.eqb k "developerexperience" then Some "developerExperience"
  else if String.eqb k "developer experience" then Some "developerExperience"
  else if String.eqb k "scalability" then Some "scalability"
  else if String.eqb k "maintainability" then Some "maintainability"
  else None.

(** One data row of the markdown table. *)
Definition table_row (comparison : obj Descriptors) (row : string) : obj Descriptors :=
  let cells := filter truthy (map trim (split "|" row)) in
  match cells with
  | dimensionName :: value1 :: value2 :: _ =>
      match find (fun dim =>
                    includes (toLowerCase dimensionName) (toLowerCase dim)
                    || includes (toLowerCase dim) (toLowerCase dimensionName))
                 dimensions with
      | Some matchingDimension =>
          match tableKeyMap (toLowerCase matchingDimension) with
          | Some key => obj_set key (mkDescriptors value1 value2) comparison
          | None => comparison
          end
      | None => comparison
      end
  | _ => comparison
  end.

Definition table_regex : RegExp.t := RegExp.literal "\|[^|]*\|[^|]*\|[^|]*\|" "g".

(** The table phase: with more than two rows, the rows after the header and
    the separator are read. *)
Definition table_phase (content : string) : obj Descriptors :=
  match RegExp.match_global table_regex content with
  | Some tableMatch =>
      if Nat.ltb 2 (List.length tableMatch)
      then fold_left table_row (skipn 2 tableMatch) []
      else []
  | None => []
  end.

(** The six patterns tried for one dimension, as the template literals
    build them. *)
Definition line_sources (dimension : string) : list string :=
  [ "\|\s*" ++ dimension ++ "\s*\|\s*([^|]+?)\s*\|\s*([^|]+?)\s*\|";
    dimension ++ "\s*[:|]\s*([^|\n]+?)\s*\|\s*([^|\n]+?)(?=\n|$)";
    dimension ++ "\s*\|\s*([^|]+?)\s*\|\s*([^|]+?)(?=\n|$)";
    "\*\*" ++ dimension ++ "\*\*\s*\|\s*([^|]+?)\s*\|\s*([^|]+?)(?=\n|$)";
    dimension ++ "\s*[-:]\s*([^\n]+?)\s+vs\s+([^\n]+?)(?=\n|$)";
    dimension ++ "[^\n]*?([A-Za-z0-9$][^|\n]*?)\s*[|\s]+([A-Za-z0-9$][^|\n]*?)(?=\n|$)" ].

Definition bold_regex : RegExp.t := RegExp.literal "^\*\*|\*\*$" "g".
Definition spaces_regex : RegExp.t := RegExp.literal "\s+" "g".

(** [dimension.toLowerCase().replace(/\s+/g, '')] *)
Definition normalizedKey (dimension : string) : string :=
  RegExp.replace_global spaces_regex "" (toLowerCase dimension).

(** [match[i].trim().replace(/^\*\*|\*\*$/g, '')] *)
Definition descriptor (i : nat) (mt : option RegExp.match_array) : string :=
  RegExp.replace_global bold_regex "" (trim (cap i mt)).

Definition line_accept (mt : option RegExp.match_array) : bool :=
  has 1 mt && has 2 mt.

(** The body of the loop over [dimensions] in the line-by-line phase. *)
Definition line_step (content : string) (comparison : obj Descriptors)
    (dimension : string) : outcome (obj Descriptors) :=
  if obj_has (normalizedKey dimension) comparison then Return comparison
  else
    let! patterns := create_all (line_sources dimension) "i" in
    let mt := loop_match line_accept patterns content None in
    if has 1 mt && has 2 mt then
      match (match lineKeyMap (normalizedKey dimension) with
             | Some key => Some key
             | None => lineKeyMap (toLowerCase dimension)
             end) with
      | Some key =>
          Return (obj_set key (mkDescriptors (descriptor 1 mt) (descriptor 2 mt))
                          comparison)
      | None => Return comparison
      end
    else Return comparison.

Fixpoint line_phase (content : string) (dims : list string)
    (comparison : obj Descriptors) : outcome (obj Descriptors) :=
  match dims with
  | [] => Return comparison
  | dimension :: rest =>
      let! comparison' := line_step content comparison dimension in
      line_phase content rest comparison'
  end.

(** The labels pushed on [missing], in the order of the five tests. *)
Definition missing_of (labels : list (string * string)) (comparison : obj Descriptors)
  : list string :=
  map snd (filter (fun kl => negb (obj_has (fst kl) comparison)) labels).

Definition missing_labels : list (string * string) :=
  [ ("speed", "speed"); ("cost", "cost");
    ("developerExperience", "developerExperience");
    ("scalability", "scalability"); ("maintainability", "maintainability") ].

(** [comparison as ComparisonMatrix], once the five keys are present. *)
Definition as_matrix (comparison : obj Descriptors) : option ComparisonMatrix :=
  match obj_get "speed" comparison, obj_get "cost" comparison,
        obj_get "developerExperience" comparison,
        obj_get "scalability" comparison, obj_get "maintainability" comparison with
  | Some a, Some b, Some c, Some d, Some e => Some (mkComparisonMatrix a b c d e)
  | _, _, _, _, _ => None
  end.

(** The text of the error of an incomplete matrix. *)
Definition missing_data_error (labels : list (string * string)) (content : string)
    (comparison : obj Descriptors) : string :=
  "Missing comparison data for: " ++ join ", " (missing_of labels comparison)
  ++ ". Found: " ++ join ", " (obj_keys comparison)
  ++ ". Content: " ++ substring0 500 content.

Definition validate_matrix (labels : list (string * string)) (content : string)
    (comparison : obj Descriptors) : result string ComparisonMatrix :=
  match as_matrix comparison with
  | Some matrix => Success matrix
  | None => Failure (missing_data_error labels content comparison)
  end.

(** The two phases that fill [comparison]: the table, then, when fewer than
    five keys were found, the lines. *)
Definition comparison_of (content : string) : outcome (obj Descriptors) :=
  let comparison := table_phase content in
  if Nat.ltb (List.length (obj_keys comparison)) 5
  then line_phase content dimensions comparison
  else Return comparison.

Definition parseTaleOfTheTape (content tech1 tech2 : string)
  : outcome (result string ComparisonMatrix) :=
  try_catch
    (let! comparison := comparison_of content in
     Return (validate_matrix missing_labels content comparison))
    (fun error =>
       Return (Failure ("Tale of the Tape parsing failed: " ++ exn_message error))).

(** ** parseScenarios *)

Definition scenarioNames : list string :=
  ["Move Fast Team"; "Scale Team"; "Budget Team"].

(** [name.replace(' Team', '')] *)
Definition teamType (name : string) : string := replace_first " Team" "" name.

(** The six patterns tried for one scenario, as the template literals build
    them. *)
Definition scenario_sources (name : string) : list string :=
  [ "\*\*Scenario [ABC] \(The '" ++ teamType name
      ++ "' Team\):\*\*\s*([\s\S]*?)(?=\*\*Scenario|$)";
    "\*\*Scenario [ABC] \(The " ++ dquote ++ teamType name ++ dquote
      ++ " Team\):\*\*\s*([\s\S]*?)(?=\*\*Scenario|$)";
    "###\s*Scenario [ABC] \(The '" ++ teamType name
      ++ "' Team\)\s*([\s\S]*?)(?=###|$)";
    "\*\*Scenario [ABC]:\s*The '" ++ teamType name
      ++ "' Team\*\*\s*([\s\S]*?)(?=\*\*Scenario|$)";
    "(?:Scenario [ABC]|\*\*.*?).*?" ++ teamType name
      ++ ".*?Team.*?([\s\S]*?)(?=(?:Scenario [ABC]|\*\*.*?Team)|$)";
    teamType name ++ ".*?Team.*?([\s\S]*?)(?=(?:Scale|Budget|Move Fast).*?Team|$)" ].

(** [match && match[1] && match[1].trim().length > 10] *)
Definition scenario_accept (mt : option RegExp.match_array) : bool :=
  has 1 mt && Nat.ltb 10 (String.length (trim (cap 1 mt))).

(** [a || b] on two possibly null matches. *)
Definition or_else {A : Type} (a b : option A) : option A :=
  match a with
  | Some _ => a
  | None => b
  end.

Definition which_wins_regex : RegExp.t :=
  RegExp.literal "Which wins\?\s*([^.!?\n]*[.!?])" "i".
Definition why_regex : RegExp.t :=
  RegExp.literal "Why\?\s*([^]*?)(?=Which wins|$)" "i".
Definition winner_colon_regex : RegExp.t :=
  RegExp.literal "(?:Winner|wins?):\s*([^.\n]+)" "i".
Definition x_wins_regex : RegExp.t :=
  RegExp.literal "([A-Za-z]+)\s+wins" "i".
Definition winner_is_regex : RegExp.t :=
  RegExp.literal "(?:The winner is|Winner is)\s*([^.\n]+)" "i".
Definition because_regex : RegExp.t :=
  RegExp.literal "(?:Why\?|Reason|Because)\s*([^]*?)$" "i".

(** The array literal [[null, scenarioContent]] used as a match. *)
Definition whole_content (scenarioContent : string) : RegExp.match_array :=
  RegExp.mkmatch EmptyString [Some scenarioContent] 0.

(** The body of the loop over [scenarioNames]. *)
Definition scenario_step (content : string) (name : string)
  : outcome (result string ScenarioVerdict) :=
  let! patterns := create_all (scenario_sources name) "i" in
  let mt := loop_match scenario_accept patterns content None in
  if negb (has 1 mt) then
    Return (Failure ("Missing scenario: " ++ name ++ ". Content preview: "
                     ++ substring0 400 content))
  else
    let scenarioContent := trim (cap 1 mt) in
    let winnerMatch := RegExp.exec which_wins_regex scenarioContent in
    let reasoningMatch := RegExp.exec why_regex scenarioContent in
    let winnerMatch :=
      match winnerMatch with
      | Some _ => winnerMatch
      | None =>
          or_else (RegExp.exec winner_colon_regex scenarioContent)
            (or_else (RegExp.exec x_wins_regex scenarioContent)
                     (RegExp.exec winner_is_regex scenarioContent))
      end in
    let reasoningMatch :=
      match reasoningMatch with
      | Some _ => reasoningMatch
      | None =>
          or_else (RegExp.exec because_regex scenarioContent)
                  (Some (whole_content scenarioContent))
      end in
    match winnerMatch with
    | None =>
        Return (Failure ("Could not extract winner for " ++ name ++ ". Content: "
                         ++ substring0 200 scenarioContent))
    | Some _ =>
        match reasoningMatch with
        | None =>
            Return (Failure ("Could not extract reasoning for " ++ name
                             ++ ". Content: " ++ substring0 200 scenarioContent))
        | Some _ =>
            Return (Success (mkScenarioVerdict name (trim (cap 1 winnerMatch))
                               (trim (cap 1 reasoningMatch))
                               (name ++ " scenario analysis")))
        end
    end.

Fixpoint scenario_loop (content : string) (names : list string)
    (scenarios : list ScenarioVerdict) : outcome (result string (list ScenarioVerdict)) :=
  match names with
  | [] => Return (Success scenarios)
  | name :: rest =>
      let! r := scenario_step content name in
      match r with
      | Failure e => Return (Failure e)
      | Success verdict => scenario_loop content rest (scenarios ++ [verdict])
      end
  end.

Definition check_count (r : result string (list ScenarioVerdict))
  : result string (list ScenarioVerdict) :=
  match r with
  | Failure e => Failure e
  | Success scenarios =>
      if negb (Nat.eqb (List.length scenarios) 3) then
        Failure ("Expected 3 scenarios, found " ++ string_of_nat (List.length scenarios)
                 ++ ". Found scenarios: " ++ join ", " (map name scenarios))
      else Success scenarios
  end.

Definition parseScenarios (content : string)
  : outcome (result string (list ScenarioVerdict)) :=
  try_catch
    (let! r := scenario_loop content scenarioNames [] in
     Return (check_count r))
    (fun error =>
       Return (Failure ("Scenarios parsing failed: " ++ exn_message error))).

(** ** parseHiddenTax *)

Definition tax_regex : RegExp.t :=
  RegExp.literal
    "If you choose\s+([^,]+),\s*be prepared to pay the tax of\s+([^.]+)\s+in\s+([^.]+)"
    "i".

Definition parseHiddenTax (content : string) : outcome (result string HiddenTax) :=
  try_catch
    (match RegExp.exec tax_regex content with
     | None => Return (Failure "Hidden tax format does not match expected pattern")
     | Some taxMatch =>
         let technology := RegExp.capture_or_empty 1 taxMatch in
         let warning := RegExp.capture_or_empty 2 taxMatch in
         let timeframe := RegExp.capture_or_empty 3 taxMatch in
         Return (Success (mkHiddenTax (trim technology) (trim warning) (trim timeframe)
                            (trim warning ++ " expected in " ++ trim timeframe)))
     end)
    (fun error =>
       Return (Failure ("Hidden tax parsing failed: " ++ exn_message error))).

(** ** parseLLMResponse

    [now] is the reading of the clock, [new Date().toISOString()], that is
    stored in the [timestamp] of a failure. *)

Definition parsing_error (now : string) (message : string) (details : option string)
  : ApiError :=
  mkApiError "PARSING_ERROR" message details now.

(** The stages after section extraction, in the order the handler runs
    them. *)
Definition assemble (now : string) (sections : Sections) (tech1 tech2 : string)
  : outcome (result ApiError RefereeAnalysis) :=
  let! taleOfTheTape := parseTaleOfTheTape (s_taleOfTheTape sections) tech1 tech2 in
  match taleOfTheTape with
  | Failure e =>
      Return (Failure (parsing_error now "Failed to parse Tale of the Tape section" (Some e)))
  | Success tape =>
      let! scenarios := parseScenarios (s_verdicts sections) in
      match scenarios with
      | Failure e =>
          Return (Failure (parsing_error now "Failed to parse Verdicts section" (Some e)))
      | Success verdicts =>
          let! hiddenTax := parseHiddenTax (s_hiddenTax sections) in
          match hiddenTax with
          | Failure e =>
              Return (Failure (parsing_error now "Failed to parse Hidden Tax section" (Some e)))
          | Success tax =>
              let tieBreaker := trim (s_tieBreaker sections) in
              if negb (truthy tieBreaker) then
                Return (Failure (parsing_error now "Tie-breaker question is missing or empty" None))
              else
                Return (Success (mkRefereeAnalysis (mkMatchup tech1 tech2) tape verdicts
                                   tax tieBreaker))
          end
      end
  end.

Definition parseLLMResponse (now : string) (response tech1 tech2 : string)
  : outcome (result ApiError RefereeAnalysis) :=
  try_catch
    (let! sections := extractSections response in
     match sections with
     | Failure e =>
         Return (Failure (parsing_error now "Failed to parse LLM response structure" (Some e)))
     | Success data => assemble now data tech1 tech2
     end)
    (fun error =>
       Return (Failure (parsing_error now "Unexpected error parsing LLM response"
                          (Some (exn_message error))))).

(** ** checkRateLimit

    [rateLimitMap] is the module-level [Map] from client identifiers to
    [{ count, resetTime }]; [now] is the reading of [Date.now()]. *)

Record RateEntry : Type := mkRateEntry {
  count : nat;
  resetTime : Z
}.

Definition RATE_LIMIT_WINDOW : Z := 60000.
Definition RATE_LIMIT_MAX_REQUESTS : nat := 10.

Definition checkRateLimit (now : Z) (clientId : string)
    (rateLimitMap : gmap string RateEntry) : bool * gmap string RateEntry :=
  let fresh := <[clientId := mkRateEntry 1 (now + RATE_LIMIT_WINDOW)]> rateLimitMap in
  match rateLimitMap !! clientId with
  | None => (true, fresh)
  | Some clientData =>
      if (resetTime clientData <? now)%Z then (true, fresh)
      else if Nat.leb RATE_LIMIT_MAX_REQUESTS (count clientData) then (false, rateLimitMap)
      else (true, <[clientId := mkRateEntry (S (count clientData)) (resetTime clientData)]>
                    rateLimitMap)
  end.

(** ** The POST handler *)

(** The value [await request.json()] resolves to. *)
#[local] Unset Elimination Schemes.
Inductive json : Type :=
| JNull
| JBool (b : bool)
| JNumber (n : Z)
| JString (s : string)
| JArray (items : list json)
| JObject (fields : obj json).
#[local] Set Elimination Schemes.

Record Request : Type := mkRequest {
  headers_get : string -> option string;
  request_json : outcome json
}.

(** What the handler uses of [createPromptPackage] (src/lib/prompts, not
    part of this file). *)
Record PromptPackage : Type := mkPromptPackage {
  isValid : bool;
  errors : list string;
  userPrompt : string
}.

(** The surroundings of one call: the two readings of the clock, the
    environment variable, and the collaborators imported from src/lib.
    [callOpenAI] stands for the race of the model call against the
    30-second timer, which either resolves to the reply or rejects. *)
Record Env : Type := mkEnv {
  date_now : Z;
  iso_now : string;
  NODE_ENV : string;
  callOpenAI : string -> outcome string;
  createPromptPackage : string -> string -> PromptPackage
}.

(** The state that outlives a call: the limiter's map, and the prompts
    that have been sent to the model. *)
Record World : Type := mkWorld {
  rateLimitMap : gmap string RateEntry;
  openai_calls : list string
}.

Record Response : Type := mkResponse {
  status : nat;
  payload : result ApiError RefereeAnalysis
}.

(** [details ? (typeof details === 'string' ? details : JSON.stringify(details))
    : undefined] on a string or undefined. *)
Definition shown_details (details : option string) : option string :=
  match details with
  | Some d => if truthy d then Some d else None
  | None => None
  end.

Definition createErrorResponse (env : Env) (code message : string) (status : nat)
    (details : option string) : Response :=
  mkResponse status (Failure (mkApiError code message (shown_details details) (iso_now env))).

(** [a || b] on header values: the empty string is falsy. *)
Definition or_header (a : option string) (b : string) : string :=
  match a with
  | Some v => if truthy v then v else b
  | None => b
  end.

Definition clientId_of (request : Request) : string :=
  or_header (headers_get request "x-forwarded-for")
            (or_header (headers_get request "x-real-ip") "unknown").

(** [body.key] when it is a non-empty string. *)
Definition string_field (key : string) (body : json) : option string :=
  match body with
  | JObject fields =>
      match obj_get key fields with
      | Some (JString v) => if truthy v then Some v else None
      | _ => None
      end
  | _ => None
  end.

Definition parseRequestBody (env : Env) (request : Request)
  : result ApiError (string * string) :=
  match request_json request with
  | Throw error =>
      Failure (mkApiError "INVALID_JSON" "Request body must be valid JSON"
                 (Some (exn_message error)) (iso_now env))
  | Return body =>
      match body with
      | JArray _ | JObject _ =>
          match string_field "tech1" body with
          | None =>
              Failure (mkApiError "MISSING_TECH1"
                         "tech1 field is required and must be a string" None (iso_now env))
          | Some t1 =>
              match string_field "tech2" body with
              | None =>
                  Failure (mkApiError "MISSING_TECH2"
                             "tech2 field is required and must be a string" None (iso_now env))
              | Some t2 => Success (trim t1, trim t2)
              end
          end
      | _ =>
          Failure (mkApiError "INVALID_REQUEST_BODY"
                     "Request body must be a valid JSON object" None (iso_now env))
      end
  end.

(** The [try] block after the rate limiter has admitted the request. *)
Definition POST_admitted (env : Env) (request : Request) (w : World)
  : outcome Response * World :=
  match parseRequestBody env request with
  | Failure e => (Return (createErrorResponse env (code e) (message e) 400 (details e)), w)
  | Success (tech1, tech2) =>
      if String.eqb (trim (toLowerCase tech1)) (trim (toLowerCase tech2)) then
        (Return (createErrorResponse env "DUPLICATE_TECHNOLOGIES"
                   "Please provide two different technologies for comparison." 400 None), w)
      else
        let promptPackage := createPromptPackage env tech1 tech2 in
        if negb (isValid promptPackage) then
          (Return (createErrorResponse env "VALIDATION_ERROR"
                     "Invalid technology inputs provided." 400
                     (Some (join ", " (errors promptPackage)))), w)
        else
          let w' := mkWorld (rateLimitMap w)
                            (openai_calls w ++ [userPrompt promptPackage]) in
          match callOpenAI env (userPrompt promptPackage) with
          | Throw e => (Throw e, w')
          | Return llmResponse =>
              match parseLLMResponse (iso_now env) llmResponse tech1 tech2 with
              | Throw e => (Throw e, w')
              | Return (Failure e) =>
                  (Return (createErrorResponse env (code e) (message e) 500 (details e)), w')
              | Return (Success data) => (Return (mkResponse 200 (Success data)), w')
              end
          end
  end.

(** The [catch] block of the handler. *)
Definition POST_catch (env : Env) (error : exn) : Response :=
  match error with
  | OpenAIError ecode emessage edetails =>
      if String.eqb ecode "insufficient_quota" || String.eqb ecode "rate_limit_exceeded" then
        createErrorResponse env ecode
          "Service temporarily unavailable due to high demand. Please try again in a moment."
          429 edetails
      else if String.eqb ecode "invalid_api_key" then
        createErrorResponse env "SERVICE_ERROR"
          "Service configuration error. Please try again later." 500 edetails
      else if String.eqb ecode "model_not_found" then
        createErrorResponse env "SERVICE_ERROR"
          "Analysis service temporarily unavailable. Please try again later." 500 edetails
      else createErrorResponse env ecode emessage 500 edetails
  | _ =>
      if String.eqb (exn_message error) "Request timeout" then
        createErrorResponse env "TIMEOUT_ERROR"
          "The analysis request timed out. Please try again with simpler technology names."
          408 None
      else if includes (exn_message error) "JSON" then
        createErrorResponse env "INVALID_REQUEST"
          "Invalid request format. Please check your input and try again." 400 None
      else
        createErrorResponse env "INTERNAL_ERROR"
          "An unexpected error occurred while processing your request. Please try again."
          500 (if String.eqb (NODE_ENV env) "development" then Some "{}" else None)
  end.

Definition POST (env : Env) (request : Request) (w : World) : Response * World :=
  let clientId := clientId_of request in
  let '(admitted, map') := checkRateLimit (date_now env) clientId (rateLimitMap w) in
  let w1 := mkWorld map' (openai_calls w) in
  if negb admitted then
    (createErrorResponse env "RATE_LIMIT_EXCEEDED"
       "Too many requests. Please wait before trying again." 429 None, w1)
  else
    match POST_admitted env request w1 with
    | (Return response, w2) => (response, w2)
    | (Throw error, w2) => (POST_catch env error, w2)
    end.

End Route.

(* ===================================================================== *)
(** * src/unnamed/part_000: the extended revision of the handler *)
(* ===================================================================== *)

(** The revision repeats the table phase, the line patterns, the scenario
    patterns and the final validation of route.ts verbatim; those
    definitions are taken from [Route].  Everything the revision changes
    (input guards, acceptance tests, fallback patterns and heuristics, the
    labels of the missing dimensions) is defined here. *)

Module Part000.

Import JS.

(** ** extractSections *)

Definition patterns : list (string * RegExp.t) :=
  [ ("matchup", RegExp.literal "###\s*1\..*?(?:🥊|Matchup)\s*([\s\S]*?)(?=###\s*2\.|$)" "i");
    ("taleOfTheTape", RegExp.literal "###\s*2\..*?(?:📊|Tale of the Tape)\s*([\s\S]*?)(?=###\s*3\.|$)" "i");
    ("verdicts", RegExp.literal "###\s*3\..*?(?:⚖️|Verdicts)\s*([\s\S]*?)(?=###\s*4\.|$)" "i");
    ("hiddenTax", RegExp.literal "###\s*4\..*?(?:⚠️|Hidden Tax)\s*([\s\S]*?)(?=###\s*5\.|$)" "i");
    ("tieBreaker", RegExp.literal "###\s*5\..*?(?:🏁|Tie-Breaker)\s*([\s\S]*?)$" "i") ].

(** [!match || !match[1] || match[1].trim().length === 0] *)
Definition section_missing (mt : option RegExp.match_array) : bool :=
  negb (has 1 mt) || Nat.eqb (String.length (trim (cap 1 mt))) 0.

Fixpoint extract_loop (trimmedResponse : string) (entries : list (string * RegExp.t))
    (sections : obj string) : result string (obj string) :=
  match entries with
  | [] => Success sections
  | (key, pattern) :: rest =>
      let mt := RegExp.exec pattern trimmedResponse in
      if section_missing mt then
        Failure ("Missing or empty section: " ++ key ++ ". Response preview: "
                 ++ substring0 200 trimmedResponse)
      else extract_loop trimmedResponse rest (obj_set key (trim (cap 1 mt)) sections)
  end.

Definition extractSections (response : string) : outcome (result string Sections) :=
  try_catch
    (if negb (truthy response) then Return (Failure "Response is not a valid string")
     else
       let trimmedResponse := trim response in
       if Nat.eqb (String.length trimmedResponse) 0 then Return (Failure "Response is empty")
       else
         match extract_loop trimmedResponse patterns [] with
         | Failure e => Return (Failure e)
         | Success sections => Return (Success (Route.sections_data sections))
         end)
    (fun error =>
       Return (Failure ("Section extraction failed: " ++ exn_message error))).

(** ** parseTaleOfTheTape *)

(** [match && match[1] && match[2] && match[1].trim().length > 0 &&
    match[2].trim().length > 0] *)
Definition line_accept (mt : option RegExp.match_array) : bool :=
  has 1 mt && has 2 mt
  && Nat.ltb 0 (String.length (trim (cap 1 mt)))
  && Nat.ltb 0 (String.length (trim (cap 2 mt))).

Definition line_step (content : string) (comparison : obj Descriptors)
    (dimension : string) : outcome (obj Descriptors) :=
  if obj_has (Route.normalizedKey dimension) comparison then Return comparison
  else
    let! patterns := create_all (Route.line_sources dimension) "i" in
    let mt := loop_match line_accept patterns content None in
    if has 1 mt && has 2 mt then
      match (match Route.lineKeyMap (Route.normalizedKey dimension) with
             | Some key => Some key
             | None => Route.lineKeyMap (toLowerCase dimension)
             end) with
      | Some key =>
          Return (obj_set key (mkDescriptors (Route.descriptor 1 mt) (Route.descriptor 2 mt))
                          comparison)
      | None => Return comparison
      end
    else Return comparison.

Fixpoint line_phase (content : string) (dims : list string)
    (comparison : obj Descriptors) : outcome (obj Descriptors) :=
  match dims with
  | [] => Return comparison
  | dimension :: rest =>
      let! comparison' := line_step content comparison dimension in
      line_phase content rest comparison'
  end.

Definition missing_labels : list (string * string) :=
  [ ("speed", "Speed"); ("cost", "Cost");
    ("developerExperience", "Developer Experience");
    ("scalability", "Scalability"); ("maintainability", "Maintainability") ].

Definition comparison_of (trimmedContent : string) : outcome (obj Descriptors) :=
  let comparison := Route.table_phase trimmedContent in
  if Nat.ltb (List.length (obj_keys comparison)) 5
  then line_phase trimmedContent Route.dimensions comparison
  else Return comparison.

Definition parseTaleOfTheTape (content tech1 tech2 : string)
  : outcome (result string ComparisonMatrix) :=
  try_catch
    (if negb (truthy content) then
       Return (Failure "Tale of the Tape content is not a valid string")
     else
       let trimmedContent := trim content in
       if Nat.eqb (String.length trimmedContent) 0 then
         Return (Failure "Tale of the Tape content is empty")
       else if negb (truthy tech1) || negb (truthy tech2)
               || Nat.eqb (String.length (trim tech1)) 0
               || Nat.eqb (String.length (trim tech2)) 0 then
         Return (Failure "Technology names are invalid for Tale of the Tape parsing")
       else
         let! comparison := comparison_of trimmedContent in
         Return (Route.validate_matrix missing_labels trimmedContent comparison))
    (fun error =>
       Return (Failure ("Tale of the Tape parsing failed: " ++ exn_message error))).

(** ** parseScenarios *)

Definition winnerPatterns : list RegExp.t :=
  [ RegExp.literal "Which wins\?\s*([^.!?\n]*[.!?])" "i";
    RegExp.literal "(?:Winner|wins?):\s*([^.\n]+)" "i";
    RegExp.literal "([A-Za-z][A-Za-z0-9\s.+-]*)\s+wins" "i";
    RegExp.literal
      "([A-Za-z][A-Za-z0-9\s.+-]*)\s+(?:could be seen as|is|would be)\s+(?:the\s+)?winner" "i";
    RegExp.literal "(?:go with|choose|pick|use)\s+([A-Za-z][A-Za-z0-9\s.+-]*)" "i";
    RegExp.literal
      "([A-Za-z][A-Za-z0-9\s.+-]*)\s+(?:is|would be)\s+(?:better|preferred|recommended)" "i";
    RegExp.literal
      "\b([A-Za-z][A-Za-z0-9\s.+-]{2,})\b.*(?:advantage|benefit|better|superior|preferred)" "i" ].

Definition reasoningPatterns : list RegExp.t :=
  [ RegExp.literal "Why\?\s*([^]*?)(?=Which wins|$)" "i";
    RegExp.literal "(?:Reason|Because):\s*([^]*?)$" "i";
    RegExp.literal "(?:wins?|winner|better|preferred)\.?\s*([^]*?)$" "i";
    RegExp.literal "([^]*)" "" ].

(** [winnerMatch && winnerMatch[1] && winnerMatch[1].trim().length > 0] *)
Definition winner_accept (mt : option RegExp.match_array) : bool :=
  has 1 mt && Nat.ltb 0 (String.length (trim (cap 1 mt))).

(** [reasoningMatch && reasoningMatch[1] && reasoningMatch[1].trim().length > 10] *)
Definition reasoning_accept (mt : option RegExp.match_array) : bool :=
  has 1 mt && Nat.ltb 10 (String.length (trim (cap 1 mt))).

(** The array literals [[scenarioContent, text]] used as a match. *)
Definition as_match (scenarioContent text : string) : option RegExp.match_array :=
  Some (RegExp.mkmatch scenarioContent [Some text] 0).

Definition positiveWords : list string :=
  ["winner"; "better"; "preferred"; "advantage"; "superior"; "recommended";
   "choose"; "go with"].

(** The loop over [positiveWords]: the first word next to exactly one of
    the two names decides. *)
Fixpoint positive_context (contentLower tech1 tech2 : string) (words : list string)
  : string :=
  match words with
  | [] => EmptyString
  | word :: rest =>
      let tech1Lower := toLowerCase tech1 in
      let tech2Lower := toLowerCase tech2 in
      let tech1Context :=
        includes contentLower (tech1Lower ++ " " ++ word)
        || includes contentLower (word ++ " " ++ tech1Lower) in
      let tech2Context :=
        includes contentLower (tech2Lower ++ " " ++ word)
        || includes contentLower (word ++ " " ++ tech2Lower) in
      if tech1Context && negb tech2Context then tech1
      else if tech2Context && negb tech1Context then tech2
      else positive_context contentLower tech1 tech2 rest
  end.

(** [(contentLower.match(new RegExp(techLower, 'g')) || []).length] *)
Definition mentions (contentLower techLower : string) : outcome nat :=
  let! re := RegExp.create techLower "g" in
  Return (match RegExp.match_global re contentLower with
          | Some l => List.length l
          | None => 0
          end).

(** [scenarioContent.match(new RegExp(`\\b(${tech1Lower}|${tech2Lower})\\b`, 'i'))]:
    the first mention of either name as a word of its own. *)
Definition first_mention (scenarioContent tech1Lower tech2Lower : string)
  : outcome (option RegExp.match_array) :=
  let! techPattern :=
    RegExp.create ("\b(" ++ tech1Lower ++ "|" ++ tech2Lower ++ ")\b") "i" in
  Return (RegExp.exec techPattern scenarioContent).

(** The fallback that names a winner when no phrasing was recognised.  It
    returns the text stored in [fallbackWinner]; the empty string is the
    case "still no winner". *)
Definition fallback_winner (scenarioContent tech1 tech2 : string) : outcome string :=
  let tech1Lower := toLowerCase tech1 in
  let tech2Lower := toLowerCase tech2 in
  let contentLower := toLowerCase scenarioContent in
  let! tech1Mentions := mentions contentLower tech1Lower in
  let! tech2Mentions := mentions contentLower tech2Lower in
  let fallbackWinner := positive_context contentLower tech1 tech2 positiveWords in
  if truthy fallbackWinner then Return fallbackWinner
  else if Nat.ltb tech2Mentions tech1Mentions then Return tech1
  else if Nat.ltb tech1Mentions tech2Mentions then Return tech2
  else
    let! firstMention := first_mention scenarioContent tech1Lower tech2Lower in
    match firstMention with
    | Some found => Return (RegExp.capture_or_empty 1 found)
    | None => Return tech1
    end.

(** The scenario text located for [name]: the capture the pattern loop
    leaves, when it is not empty. *)
Definition locate (trimmedContent name : string) : outcome (option string) :=
  let! patterns := create_all (Route.scenario_sources name) "i" in
  let mt := loop_match Route.scenario_accept patterns trimmedContent None in
  Return (if has 1 mt then Some (cap 1 mt) else None).

(** Winner and reasoning of a located scenario. *)
Definition verdict_of (name scenarioContent tech1 tech2 : string)
  : outcome (result string ScenarioVerdict) :=
  let winnerMatch := loop_match winner_accept winnerPatterns scenarioContent None in
  let reasoningMatch := loop_match reasoning_accept reasoningPatterns scenarioContent None in
  let reasoningMatch :=
    if negb (has 1 reasoningMatch)
       || Nat.ltb (String.length (trim (cap 1 reasoningMatch))) 10
    then as_match scenarioContent scenarioContent
    else reasoningMatch in
  let finish (winnerMatch : option RegExp.match_array) :=
    let reasoningMatch :=
      if negb (has 1 reasoningMatch)
         || Nat.eqb (String.length (trim (cap 1 reasoningMatch))) 0
      then as_match scenarioContent (trim scenarioContent)
      else reasoningMatch in
    Return (Success (mkScenarioVerdict name (trim (cap 1 winnerMatch))
                       (trim (cap 1 reasoningMatch)) (name ++ " scenario analysis"))) in
  if negb (has 1 winnerMatch) || Nat.eqb (String.length (trim (cap 1 winnerMatch))) 0 then
    if negb (truthy tech1) || negb (truthy tech2) then
      Return (Failure ("Could not determine winner for " ++ name
                       ++ " - technology names not available. Content: "
                       ++ substring0 200 scenarioContent))
    else
      let! fallbackWinner := fallback_winner scenarioContent tech1 tech2 in
      if truthy fallbackWinner then finish (as_match scenarioContent fallbackWinner)
      else
        Return (Failure ("Could not determine winner for " ++ name ++ ". Content: "
                         ++ substring0 200 scenarioContent))
  else finish winnerMatch.

(** The body of the loop over [scenarioNames]. *)
Definition scenario_step (trimmedContent tech1 tech2 name : string)
  : outcome (result string ScenarioVerdict) :=
  let! located := locate trimmedContent name in
  match located with
  | None =>
      Return (Failure ("Missing scenario: " ++ name ++ ". Content preview: "
                       ++ substring0 400 trimmedContent))
  | Some text => verdict_of name (trim text) tech1 tech2
  end.

Fixpoint scenario_loop (trimmedContent tech1 tech2 : string) (names : list string)
    (scenarios : list ScenarioVerdict) : outcome (result string (list ScenarioVerdict)) :=
  match names with
  | [] => Return (Success scenarios)
  | name :: rest =>
      let! r := scenario_step trimmedContent tech1 tech2 name in
      match r with
      | Failure e => Return (Failure e)
      | Success verdict => scenario_loop trimmedContent tech1 tech2 rest (scenarios ++ [verdict])
      end
  end.

(** [tech1] and [tech2] are optional parameters; the one test made of them,
    [!tech1 || !tech2], treats a missing name like the empty string. *)
Definition parseScenarios (content tech1 tech2 : string)
  : outcome (result string (list ScenarioVerdict)) :=
  try_catch
    (if negb (truthy content) then Return (Failure "Verdicts content is not a valid string")
     else
       let trimmedContent := trim content in
       if Nat.eqb (String.length trimmedContent) 0 then
         Return (Failure "Verdicts content is empty")
       else
         let! r := scenario_loop trimmedContent tech1 tech2 Route.scenarioNames [] in
         Return (Route.check_count r))
    (fun error =>
       Return (Failure ("Scenarios parsing failed: " ++ exn_message error))).

(** ** parseHiddenTax *)

Definition tax_regex : RegExp.t :=
  RegExp.literal
    "If you choose\s+([^,]+),\s*be prepared to pay the tax of\s+([^.]+)\s+in\s+([^.]+)"
    "i".

Definition alternativePatterns : list RegExp.t :=
  [ RegExp.literal
      "If you choose\s+([^,]+),?\s*be prepared to pay the tax of\s+([^.!?]+)[.!?]?\s*in\s+([^.!?]+)"
      "i";
    RegExp.literal
      "If you choose\s+([^,]+),?\s*be prepared to pay the tax of\s+([^.!?]+)" "i";
    RegExp.literal "choose\s+([^,]+).*?tax.*?of\s+([^.!?\n]+).*?in\s+([^.!?\n]+)" "i";
    RegExp.literal "tax\s+of\s+([^.!?\n]+)(?:\s+in\s+([^.!?\n]+))?" "i";
    RegExp.literal
      "([A-Za-z][A-Za-z0-9\s.+-]+).*?(?:tax|cost|downside|problem).*?([^.!?\n]+)" "i" ].

Definition techPattern : RegExp.t :=
  RegExp.literal "\b([A-Za-z][A-Za-z0-9\s.+-]{2,20})\b" "g".

Definition warningPattern : RegExp.t :=
  RegExp.literal
    "(complexity|maintenance|learning curve|cost|overhead|difficulty|challenge|problem|issue|burden)[^.!?\n]*"
    "i".

(** [array[n] = v]: the array grows with undefined entries when needed. *)
Fixpoint assign {A : Type} (n : nat) (v d : A) (l : list A) : list A :=
  match n, l with
  | O, [] => [v]
  | O, _ :: t => v :: t
  | S n', [] => d :: assign n' v d []
  | S n', h :: t => h :: assign n' v d t
  end.

(** [taxMatch[3] = '6 months'] *)
Definition default_timeframe (ma : RegExp.match_array) : RegExp.match_array :=
  RegExp.mkmatch (RegExp.matched ma)
    (assign 2 (Some "6 months") None (RegExp.captures ma)) (RegExp.index ma).

(** The loop over [alternativePatterns], [i] counting from the index of the
    first pattern of [patterns]. *)
Fixpoint alternative_loop (trimmedContent : string) (i : nat) (patterns : list RegExp.t)
    (taxMatch : option RegExp.match_array) : option RegExp.match_array :=
  match patterns with
  | [] => taxMatch
  | p :: rest =>
      let mt := RegExp.exec p trimmedContent in
      if has 1 mt && has 2 mt then
        if negb (has 3 mt) && Nat.ltb i 4 then option_map default_timeframe mt else mt
      else alternative_loop trimmedContent (S i) rest mt
  end.

Definition parseHiddenTax (content : string) : outcome (result string HiddenTax) :=
  try_catch
    (if negb (truthy content) then Return (Failure "Hidden Tax content is not a valid string")
     else
       let trimmedContent := trim content in
       if Nat.eqb (String.length trimmedContent) 0 then
         Return (Failure "Hidden Tax content is empty")
       else
         let taxMatch := RegExp.exec tax_regex trimmedContent in
         let taxMatch :=
           if negb (has 1 taxMatch) || negb (has 2 taxMatch) || negb (has 3 taxMatch)
           then alternative_loop trimmedContent 0 alternativePatterns taxMatch
           else taxMatch in
         if negb (has 1 taxMatch) || negb (has 2 taxMatch) then
           match RegExp.exec_all techPattern trimmedContent,
                 RegExp.exec warningPattern trimmedContent with
           | first :: _, Some warningMatch =>
               let technology := trim (RegExp.capture_or_empty 1 first) in
               let warning := trim (RegExp.matched warningMatch) in
               let timeframe := "6 months" in
               Return (Success (mkHiddenTax technology warning timeframe
                                  (warning ++ " expected in " ++ timeframe)))
           | _, _ =>
               Return (Failure ("Hidden Tax format does not match expected pattern. Content: "
                                ++ substring0 200 trimmedContent))
           end
         else
           let technology := trim (cap 1 taxMatch) in
           let warning := trim (cap 2 taxMatch) in
           let timeframe := if has 3 taxMatch then trim (cap 3 taxMatch) else "6 months" in
           if Nat.eqb (String.length technology) 0 then
             Return (Failure "Technology name is empty in Hidden Tax")
           else if Nat.eqb (String.length warning) 0 then
             Return (Failure "Warning text is empty in Hidden Tax")
           else
             Return (Success (mkHiddenTax technology warning timeframe
                                (warning ++ " expected in " ++ timeframe))))
    (fun error =>
       Return (Failure ("Hidden tax parsing failed: " ++ exn_message error))).

(** ** parseLLMResponse *)

Definition assemble (now : string) (sections : Sections) (tech1 tech2 : string)
  : outcome (result ApiError RefereeAnalysis) :=
  let! taleOfTheTape := parseTaleOfTheTape (s_taleOfTheTape sections) tech1 tech2 in
  match taleOfTheTape with
  | Failure e =>
      Return (Failure (Route.parsing_error now "Failed to parse Tale of the Tape section" (Some e)))
  | Success tape =>
      let! scenarios := parseScenarios (s_verdicts sections) tech1 tech2 in
      match scenarios with
      | Failure e =>
          Return (Failure (Route.parsing_error now "Failed to parse Verdicts section" (Some e)))
      | Success verdicts =>
          let! hiddenTax := parseHiddenTax (s_hiddenTax sections) in
          match hiddenTax with
          | Failure e =>
              Return (Failure (Route.parsing_error now "Failed to parse Hidden Tax section" (Some e)))
          | Success tax =>
              let tieBreaker := trim (s_tieBreaker sections) in
              if negb (truthy tieBreaker) then
                Return (Failure (Route.parsing_error now
                                   "Tie-breaker question is missing or empty" None))
              else
                Return (Success (mkRefereeAnalysis (mkMatchup tech1 tech2) tape verdicts
                                   tax tieBreaker))
          end
      end
  end.

Definition parseLLMResponse (now : string) (response tech1 tech2 : string)
  : outcome (result ApiError RefereeAnalysis) :=
  if negb (truthy response) || Nat.eqb (String.length (trim response)) 0 then
    Return (Failure (mkApiError "PARSING_ERROR" "LLM response is empty or invalid"
                       (Some "Response must be a non-empty string") now))
  else if negb (truthy tech1) || negb (truthy tech2)
          || Nat.eqb (String.length (trim tech1)) 0
          || Nat.eqb (String.length (trim tech2)) 0 then
    Return (Failure (mkApiError "PARSING_ERROR" "Technology names are invalid"
                       (Some "Both tech1 and tech2 must be non-empty strings") now))
  else
    try_catch
      (let! sections := extractSections response in
       match sections with
       | Failure e =>
           Return (Failure (Route.parsing_error now "Failed to parse LLM response structure"
                              (Some e)))
       | Success data => assemble now data tech1 tech2
       end)
      (fun error =>
         Return (Failure (Route.parsing_error now "Unexpected error parsing LLM response"
                            (Some (exn_message error))))).

End Part000.

(* ===================================================================== *)
(** * Notions used to reason about the matcher *)
(* ===================================================================== *)

Module Matching.

Import JS RegExp.

(** [x'] is [x] moved forward over [consumed]; the captures are free. *)
Definition extends (x x' : mstate) : Prop :=
  exists consumed,
    m_rest x = consumed ++ m_rest x'
    /\ m_pos x' = m_pos x + String.length consumed.

(** A matcher calls its continuation, if at all, on states further on in
    the same text, and its result is the result of such a call. *)
Definition forwards (mr : mstate -> cont -> option mstate) : Prop :=
  forall x k y, mr x k = Some y -> exists x', extends x x' /\ k x' = Some y.

(** Every character of [s] satisfies [p]. *)
Fixpoint all (p : ascii -> bool) (s : string) : bool :=
  match s with
  | EmptyString => true
  | String c s' => p c && all p s'
  end.

(** The state [x] moved over the text [consumed], which its remaining text
    begins with. *)
Fixpoint skip (consumed : string) (x : mstate) : mstate :=
  match consumed, m_rest x with
  | String _ consumed', String a rest => skip consumed' (advance a rest x)
  | _, _ => x
  end.

(** What the greedy star of a one-character atom computes: the longest run
    first, then one character less at a time. *)
Fixpoint star_greedy (p : ascii -> bool) (rest : string) (x : mstate) (k : cont)
  : option mstate :=
  match rest with
  | String a rest' =>
      if p a then
        match star_greedy p rest' (advance a rest' x) k with
        | Some z => Some z
        | None => k x
        end
      else k x
  | EmptyString => k x
  end.

(** What the lazy star of a one-character atom computes: the empty run
    first, then one character more at a time. *)
Fixpoint star_lazy (p : ascii -> bool) (rest : string) (x : mstate) (k : cont)
  : option mstate :=
  match k x with
  | Some z => Some z
  | None =>
      match rest with
      | String a rest' => if p a then star_lazy p rest' (advance a rest' x) k else None
      | EmptyString => None
      end
  end.

(** The test a one-character atom makes. *)
Definition atom_pred (ic : bool) (r : regex) : option (ascii -> bool) :=
  match r with
  | RChar c => Some (char_eqb ic c)
  | RDot => Some (fun a => negb (is_line_terminator a))
  | RClass neg items => Some (class_match ic neg items)
  | _ => None
  end.

(** The text [rest] is empty or begins with a character that fails [p]: a
    run of [p] cannot go on into it. *)
Definition stops (p : ascii -> bool) (rest : string) : Prop :=
  match rest with
  | EmptyString => True
  | String c _ => p c = false
  end.

(** The characters of a text as a sequence of literal atoms. *)
Fixpoint lits (l : string) : list regex :=
  match l with
  | EmptyString => []
  | String c l' => RChar c :: lits l'
  end.

(** The pattern looks, at some point of its top-level sequence, for the
    letters i and n followed by white space. *)
Fixpoint forces_in_clause (r : regex) : bool :=
  match r with
  | RSeq (RChar "i") (RSeq (RChar "n") (RSeq (RQuant 1 None _ (RClass false [CSpace true])) _)) =>
      true
  | RSeq _ r2 => forces_in_clause r2
  | _ => false
  end.

(** The shape of the five section patterns: a heading, then
    [\s*([\s\S]*?)] and a tail that consumes nothing, either [$] or a
    look-ahead [(?=marker|$)]. *)
Fixpoint chain (heads : list regex) (last : regex) : regex :=
  match heads with
  | [] => last
  | h :: rest => RSeq h (chain rest last)
  end.

Definition any_star : regex :=
  RQuant 0 None false (RClass false [CSpace true; CSpace false]).

Definition space_star : regex := RQuant 0 None true (RClass false [CSpace true]).

Definition section_body (tail : regex) : regex :=
  RSeq space_star (RSeq (RGroup 1 any_star) tail).

(** The tail of a section pattern and the marker it looks for, if any. *)
Definition tail_marker (tail : regex) : option (option regex) :=
  match tail with
  | REol => Some None
  | RLook true (RAlt marker REol) =>
      match groups_of marker with
      | [] => Some (Some marker)
      | _ => None
      end
  | _ => None
  end.

(** [split_section r] takes a section pattern apart: the factors of the
    heading, and the tail. *)
Fixpoint split_section (r : regex) : option (list regex * regex) :=
  match r with
  | RSeq (RQuant 0 None true (RClass false [CSpace true]))
         (RSeq (RGroup 1 (RQuant 0 None false (RClass false [CSpace true; CSpace false])))
               tail) =>
      match tail_marker tail with
      | Some _ => Some ([], tail)
      | None => None
      end
  | RSeq h r' =>
      match groups_of h, split_section r' with
      | [], Some (heads, tail) => Some (h :: heads, tail)
      | _, _ => None
      end
  | _ => None
  end.

(** A compiled expression has the shape of a section pattern. *)
Definition section_shaped (re : RegExp.t) : bool :=
  match split_section (ast re) with
  | Some _ => Nat.eqb (ngroups re) 1
  | None => false
  end.

(** The text [s] begins with the characters of [l], compared as the
    matcher compares them under the [i] flag. *)
Fixpoint prefix_ci (l s : string) : bool :=
  match l, s with
  | EmptyString, _ => true
  | String c l', String a s' => char_eqb true c a && prefix_ci l' s'
  | String _ _, EmptyString => false
  end.

(** The text [l] occurs somewhere in [s], case ignored. *)
Fixpoint occurs_ci (l s : string) : bool :=
  prefix_ci l s ||
  match s with
  | String _ s' => occurs_ci l s'
  | EmptyString => false
  end.

(** The top-level sequence of the pattern begins with the characters of
    [l] as literal atoms. *)
Fixpoint starts_lits (l : string) (r : regex) : bool :=
  match l with
  | EmptyString => true
  | String c l' =>
      match r with
      | RSeq (RChar c') r2 => Ascii.eqb c c' && starts_lits l' r2
      | RChar c' =>
          Ascii.eqb c c' && match l' with EmptyString => true | _ => false end
      | _ => false
      end
  end.

(** The characters of [l] stand, one after the other, somewhere in the
    top-level sequence of the pattern. *)
Fixpoint forces_lits (l : string) (r : regex) : bool :=
  starts_lits l r ||
  match r with
  | RSeq _ r2 => forces_lits l r2
  | _ => false
  end.

(** The character before the position reached after the text [run]. *)
Fixpoint last_char (run : string) (prev : option ascii) : option ascii :=
  match run with
  | EmptyString => prev
  | String c run' => last_char run' (Some c)
  end.

(** The state [x] after the text [run] has been consumed, [rest'] being
    what remains. *)
Definition moved (run rest' : string) (x : mstate) : mstate :=
  mkstate (last_char run (m_prev x)) rest' (m_pos x + String.length run) (m_caps x).

End Matching.

(* ===================================================================== *)
(** * Vocabulary of the specification *)
(* ===================================================================== *)

(** ** Section extraction, in the words of the specification *)

(** The content of a section: the text captured under its heading, trimmed;
    none when the heading is missing or nothing but white space follows
    it. *)
Definition section_content (pattern : RegExp.t) (text : string) : option string :=
  match RegExp.exec pattern text with
  | Some ma =>
      match RegExp.capture 1 ma with
      | Some c => if JS.truthy (JS.trim c) then Some (JS.trim c) else None
      | None => None
      end
  | None => None
  end.

(** The first section without content, in the scan order. *)
Fixpoint first_missing (patterns : list (string * RegExp.t)) (text : string)
  : option string :=
  match patterns with
  | [] => None
  | (key, pattern) :: rest =>
      match section_content pattern text with
      | None => Some key
      | Some _ => first_missing rest text
      end
  end.

(** The failure that names the section [key]. *)
Definition missing_message (key text : string) : string :=
  "Missing or empty section: " ++ key ++ ". Response preview: "
  ++ JS.substring0 200 text.

Definition content_of (patterns : list (string * RegExp.t)) (key text : string) : string :=
  match obj_get key patterns with
  | Some pattern =>
      match section_content pattern text with
      | Some c => c
      | None => EmptyString
      end
  | None => EmptyString
  end.

(** All five sections, or the failure naming the first one missing. *)
Definition extraction (patterns : list (string * RegExp.t)) (text : string)
  : result string Sections :=
  match first_missing patterns text with
  | Some key => Failure (missing_message key text)
  | None =>
      Success (mkSections (content_of patterns "matchup" text)
                          (content_of patterns "taleOfTheTape" text)
                          (content_of patterns "verdicts" text)
                          (content_of patterns "hiddenTax" text)
                          (content_of patterns "tieBreaker" text))
  end.

(** ** The dimension matrix *)

(** The five dimensions: the name looked for in the text and the key of the
    matrix. *)
Definition dimension_keys : list (string * string) :=
  [ ("Speed", "speed"); ("Cost", "cost");
    ("Developer Experience", "developerExperience");
    ("Scalability", "scalability"); ("Maintainability", "maintainability") ].

(** The result [r] is what the five tests make of [comparison]: a matrix
    that holds its five entries, or the error that lists the labels of the
    keys it lacks, of which there is at least one. *)
Definition tape_outcome (labels : list (string * string)) (content : string)
    (comparison : obj Descriptors) (r : result string ComparisonMatrix) : Prop :=
  match r with
  | Success matrix =>
      obj_get "speed" comparison = Some (speed matrix)
      /\ obj_get "cost" comparison = Some (cost matrix)
      /\ obj_get "developerExperience" comparison = Some (developerExperience matrix)
      /\ obj_get "scalability" comparison = Some (scalability matrix)
      /\ obj_get "maintainability" comparison = Some (maintainability matrix)
  | Failure e =>
      Route.missing_of labels comparison <> []
      /\ e = Route.missing_data_error labels content comparison
  end.

(** The result of part_000 when one of its guards stops it before any
    dimension is looked for. *)
Definition tape_guard (content tech1 tech2 : string) : option string :=
  if negb (JS.truthy content) then Some "Tale of the Tape content is not a valid string"
  else if Nat.eqb (String.length (JS.trim content)) 0
  then Some "Tale of the Tape content is empty"
  else if negb (JS.truthy tech1) || negb (JS.truthy tech2)
          || Nat.eqb (String.length (JS.trim tech1)) 0
          || Nat.eqb (String.length (JS.trim tech2)) 0
  then Some "Technology names are invalid for Tale of the Tape parsing"
  else None.

(** ** The hidden-tax template *)

(** The sentence of the prompt's template without its closing
    "in <timeframe>" clause. *)
Definition template_text (tech warning : string) : string :=
  "If you choose " ++ tech ++ ", be prepared to pay the tax of " ++ warning ++ ".".

(** The text begins with a character that is not white space. *)
Definition begins_with_text (s : string) : bool :=
  match s with
  | String a _ => negb (JS.is_space a)
  | EmptyString => false
  end.

Definition not_comma (c : ascii) : bool := negb (Ascii.eqb c ",").

Definition not_sentence_end (c : ascii) : bool :=
  negb (Ascii.eqb c "." || Ascii.eqb c "!" || Ascii.eqb c "?").

(** The text begins with the letters i and n, in either case, and a
    white-space character: what the patterns with an "in <timeframe>" clause
    look for. *)
Definition in_clause_here (s : string) : bool :=
  match s with
  | String a (String b (String c _)) =>
      (Ascii.eqb a "i" || Ascii.eqb a "I") && (Ascii.eqb b "n" || Ascii.eqb b "N")
      && JS.is_space c
  | _ => false
  end.

Fixpoint has_in_clause (s : string) : bool :=
  in_clause_here s ||
  match s with
  | String _ s' => has_in_clause s'
  | EmptyString => false
  end.

(** ** Where a section's content ends *)

(** The text begins with the marker of section [n]: three hash signs, white
    space if any, the digit [n] and a full stop. *)
Definition starts_marker (n : ascii) (s : string) : bool :=
  match s with
  | String "#" (String "#" (String "#" r)) =>
      match JS.ltrim r with
      | String d (String "." _) => Ascii.eqb d n
      | _ => false
      end
  | _ => false
  end.

(** The number of the section expected after the section [key]; none after
    the last one. *)
Definition next_number (key : string) : option ascii :=
  if String.eqb key "matchup" then Some "2"%char
  else if String.eqb key "taleOfTheTape" then Some "3"%char
  else if String.eqb key "verdicts" then Some "4"%char
  else if String.eqb key "hiddenTax" then Some "5"%char
  else None.

(** The content [c] of the section [key], followed in the reply by [after],
    ends where the marker of the next expected section begins, and at no
    marker of that section before; with no such marker further on, and for
    the last section, it ends with the reply. *)
Definition ends_at_next_expected (key c after : string) : Prop :=
  match next_number key with
  | Some n =>
      (after = EmptyString \/ starts_marker n after = true)
      /\ forall c1 c2, c = c1 ++ c2 -> c2 <> EmptyString ->
          starts_marker n (c2 ++ after) = false
  | None => after = EmptyString
  end.

(** The state of the matcher at position [i] of [text], and the attempt to
    match there. *)
Definition state_at (re : RegExp.t) (text : string) (i : nat) : RegExp.mstate :=
  RegExp.mkstate (match i with O => None | S j => String.get j text end)
                 (JS.drop i text) i (List.repeat None (RegExp.ngroups re)).

Definition match_at (re : RegExp.t) (text : string) (i : nat) : option RegExp.mstate :=
  RegExp.m (RegExp.ignoreCase re) (RegExp.ast re) (state_at re text i) Some.

(** The look-ahead for the marker of section [n]. *)
Definition marker_regex (n : ascii) : RegExp.regex :=
  RegExp.RSeq (RegExp.RChar "#") (RegExp.RSeq (RegExp.RChar "#")
    (RegExp.RSeq (RegExp.RChar "#")
       (RegExp.RSeq Matching.space_star
          (RegExp.RSeq (RegExp.RChar n) (RegExp.RChar "."))))).

Definition tail_of (key : string) : RegExp.regex :=
  match next_number key with
  | Some n => RegExp.RLook true (RegExp.RAlt (marker_regex n) RegExp.REol)
  | None => RegExp.REol
  end.

(** A section's text is not empty and carries no white space around it. *)
Definition trimmed_content (s : string) : Prop :=
  JS.truthy s = true /\ exists c, s = JS.trim c.

Definition five_contents (s : Sections) : Prop :=
  trimmed_content (s_matchup s) /\ trimmed_content (s_taleOfTheTape s)
  /\ trimmed_content (s_verdicts s) /\ trimmed_content (s_hiddenTax s)
  /\ trimmed_content (s_tieBreaker s).

(** The failure names one of the five sections. *)
Definition names_a_section (error text : string) : Prop :=
  exists key,
    In key ["matchup"; "taleOfTheTape"; "verdicts"; "hiddenTax"; "tieBreaker"]
    /\ error = missing_message key text.

(** ** Results that differ in the time stamp only *)

(** A failure with its [timestamp] replaced. *)
Definition restamp (now : string) (r : result ApiError RefereeAnalysis)
  : result ApiError RefereeAnalysis :=
  match r with
  | Success data => Success data
  | Failure e => Failure (mkApiError (code e) (message e) (details e) now)
  end.

Definition outcome_map {A B : Type} (f : A -> B) (c : outcome A) : outcome B :=
  match c with
  | Return a => Return (f a)
  | Throw e => Throw e
  end.

(** Two results of [parseLLMResponse] read at the clock values [now1] and
    [now2] agree: the same analysis, or failures with the same code, message
    and details, each stamped with its own reading of the clock. *)
Definition agree (now1 now2 : string) (r1 r2 : result ApiError RefereeAnalysis) : Prop :=
  match r1, r2 with
  | Success d1, Success d2 => d1 = d2
  | Failure e1, Failure e2 =>
      code e1 = code e2 /\ message e1 = message e2 /\ details e1 = details e2
      /\ timestamp e1 = now1 /\ timestamp e2 = now2
  | _, _ => False
  end.

(** ** Sections that differ in the matchup text only *)

Definition same_but_matchup (s1 s2 : Sections) : Prop :=
  s_taleOfTheTape s1 = s_taleOfTheTape s2 /\ s_verdicts s1 = s_verdicts s2
  /\ s_hiddenTax s1 = s_hiddenTax s2 /\ s_tieBreaker s1 = s_tieBreaker s2.

(** ** Histories of the rate limiter *)

(** A history is the list of the calls made, each with the client it comes
    from and the reading of the clock.  [admitted client calls map] counts
    the calls of [client] the limiter admits, started on [map]. *)
Fixpoint admitted (client : string) (calls : list (string * Z))
    (map : gmap string Route.RateEntry) : nat :=
  match calls with
  | [] => 0
  | (c, now) :: rest =>
      let '(ok, map') := Route.checkRateLimit now c map in
      (if ok && String.eqb c client then 1 else 0) + admitted client rest map'
  end.

(** Every call of [client] in the history is made at or before [deadline]. *)
Definition within (client : string) (deadline : Z) (calls : list (string * Z)) : Prop :=
  Forall (fun call => fst call = client -> (snd call <= deadline)%Z) calls.

(** No window of [client] is open at [now]: the limiter has no entry for
    the client, or the deadline of the entry has passed. *)
Definition no_open_window (client : string) (now : Z)
    (map : gmap string Route.RateEntry) : Prop :=
  match map !! client with
  | None => True
  | Some e => (Route.resetTime e < now)%Z
  end.

(** The answer of the handler to a client over the limit. *)
Definition too_many_requests (env : Route.Env) : Route.Response :=
  Route.mkResponse 429
    (Failure (mkApiError "RATE_LIMIT_EXCEEDED"
                "Too many requests. Please wait before trying again." None
                (Route.iso_now env))).

(** [n] calls of one client at the same instant. *)
Definition burst (client : string) (now : Z) (n : nat) : list (string * Z) :=
  List.repeat (client, now) n.

(** ** Inconclusive heuristics of the scenario parser *)

(** Neither name stands next to the positive word [word] in the text. *)
Definition neither_adjacent (contentLower t1 t2 word : string) : Prop :=
  JS.includes contentLower (JS.toLowerCase t1 ++ " " ++ word) = false
  /\ JS.includes contentLower (word ++ " " ++ JS.toLowerCase t1) = false
  /\ JS.includes contentLower (JS.toLowerCase t2 ++ " " ++ word) = false
  /\ JS.includes contentLower (word ++ " " ++ JS.toLowerCase t2) = false.

(** Verdicts whose first scenario names no winner in any recognised
    phrasing and mentions neither technology. *)
Definition undecided_verdicts : string :=
  JS.join (String "010"%char EmptyString)
    [ "**Scenario A (The 'Move Fast' Team):** Why? Shipping speed matters most here.";
      "**Scenario B (The 'Scale' Team):** Which wins? Rust wins. Why? Memory safety at scale.";
      "**Scenario C (The 'Budget' Team):** Which wins? Go wins. Why? Cheaper to staff a team." ].

(** ** A reply in the format the prompt asks for *)

Definition nl : string := String "010"%char EmptyString.

Definition lines (l : list string) : string := JS.join nl l.

Definition sample_tape : string :=
  lines [ "| Dimension | React | Vue |";
          "|---|---|---|";
          "| Speed | Fast renders | Faster first paint |";
          "| Cost | Free | Free |";
          "| Developer Experience | Huge ecosystem | Gentle learning curve |";
          "| Scalability | Proven at scale | Fine for most teams |";
          "| Maintainability | Frequent churn | Stable core |" ].

Definition sample_verdicts : string :=
  lines [ "**Scenario A (The 'Move Fast' Team):** Which wins? React wins. Why? More ready-made parts.";
          "**Scenario B (The 'Scale' Team):** Which wins? React wins. Why? More engineers know it.";
          "**Scenario C (The 'Budget' Team):** Which wins? Vue wins. Why? Less time spent on tooling." ].

Definition sample_hiddenTax : string :=
  "If you choose React, be prepared to pay the tax of decision fatigue in 6 months.".

Definition sample_reply : string :=
  lines [ "### 1. The Matchup"; "React vs Vue"; "";
          "### 2. The Tale of the Tape"; sample_tape; "";
          "### 3. The Verdicts"; sample_verdicts; "";
          "### 4. The Hidden Tax"; sample_hiddenTax; "";
          "### 5. The Tie-Breaker"; "Do you need to ship this quarter?" ].

Definition sample_analysis : RefereeAnalysis :=
  mkRefereeAnalysis
    (mkMatchup "React" "Vue")
    (mkComparisonMatrix
       (mkDescriptors "Fast renders" "Faster first paint")
       (mkDescriptors "Free" "Free")
       (mkDescriptors "Huge ecosystem" "Gentle learning curve")
       (mkDescriptors "Proven at scale" "Fine for most teams")
       (mkDescriptors "Frequent churn" "Stable core"))
    [ mkScenarioVerdict "Move Fast Team" "React wins." "More ready-made parts."
        "Move Fast Team scenario analysis";
      mkScenarioVerdict "Scale Team" "React wins." "More engineers know it."
        "Scale Team scenario analysis";
      mkScenarioVerdict "Budget Team" "Vue wins." "Less time spent on tooling."
        "Budget Team scenario analysis" ]
    (mkHiddenTax "React" "decision fatigue" "6 months"
       "decision fatigue expected in 6 months")
    "Do you need to ship this quarter?".

(** The sample reply with the heading of the first section written twice. *)
Definition repeated_heading_reply : string :=
  lines [ "### 1. The Matchup"; "React vs Vue";
          "### 1. The Matchup"; "Vue vs React"; "";
          "### 2. The Tale of the Tape"; sample_tape; "";
          "### 3. The Verdicts"; sample_verdicts; "";
          "### 4. The Hidden Tax"; sample_hiddenTax; "";
          "### 5. The Tie-Breaker"; "Do you need to ship this quarter?" ].

(** A tape written line by line, and the same tape with one line left out. *)
Definition tape_lines : list string :=
  [ "Speed: Fast | Faster";
    "Cost: Free | Paid";
    "Developer Experience: Good DX | Great DX";
    "Scalability: High | Medium";
    "Maintainability: low cost | high cost" ].

Fixpoint without {A : Type} (n : nat) (l : list A) : list A :=
  match n, l with
  | _, [] => []
  | O, _ :: t => t
  | S n', h :: t => h :: without n' t
  end.

(** The sample reply with its first section moved to the end, under a text
    of its own. *)
Definition reordered_reply : string :=
  lines [ "### 2. The Tale of the Tape"; sample_tape; "";
          "### 3. The Verdicts"; sample_verdicts; "";
          "### 4. The Hidden Tax"; sample_hiddenTax; "";
          "### 5. The Tie-Breaker"; "Do you need to ship this quarter?"; "";
          "### 1. The Matchup"; "An old rivalry." ].

(** The pattern of the first section in the extended revision, and what it
    finds in that reply. *)
Definition matchup_pattern : RegExp.t :=
  nth 0 (map snd Part000.patterns) (RegExp.literal "" "").

Definition repeated_heading_match : RegExp.match_array :=
  Eval vm_compute in
    match RegExp.exec matchup_pattern repeated_heading_reply with
    | Some ma => ma
    | None => RegExp.mkmatch "" [] 0
    end.

(* ===================================================================== *)
(** * Vocabulary of the handler, the limiter and the parsers *)
(* ===================================================================== *)

(** What the limiter answers to the request, and the map it leaves. *)
Definition limiter_answer (env : Route.Env) (request : Route.Request) (w : Route.World)
  : bool * gmap string Route.RateEntry :=
  Route.checkRateLimit (Route.date_now env) (Route.clientId_of request) (Route.rateLimitMap w).

(** The request passes the limiter and the checks made before the model is
    called, with the names [tech1] and [tech2] and the prompt [prompt]. *)
Definition reaches_model (env : Route.Env) (request : Route.Request) (w : Route.World)
    (tech1 tech2 prompt : string) : Prop :=
  fst (limiter_answer env request w) = true
  /\ Route.parseRequestBody env request = Success (tech1, tech2)
  /\ JS.trim (JS.toLowerCase tech1) <> JS.trim (JS.toLowerCase tech2)
  /\ Route.isValid (Route.createPromptPackage env tech1 tech2) = true
  /\ prompt = Route.userPrompt (Route.createPromptPackage env tech1 tech2).

(** The limiter's map after a history of calls. *)
Fixpoint limiter_after (calls : list (string * Z)) (map : gmap string Route.RateEntry)
  : gmap string Route.RateEntry :=
  match calls with
  | [] => map
  | (c, now) :: rest => limiter_after rest (snd (Route.checkRateLimit now c map))
  end.

(** Every entry of the map counts at least one and at most ten requests. *)
Definition counts_in_range (map : gmap string Route.RateEntry) : Prop :=
  forall c e, map !! c = Some e -> 1 <= Route.count e <= Route.RATE_LIMIT_MAX_REQUESTS.

(** The verdict [v] belongs to the scenario [scenario]. *)
Definition verdict_for (scenario : string) (v : ScenarioVerdict) : Prop :=
  name v = scenario /\ context v = scenario ++ " scenario analysis".

(** The three verdicts of the three scenarios, in the order of
    [scenarioNames]. *)
Definition three_verdicts (verdicts : list ScenarioVerdict) : Prop :=
  exists v1 v2 v3,
    verdicts = [v1; v2; v3]
    /\ verdict_for "Move Fast Team" v1
    /\ verdict_for "Scale Team" v2
    /\ verdict_for "Budget Team" v3.

(** The messages of the failures of [parseLLMResponse] in route.ts, and the
    two that part_000 adds. *)
Definition parsing_messages : list string :=
  [ "Failed to parse LLM response structure";
    "Failed to parse Tale of the Tape section";
    "Failed to parse Verdicts section";
    "Failed to parse Hidden Tax section";
    "Tie-breaker question is missing or empty";
    "Unexpected error parsing LLM response" ].

Definition guard_messages : list string :=
  [ "LLM response is empty or invalid"; "Technology names are invalid" ].

(** What every analysis returned has: the two names given, the three
    verdicts, a hidden tax whose impact is made of its warning and its
    timeframe, and a tie-breaker that is not empty. *)
Definition complete_analysis (tech1 tech2 : string) (a : RefereeAnalysis) : Prop :=
  matchup a = mkMatchup tech1 tech2
  /\ three_verdicts (scenarios a)
  /\ impact (hiddenTax a)
     = warning (hiddenTax a) ++ " expected in " ++ timeframe (hiddenTax a)
  /\ tieBreaker a <> EmptyString.

(** A world for the examples: a clock, a model that answers [reply] or
    raises [error], and a prompt package that accepts every pair. *)
Definition example_env (answer : outcome string) : Route.Env :=
  Route.mkEnv 1000 "2024-01-01T00:00:00.000Z" "production"
    (fun _ => answer)
    (fun tech1 tech2 => Route.mkPromptPackage true [] (tech1 ++ " vs " ++ tech2)).

Definition example_request (tech1 tech2 : string) : Route.Request :=
  Route.mkRequest (fun _ => None)
    (Return (Route.JObject [("tech1", Route.JString tech1); ("tech2", Route.JString tech2)])).

Definition empty_world : Route.World := Route.mkWorld ∅ [].

(** A tape whose table has the rows of two dimensions, one of them in bold
    type, and two more dimensions written as lines. *)
Definition mixed_tape : string :=
  lines [ "| Dimension | React | Vue |";
          "|---|---|---|";
          "| Speed | **Fast** | Faster |";
          "| Developer Experience | **Good** | Great |";
          "Cost: Free | Paid";
          "Scalability: High | Medium" ].

(** The 256 characters. *)
Definition all_ascii : list ascii := map ascii_of_nat (seq 0 256).

(** Every match of the pattern consumes at least one character, and the
    first character it consumes satisfies [p]: a sufficient test, made on
    the atoms the pattern can begin with. *)
Fixpoint begins_with (ic : bool) (p : ascii -> bool) (r : RegExp.regex) : bool :=
  match r with
  | RegExp.RChar c => forallb (fun a => implb (RegExp.char_eqb ic c a) (p a)) all_ascii
  | RegExp.RDot => forallb (fun a => implb (negb (JS.is_line_terminator a)) (p a)) all_ascii
  | RegExp.RClass neg items =>
      forallb (fun a => implb (RegExp.class_match ic neg items a) (p a)) all_ascii
  | RegExp.RSeq r1 _ => begins_with ic p r1
  | RegExp.RAlt r1 r2 => begins_with ic p r1 && begins_with ic p r2
  | RegExp.RQuant (S _) None _ r' => begins_with ic p r'
  | RegExp.RQuant (S _) (Some (S _)) _ r' => begins_with ic p r'
  | RegExp.RGroup _ r' => begins_with ic p r'
  | _ => false
  end.

Definition not_space (a : ascii) : bool := negb (JS.is_space a).

(** The texts of the request that the handler reads, the fields tech1 and
    tech2 of its body, are ASCII. *)
Definition ascii_field (key : string) (body : Route.json) : bool :=
  match Route.string_field key body with
  | Some v => JS.is_ascii v
  | None => true
  end.

Definition ascii_request (request : Route.Request) : bool :=
  match Route.request_json request with
  | Return body => ascii_field "tech1" body && ascii_field "tech2" body
  | Throw _ => true
  end.


(** The characters the handler admits in a technology name
    ([/^[a-zA-Z0-9\s.\-+#]+$/] in parseRequestBody), white space being
    the ASCII white space. *)
Definition name_char (a : ascii) : bool :=
  let n := JS.char_code a in
  ((97 <=? n) && (n <=? 122) || (65 <=? n) && (n <=? 90) || (48 <=? n) && (n <=? 57))%N
  || JS.is_space a
  || (n =? 46)%N || (n =? 45)%N || (n =? 43)%N || (n =? 35)%N.

(* ===================================================================== *)
(** * Exceptions never leave a stage *)
(* ===================================================================== *)

Section Catch.
Context {A : Type}.

(** A [try] whose [catch] block only returns a value returns a value. *)
Lemma try_catch_returns (body : outcome A) (handler : exn -> A) :
  exists a, try_catch body (fun e => Return (handler e)) = Return a.
Proof. destruct body as [a|e]; simpl; eauto. Qed.

Lemma try_catch_return_inv (body : outcome A) (handler : exn -> outcome A) (a : A) :
  try_catch body handler = Return a ->
  body = Return a \/ exists e, body = Throw e /\ handler e = Return a.
Proof. destruct body as [b|e]; simpl; intros H; [left; exact H | right; eauto]. Qed.

Lemma bind_return_inv {B : Type} (c : outcome B) (f : B -> outcome A) (a : A) :
  bind c f = Return a -> exists b, c = Return b /\ f b = Return a.
Proof. destruct c as [b|e]; simpl; intros H; [eauto | discriminate]. Qed.
End Catch.

Lemma Route_extractSections_returns response :
  exists r, Route.extractSections response = Return r.
Proof. apply try_catch_returns. Qed.

Lemma Route_parseTaleOfTheTape_returns content t1 t2 :
  exists r, Route.parseTaleOfTheTape content t1 t2 = Return r.
Proof. apply try_catch_returns. Qed.

Lemma Route_parseScenarios_returns content :
  exists r, Route.parseScenarios content = Return r.
Proof. apply try_catch_returns. Qed.

Lemma Route_parseHiddenTax_returns content :
  exists r, Route.parseHiddenTax content = Return r.
Proof. apply try_catch_returns. Qed.

Lemma Part000_extractSections_returns response :
  exists r, Part000.extractSections response = Return r.
Proof. apply try_catch_returns. Qed.

Lemma Part000_parseTaleOfTheTape_returns content t1 t2 :
  exists r, Part000.parseTaleOfTheTape content t1 t2 = Return r.
Proof. apply try_catch_returns. Qed.

Lemma Part000_parseScenarios_returns content t1 t2 :
  exists r, Part000.parseScenarios content t1 t2 = Return r.
Proof. apply try_catch_returns. Qed.

Lemma Part000_parseHiddenTax_returns content :
  exists r, Part000.parseHiddenTax content = Return r.
Proof. apply try_catch_returns. Qed.

(** The technology name C++ is not a well-formed pattern: building the
    expression that counts its mentions throws. *)
Example create_cpp_throws :
  RegExp.create "c++" "g"
  = Throw (SyntaxError "Invalid regular expression: /c++/g: Nothing to repeat").
Proof. vm_compute. reflexivity. Qed.

Lemma Route_parseLLMResponse_returns now response t1 t2 :
  exists r, Route.parseLLMResponse now response t1 t2 = Return r.
Proof. unfold Route.parseLLMResponse. apply try_catch_returns. Qed.

Lemma Part000_parseLLMResponse_returns now response t1 t2 :
  exists r, Part000.parseLLMResponse now response t1 t2 = Return r.
Proof.
  unfold Part000.parseLLMResponse.
  destruct (negb (JS.truthy response) || _); [eauto|].
  destruct (negb (JS.truthy t1) || _ || _ || _); [eauto|].
  apply try_catch_returns.
Qed.

(** C7. [parseLLMResponse] is total: for every reply and every pair of
    technology names, in both revisions of the handler, it returns a success
    or a failure value; no exception leaves it, whatever the stages inside
    throw (a name such as C++ makes [new RegExp] throw inside
    [parseScenarios]). *)
Theorem parseLLMResponse_total (now response tech1 tech2 : string) :
  (exists r, Route.parseLLMResponse now response tech1 tech2 = Return r)
  /\ (exists r, Part000.parseLLMResponse now response tech1 tech2 = Return r).
Proof.
  split.
  - apply Route_parseLLMResponse_returns.
  - apply Part000_parseLLMResponse_returns.
Qed.

(* ===================================================================== *)
(** * The clock in the result of [parseLLMResponse] *)
(* ===================================================================== *)

Lemma outcome_map_bind {A B C : Type} (f : B -> C) (c : outcome A) (k : A -> outcome B) :
  outcome_map f (bind c k) = bind c (fun a => outcome_map f (k a)).
Proof. destruct c; reflexivity. Qed.

Lemma Route_assemble_restamp now now' sections t1 t2 :
  Route.assemble now sections t1 t2
  = outcome_map (restamp now) (Route.assemble now' sections t1 t2).
Proof.
  unfold Route.assemble.
  generalize (Route.parseTaleOfTheTape (s_taleOfTheTape sections) t1 t2).
  generalize (Route.parseScenarios (s_verdicts sections)).
  generalize (Route.parseHiddenTax (s_hiddenTax sections)).
  intros [[tax|e3]|e3] [[vs|e2]|e2] [[tape|e1]|e1]; cbn [bind outcome_map restamp];
    try reflexivity.
  destruct (negb (JS.truthy (JS.trim (s_tieBreaker sections)))); reflexivity.
Qed.

Lemma Route_parse_restamp now now' response t1 t2 :
  Route.parseLLMResponse now response t1 t2
  = outcome_map (restamp now) (Route.parseLLMResponse now' response t1 t2).
Proof.
  unfold Route.parseLLMResponse.
  destruct (Route.extractSections response) as [[s|e]|e]; simpl; try reflexivity.
  rewrite (Route_assemble_restamp now now').
  destruct (Route.assemble now' s t1 t2); reflexivity.
Qed.

Lemma Part000_assemble_restamp now now' sections t1 t2 :
  Part000.assemble now sections t1 t2
  = outcome_map (restamp now) (Part000.assemble now' sections t1 t2).
Proof.
  unfold Part000.assemble.
  generalize (Part000.parseTaleOfTheTape (s_taleOfTheTape sections) t1 t2).
  generalize (Part000.parseScenarios (s_verdicts sections) t1 t2).
  generalize (Part000.parseHiddenTax (s_hiddenTax sections)).
  intros [[tax|e3]|e3] [[vs|e2]|e2] [[tape|e1]|e1]; cbn [bind outcome_map restamp];
    try reflexivity.
  destruct (negb (JS.truthy (JS.trim (s_tieBreaker sections)))); reflexivity.
Qed.

Lemma Part000_parse_restamp now now' response t1 t2 :
  Part000.parseLLMResponse now response t1 t2
  = outcome_map (restamp now) (Part000.parseLLMResponse now' response t1 t2).
Proof.
  unfold Part000.parseLLMResponse.
  destruct (negb (JS.truthy response) || _); [reflexivity|].
  destruct (negb (JS.truthy t1) || _ || _ || _); [reflexivity|].
  destruct (Part000.extractSections response) as [[s|e]|e]; simpl; try reflexivity.
  rewrite (Part000_assemble_restamp now now').
  destruct (Part000.assemble now' s t1 t2); reflexivity.
Qed.

Lemma restamp_agree now1 now2 r :
  (forall e, r = Failure e -> timestamp e = now2) ->
  agree now1 now2 (restamp now1 r) r.
Proof.
  destruct r as [d|e]; simpl; [reflexivity|].
  intros H. repeat split; auto.
Qed.

Lemma Route_failure_timestamp now response t1 t2 e :
  Route.parseLLMResponse now response t1 t2 = Return (Failure e) -> timestamp e = now.
Proof.
  rewrite (Route_parse_restamp now now).
  destruct (Route.parseLLMResponse now response t1 t2) as [[d|e']|x]; simpl;
    intros H; inversion H; reflexivity.
Qed.

Lemma Part000_failure_timestamp now response t1 t2 e :
  Part000.parseLLMResponse now response t1 t2 = Return (Failure e) -> timestamp e = now.
Proof.
  rewrite (Part000_parse_restamp now now).
  destruct (Part000.parseLLMResponse now response t1 t2) as [[d|e']|x]; simpl;
    intros H; inversion H; reflexivity.
Qed.

(** C2, as stated, fails: the failure value carries the time of the call.
    The same reply and names parsed at two readings of the clock give two
    different failure values, in both revisions. *)
Lemma parseLLMResponse_result_depends_on_clock :
  Route.parseLLMResponse "2024-01-01T00:00:00.000Z" "no headings" "React" "Vue"
  <> Route.parseLLMResponse "2024-01-01T00:00:01.000Z" "no headings" "React" "Vue"
  /\ Part000.parseLLMResponse "2024-01-01T00:00:00.000Z" "no headings" "React" "Vue"
     <> Part000.parseLLMResponse "2024-01-01T00:00:01.000Z" "no headings" "React" "Vue".
Proof. split; vm_compute; intros H; discriminate H. Qed.

(** C2, amended.  [parseLLMResponse] is deterministic up to the time stamp:
    for every reply and pair of names, two calls made at the clock readings
    [now1] and [now2] both return, and they return the same analysis or
    failures with the same code, message and details; the [timestamp] of a
    failure is the reading of the clock of its own call. *)
Theorem parseLLMResponse_deterministic_up_to_timestamp
    (now1 now2 response tech1 tech2 : string) :
  (exists r1 r2,
      Route.parseLLMResponse now1 response tech1 tech2 = Return r1
      /\ Route.parseLLMResponse now2 response tech1 tech2 = Return r2
      /\ agree now1 now2 r1 r2)
  /\ (exists r1 r2,
      Part000.parseLLMResponse now1 response tech1 tech2 = Return r1
      /\ Part000.parseLLMResponse now2 response tech1 tech2 = Return r2
      /\ agree now1 now2 r1 r2).
Proof.
  split.
  - destruct (Route_parseLLMResponse_returns now2 response tech1 tech2) as [r2 H2].
    exists (restamp now1 r2), r2. repeat split; auto.
    + rewrite (Route_parse_restamp now1 now2), H2. reflexivity.
    + apply restamp_agree. intros e ->.
      eapply Route_failure_timestamp; eauto.
  - destruct (Part000_parseLLMResponse_returns now2 response tech1 tech2) as [r2 H2].
    exists (restamp now1 r2), r2. repeat split; auto.
    + rewrite (Part000_parse_restamp now1 now2), H2. reflexivity.
    + apply restamp_agree. intros e ->.
      eapply Part000_failure_timestamp; eauto.
Qed.

(* ===================================================================== *)
(** * The matchup of the result *)
(* ===================================================================== *)

Lemma Route_assemble_matchup now s t1 t2 data :
  Route.assemble now s t1 t2 = Return (Success data) ->
  matchup data = mkMatchup t1 t2.
Proof.
  unfold Route.assemble.
  generalize (Route.parseTaleOfTheTape (s_taleOfTheTape s) t1 t2).
  generalize (Route.parseScenarios (s_verdicts s)).
  generalize (Route.parseHiddenTax (s_hiddenTax s)).
  intros [[tax|e3]|e3] [[vs|e2]|e2] [[tape|e1]|e1]; cbn [bind]; try discriminate.
  destruct (negb (JS.truthy (JS.trim (s_tieBreaker s)))); intros H; inversion H. reflexivity.
Qed.

Lemma Part000_assemble_matchup now s t1 t2 data :
  Part000.assemble now s t1 t2 = Return (Success data) ->
  matchup data = mkMatchup t1 t2.
Proof.
  unfold Part000.assemble.
  generalize (Part000.parseTaleOfTheTape (s_taleOfTheTape s) t1 t2).
  generalize (Part000.parseScenarios (s_verdicts s) t1 t2).
  generalize (Part000.parseHiddenTax (s_hiddenTax s)).
  intros [[tax|e3]|e3] [[vs|e2]|e2] [[tape|e1]|e1]; cbn [bind]; try discriminate.
  destruct (negb (JS.truthy (JS.trim (s_tieBreaker s)))); intros H; inversion H. reflexivity.
Qed.

Lemma Route_parse_success_inv now response t1 t2 data :
  Route.parseLLMResponse now response t1 t2 = Return (Success data) ->
  exists s, Route.extractSections response = Return (Success s)
            /\ Route.assemble now s t1 t2 = Return (Success data).
Proof.
  unfold Route.parseLLMResponse.
  destruct (Route.extractSections response) as [[s|e]|e]; simpl; try discriminate.
  intros H. exists s. split; [reflexivity|].
  destruct (Route.assemble now s t1 t2) as [r|x]; simpl in H; [exact H | discriminate].
Qed.

Lemma Part000_parse_success_inv now response t1 t2 data :
  Part000.parseLLMResponse now response t1 t2 = Return (Success data) ->
  exists s, Part000.extractSections response = Return (Success s)
            /\ Part000.assemble now s t1 t2 = Return (Success data).
Proof.
  unfold Part000.parseLLMResponse.
  destruct (negb (JS.truthy response) || _); [discriminate|].
  destruct (negb (JS.truthy t1) || _ || _ || _); [discriminate|].
  destruct (Part000.extractSections response) as [[s|e]|e]; simpl; try discriminate.
  intros H. exists s. split; [reflexivity|].
  destruct (Part000.assemble now s t1 t2) as [r|x]; simpl in H; [exact H | discriminate].
Qed.

Example sample_reply_parses :
  Route.parseLLMResponse "2024-01-01T00:00:00.000Z" sample_reply "React" "Vue"
  = Return (Success sample_analysis)
  /\ Part000.parseLLMResponse "2024-01-01T00:00:00.000Z" sample_reply "React" "Vue"
     = Return (Success sample_analysis).
Proof. split; vm_compute; reflexivity. Qed.

Lemma Route_assemble_same_but_matchup now s s' t1 t2 :
  same_but_matchup s s' ->
  Route.assemble now s t1 t2 = Route.assemble now s' t1 t2.
Proof.
  destruct s, s'. unfold same_but_matchup. cbn. intros (-> & -> & -> & ->). reflexivity.
Qed.

Lemma Part000_assemble_same_but_matchup now s s' t1 t2 :
  same_but_matchup s s' ->
  Part000.assemble now s t1 t2 = Part000.assemble now s' t1 t2.
Proof.
  destruct s, s'. unfold same_but_matchup. cbn. intros (-> & -> & -> & ->). reflexivity.
Qed.

Lemma Route_parse_same_but_matchup now response response' s s' t1 t2 data :
  Route.parseLLMResponse now response t1 t2 = Return (Success data) ->
  Route.extractSections response = Return (Success s) ->
  Route.extractSections response' = Return (Success s') ->
  same_but_matchup s s' ->
  Route.parseLLMResponse now response' t1 t2 = Return (Success data).
Proof.
  intros H Hs Hs' Hsame.
  apply Route_parse_success_inv in H as (s0 & Hs0 & Ha).
  rewrite Hs in Hs0. injection Hs0 as <-.
  unfold Route.parseLLMResponse. rewrite Hs'. cbn [bind].
  rewrite <- (Route_assemble_same_but_matchup now s s' t1 t2 Hsame), Ha. reflexivity.
Qed.

Lemma Part000_parse_same_but_matchup now response response' s s' t1 t2 data :
  Part000.parseLLMResponse now response t1 t2 = Return (Success data) ->
  Part000.extractSections response = Return (Success s) ->
  Part000.extractSections response' = Return (Success s') ->
  same_but_matchup s s' ->
  Part000.parseLLMResponse now response' t1 t2 = Return (Success data).
Proof.
  intros H Hs Hs' Hsame.
  assert (Hnames : negb (JS.truthy t1) || negb (JS.truthy t2)
                   || Nat.eqb (String.length (JS.trim t1)) 0
                   || Nat.eqb (String.length (JS.trim t2)) 0 = false).
  { unfold Part000.parseLLMResponse in H.
    destruct (negb (JS.truthy response) || _); [discriminate|].
    destruct (negb (JS.truthy t1) || _ || _ || _); [discriminate | reflexivity]. }
  assert (Hreply : negb (JS.truthy response')
                   || Nat.eqb (String.length (JS.trim response')) 0 = false).
  { unfold Part000.extractSections in Hs'.
    destruct (negb (JS.truthy response')); [discriminate|].
    destruct (Nat.eqb (String.length (JS.trim response')) 0); [discriminate | reflexivity]. }
  apply Part000_parse_success_inv in H as (s0 & Hs0 & Ha).
  rewrite Hs in Hs0. injection Hs0 as <-.
  unfold Part000.parseLLMResponse. rewrite Hreply, Hnames, Hs'. cbn [bind].
  rewrite <- (Part000_assemble_same_but_matchup now s s' t1 t2 Hsame), Ha. reflexivity.
Qed.

(** C10, as stated, fails in its second half.  The five patterns are
    matched one by one on the whole reply, and the capture of the
    tie-breaker runs to the end of the reply: when the heading of the first
    section stands after the heading of the fifth, the text captured for
    the matchup lies inside the tie-breaker of the result, in both
    revisions. *)
Lemma matchup_text_reaches_the_tie_breaker :
  (exists s a,
     Route.extractSections reordered_reply = Return (Success s)
     /\ s_matchup s = "An old rivalry."
     /\ Route.parseLLMResponse "2024-01-01T00:00:00.000Z" reordered_reply "React" "Vue"
        = Return (Success a)
     /\ JS.includes (tieBreaker a) (s_matchup s) = true)
  /\ (exists s a,
        Part000.extractSections reordered_reply = Return (Success s)
        /\ s_matchup s = "An old rivalry."
        /\ Part000.parseLLMResponse "2024-01-01T00:00:00.000Z" reordered_reply "React" "Vue"
           = Return (Success a)
        /\ JS.includes (tieBreaker a) (s_matchup s) = true).
Proof.
  split; eexists; eexists; (split; [vm_compute; reflexivity|]);
    (split; [reflexivity|]); (split; [vm_compute; reflexivity|]); vm_compute; reflexivity.
Qed.

(** C10, amended.  On every successful parse, in both revisions, the
    [matchup] of the result is the pair of names the caller supplied, and
    the text captured for the matchup section is not read after section
    extraction: every reply from which the same tale of the tape, verdicts,
    hidden tax and tie-breaker are extracted parses to the same result,
    whatever is extracted for its matchup.  (The same piece of
    the reply can still lie inside the capture of another section; the
    result shows it then as part of that section.) *)
Theorem matchup_is_the_supplied_names (now response tech1 tech2 : string)
    (data : RefereeAnalysis) :
  (Route.parseLLMResponse now response tech1 tech2 = Return (Success data) ->
   matchup data = mkMatchup tech1 tech2
   /\ forall response' s s',
        Route.extractSections response = Return (Success s) ->
        Route.extractSections response' = Return (Success s') ->
        same_but_matchup s s' ->
        Route.parseLLMResponse now response' tech1 tech2 = Return (Success data))
  /\ (Part000.parseLLMResponse now response tech1 tech2 = Return (Success data) ->
      matchup data = mkMatchup tech1 tech2
      /\ forall response' s s',
           Part000.extractSections response = Return (Success s) ->
           Part000.extractSections response' = Return (Success s') ->
           same_but_matchup s s' ->
           Part000.parseLLMResponse now response' tech1 tech2 = Return (Success data)).
Proof.
  split; intros H.
  - pose proof H as Hparsed.
    apply Route_parse_success_inv in H as (s & Hs & Ha). split.
    + eapply Route_assemble_matchup; eauto.
    + intros response' s1 s2 H1 H2 Hsame.
      apply (Route_parse_same_but_matchup now response response' s1 s2); assumption.
  - pose proof H as Hparsed.
    apply Part000_parse_success_inv in H as (s & Hs & Ha). split.
    + eapply Part000_assemble_matchup; eauto.
    + intros response' s1 s2 H1 H2 Hsame.
      apply (Part000_parse_same_but_matchup now response response' s1 s2); assumption.
Qed.

Lemma matchup_is_the_supplied_names_witness :
  Route.parseLLMResponse "2024-01-01T00:00:00.000Z" sample_reply "React" "Vue"
  = Return (Success sample_analysis)
  /\ Part000.parseLLMResponse "2024-01-01T00:00:00.000Z" sample_reply "React" "Vue"
     = Return (Success sample_analysis)
  /\ matchup sample_analysis = mkMatchup "React" "Vue".
Proof.
  destruct sample_reply_parses as [H1 H2].
  split; [exact H1|]. split; [exact H2|].
  exact (proj1 (proj2 (matchup_is_the_supplied_names _ _ _ _ _) H2)).
Defined.

(* ===================================================================== *)
(** * The rate limiter *)
(* ===================================================================== *)

Section RateLimiter.
Import Route.

Implicit Types (map : gmap string RateEntry) (calls : list (string * Z)).

(** A call of another client leaves the entry of [client] alone. *)
Lemma checkRateLimit_other now c client map :
  c <> client ->
  snd (checkRateLimit now c map) !! client = map !! client.
Proof.
  intros Hne. unfold checkRateLimit.
  destruct (map !! c) as [e|]; [|cbn [snd]; apply lookup_insert_ne; assumption].
  destruct (resetTime e <? now)%Z; [cbn [snd]; apply lookup_insert_ne; assumption|].
  destruct (Nat.leb RATE_LIMIT_MAX_REQUESTS (count e)); cbn [snd];
    [reflexivity | apply lookup_insert_ne; assumption].
Qed.

(** Inside an open window the limiter admits what is left of the ten. *)
Lemma admitted_in_window client calls : forall map e,
  map !! client = Some e ->
  within client (resetTime e) calls ->
  admitted client calls map <= RATE_LIMIT_MAX_REQUESTS - count e.
Proof.
  induction calls as [|[c now] rest IH]; intros map e He Hw; simpl; [lia|].
  inversion Hw as [|? ? Hnow Hrest]; subst. simpl in Hnow.
  destruct (String.eqb_spec c client) as [->|Hne].
  - specialize (Hnow eq_refl).
    unfold checkRateLimit. rewrite He.
    destruct (Z.ltb_spec (resetTime e) now) as [Hlt|_]; [lia|].
    destruct (Nat.leb_spec RATE_LIMIT_MAX_REQUESTS (count e)) as [Hfull|Hroom]; simpl.
    + specialize (IH map e He Hrest). lia.
    + specialize (IH (<[client := mkRateEntry (S (count e)) (resetTime e)]> map)
                     (mkRateEntry (S (count e)) (resetTime e))).
      rewrite lookup_insert_eq in IH. specialize (IH eq_refl Hrest).
      unfold RATE_LIMIT_MAX_REQUESTS in *.
      simpl in *. lia.
  - pose proof (checkRateLimit_other now c client map Hne) as Hother.
    destruct (checkRateLimit now c map) as [ok map'] eqn:Hc. simpl in Hother.
    rewrite andb_false_r. simpl.
    apply (IH map' e); [congruence | assumption].
Qed.

(** The first admitted request of a window sets the count to one and the
    deadline one window later. *)
Lemma checkRateLimit_opens now client map :
  no_open_window client now map ->
  checkRateLimit now client map
  = (true, <[client := mkRateEntry 1 (now + RATE_LIMIT_WINDOW)]> map).
Proof.
  unfold no_open_window, checkRateLimit.
  destruct (map !! client) as [e|]; intros H; [|reflexivity].
  destruct (Z.ltb_spec (resetTime e) now); [reflexivity | lia].
Qed.

Lemma POST_rate_limited env request w e :
  rateLimitMap w !! clientId_of request = Some e ->
  RATE_LIMIT_MAX_REQUESTS <= count e ->
  (date_now env <= resetTime e)%Z ->
  POST env request w = (too_many_requests env, w).
Proof.
  intros He Hfull Hopen. unfold POST, checkRateLimit. rewrite He.
  destruct (Z.ltb_spec (resetTime e) (date_now env)) as [Hlt|_]; [lia|].
  destruct (Nat.leb_spec RATE_LIMIT_MAX_REQUESTS (count e)) as [_|Hroom]; [|lia].
  simpl. destruct w; reflexivity.
Qed.
End RateLimiter.

(** C9. For every client, the limiter admits at most ten calls in the
    window that begins at the client's first admitted request and lasts
    60 seconds, whatever other clients do in between; and once the count of a
    client has reached ten and the window has not expired, the POST handler
    answers RATE_LIMIT_EXCEEDED with status 429 and leaves the state as it
    was: no prompt is sent to the model and nothing is parsed (the answer
    depends neither on the body of the request nor on the model). *)
Theorem rate_limit_window (client : string) (map : gmap string Route.RateEntry)
    (t0 : Z) (calls : list (string * Z))
    (Hfirst : no_open_window client t0 map)
    (Hwithin : within client (t0 + Route.RATE_LIMIT_WINDOW) calls) :
  admitted client ((client, t0) :: calls) map <= 10
  /\ forall env request w e,
       Route.clientId_of request = client ->
       Route.rateLimitMap w !! client = Some e ->
       10 <= Route.count e ->
       (Route.date_now env <= Route.resetTime e)%Z ->
       Route.POST env request w = (too_many_requests env, w).
Proof.
  split.
  - simpl. rewrite checkRateLimit_opens by assumption.
    rewrite String.eqb_refl. simpl.
    pose proof (admitted_in_window client calls
                  (<[client := Route.mkRateEntry 1 (t0 + Route.RATE_LIMIT_WINDOW)]> map)
                  (Route.mkRateEntry 1 (t0 + Route.RATE_LIMIT_WINDOW))) as H.
    rewrite lookup_insert_eq in H. specialize (H eq_refl Hwithin).
    simpl in H. unfold Route.RATE_LIMIT_MAX_REQUESTS in H. lia.
  - intros env request w e <- He Hfull Hopen.
    apply (POST_rate_limited env request w e); assumption.
Qed.

(** The ten calls of a window are indeed admitted: the bound is reached. *)
Example ten_admitted_then_refused :
  admitted "203.0.113.7" (burst "203.0.113.7" 1000 25) ∅ = 10.
Proof. vm_compute. reflexivity. Qed.

Lemma rate_limit_window_witness :
  no_open_window "203.0.113.7" 1000 ∅
  /\ within "203.0.113.7" (1000 + Route.RATE_LIMIT_WINDOW)
       (("198.51.100.2", 90000%Z) :: burst "203.0.113.7" 61000 14)
  /\ admitted "203.0.113.7"
       (("203.0.113.7", 1000%Z) :: ("198.51.100.2", 90000%Z) :: burst "203.0.113.7" 61000 14)
       ∅ <= 10.
Proof.
  assert (H1 : no_open_window "203.0.113.7" 1000 ∅) by (vm_compute; exact I).
  assert (H2 : within "203.0.113.7" (1000 + Route.RATE_LIMIT_WINDOW)
                 (("198.51.100.2", 90000%Z) :: burst "203.0.113.7" 61000 14)).
  { unfold within, burst. simpl. repeat constructor; simpl; intros; try lia; discriminate. }
  split; [exact H1|]. split; [exact H2|].
  exact (proj1 (rate_limit_window _ _ _ _ H1 H2)).
Defined.

(* ===================================================================== *)
(** * The scenario parser: the default winner *)
(* ===================================================================== *)

Section PatternLoops.
Variable accept : option RegExp.match_array -> bool.

(** The loop over a list of patterns ends on a match the test accepts
    exactly when some pattern yields one. *)
Lemma loop_match_rejects patterns content : forall last,
  accept last = false ->
  Forall (fun p => accept (RegExp.exec p content) = false) patterns ->
  accept (loop_match accept patterns content last) = false.
Proof.
  induction patterns as [|p rest IH]; intros last Hlast Hall; simpl; [exact Hlast|].
  inversion Hall as [|? ? Hp Hrest]; subst.
  rewrite Hp. apply IH; assumption.
Qed.

Lemma loop_match_accepts patterns content : forall last,
  Exists (fun p => accept (RegExp.exec p content) = true) patterns ->
  accept (loop_match accept patterns content last) = true.
Proof.
  induction patterns as [|p rest IH]; intros last Hex; simpl; inversion Hex; subst.
  - rewrite H0. assumption.
  - destruct (accept (RegExp.exec p content)) eqn:Hp; [exact Hp | apply IH; assumption].
Qed.
End PatternLoops.

Lemma truthy_nonempty s : s <> EmptyString -> JS.truthy s = true.
Proof. destruct s; [congruence | reflexivity]. Qed.

Lemma truthy_false s : JS.truthy s = false -> s = EmptyString.
Proof. destruct s; [reflexivity | discriminate]. Qed.

(** The positive-word loop decides nothing when no word stands next to a
    name. *)
Lemma positive_context_none contentLower t1 t2 words :
  Forall (fun word => neither_adjacent contentLower t1 t2 word) words ->
  Part000.positive_context contentLower t1 t2 words = EmptyString.
Proof.
  induction 1 as [|word rest Hw _ IH]; simpl; [reflexivity|].
  destruct Hw as (H1 & H2 & H3 & H4). rewrite H1, H2, H3, H4. simpl. exact IH.
Qed.

(** The three verdicts of a successful parse are the results of the loop
    body for the three scenario names, in order. *)
Lemma Part000_parseScenarios_success_inv content t1 t2 vs :
  Part000.parseScenarios content t1 t2 = Return (Success vs) ->
  JS.trim content <> EmptyString
  /\ exists v1 v2 v3,
      vs = [v1; v2; v3]
      /\ Part000.scenario_step (JS.trim content) t1 t2 "Move Fast Team" = Return (Success v1)
      /\ Part000.scenario_step (JS.trim content) t1 t2 "Scale Team" = Return (Success v2)
      /\ Part000.scenario_step (JS.trim content) t1 t2 "Budget Team" = Return (Success v3).
Proof.
  unfold Part000.parseScenarios.
  destruct (negb (JS.truthy content)); [discriminate|].
  destruct (Nat.eqb_spec (String.length (JS.trim content)) 0) as [|Hlen]; [discriminate|].
  unfold Route.scenarioNames. cbn [Part000.scenario_loop].
  generalize (Part000.scenario_step (JS.trim content) t1 t2 "Move Fast Team").
  generalize (Part000.scenario_step (JS.trim content) t1 t2 "Scale Team").
  generalize (Part000.scenario_step (JS.trim content) t1 t2 "Budget Team").
  intros [[v3|e3]|e3] [[v2|e2]|e2] [[v1|e1]|e1]; cbn [bind app]; try discriminate.
  unfold Route.check_count. cbn [List.length Nat.eqb negb].
  intros H. inversion H; subst. split.
  - intros Hempty. rewrite Hempty in Hlen. apply Hlen. reflexivity.
  - exists v1, v2, v3. repeat split; reflexivity.
Qed.

(** The verdict of a located scenario whose text has no winner phrasing and
    on which the heuristics decide nothing. *)
Lemma Part000_verdict_default scenario sc t1 t2 n :
  Forall (fun p => Part000.winner_accept (RegExp.exec p sc) = false) Part000.winnerPatterns ->
  t1 <> EmptyString -> t2 <> EmptyString ->
  Forall (neither_adjacent (JS.toLowerCase sc) t1 t2) Part000.positiveWords ->
  Part000.mentions (JS.toLowerCase sc) (JS.toLowerCase t1) = Return n ->
  Part000.mentions (JS.toLowerCase sc) (JS.toLowerCase t2) = Return n ->
  Part000.first_mention sc (JS.toLowerCase t1) (JS.toLowerCase t2) = Return None ->
  exists v, Part000.verdict_of scenario sc t1 t2 = Return (Success v)
            /\ winner v = JS.trim t1 /\ name v = scenario.
Proof.
  intros Hw Ht1 Ht2 Hctx Hm1 Hm2 Hnone.
  unfold Part000.verdict_of.
  pose proof (loop_match_rejects Part000.winner_accept Part000.winnerPatterns sc None
                eq_refl Hw) as Hrej.
  unfold Part000.winner_accept in Hrej at 1.
  set (wm := loop_match Part000.winner_accept Part000.winnerPatterns sc None) in *.
  assert (Hcond : negb (has 1 wm) || Nat.eqb (String.length (JS.trim (cap 1 wm))) 0 = true).
  { destruct (has 1 wm); simpl in *; [|reflexivity].
    destruct (String.length (JS.trim (cap 1 wm))); [reflexivity | discriminate]. }
  rewrite Hcond.
  rewrite (truthy_nonempty t1 Ht1), (truthy_nonempty t2 Ht2). cbn [negb orb].
  unfold Part000.fallback_winner. rewrite Hm1, Hm2. cbn [bind].
  rewrite (positive_context_none _ _ _ _ Hctx). cbn [JS.truthy].
  rewrite Nat.ltb_irrefl. rewrite Hnone. cbn [bind].
  rewrite (truthy_nonempty t1 Ht1).
  eexists. split; [reflexivity|]. split; reflexivity.
Qed.

(** C6. In [parseScenarios], when a located scenario's text matches no
    winner phrasing and the heuristics decide nothing (no positive word next
    to either name, both names mentioned equally often, and no mention of
    either name found in the text), the winner returned for that scenario is
    the first technology name, [tech1] (the names reach the parser non-empty
    and trimmed, as [parseRequestBody] delivers them).  Stated for ASCII
    texts, on which the matcher's white space and case are those of the
    runtime, and for names made of the characters the handler admits
    (letters, digits, ASCII white space and . - + #), which
    [new RegExp] reads as written here. *)
Theorem inconclusive_winner_is_tech1
    (content tech1 tech2 scenario text : string) (verdicts : list ScenarioVerdict)
    (Hascii : JS.is_ascii content = true /\ JS.is_ascii text = true)
    (Hadmitted : Matching.all name_char tech1 = true
                 /\ Matching.all name_char tech2 = true)
    (Hparsed : Part000.parseScenarios content tech1 tech2 = Return (Success verdicts))
    (Hscenario : In scenario Route.scenarioNames)
    (Hlocated : Part000.locate (JS.trim content) scenario = Return (Some text))
    (Hphrasing : Forall (fun p => Part000.winner_accept (RegExp.exec p (JS.trim text)) = false)
                   Part000.winnerPatterns)
    (Hnames : tech1 <> EmptyString /\ tech2 <> EmptyString /\ JS.trim tech1 = tech1)
    (Hadjacent : Forall (neither_adjacent (JS.toLowerCase (JS.trim text)) tech1 tech2)
                   Part000.positiveWords)
    (Hequal : exists n,
        Part000.mentions (JS.toLowerCase (JS.trim text)) (JS.toLowerCase tech1) = Return n
        /\ Part000.mentions (JS.toLowerCase (JS.trim text)) (JS.toLowerCase tech2) = Return n)
    (Hmention : Part000.first_mention (JS.trim text) (JS.toLowerCase tech1)
                  (JS.toLowerCase tech2) = Return None) :
  exists v, In v verdicts /\ name v = scenario /\ winner v = tech1.
Proof.
  destruct Hnames as (Ht1 & Ht2 & Htrim). destruct Hequal as (n & Hm1 & Hm2).
  destruct (Part000_verdict_default scenario (JS.trim text) tech1 tech2 n
              Hphrasing Ht1 Ht2 Hadjacent Hm1 Hm2 Hmention) as (v & Hv & Hwin & Hname).
  assert (Hstep : Part000.scenario_step (JS.trim content) tech1 tech2 scenario
                  = Return (Success v)).
  { unfold Part000.scenario_step. rewrite Hlocated. exact Hv. }
  apply Part000_parseScenarios_success_inv in Hparsed
    as (_ & v1 & v2 & v3 & -> & H1 & H2 & H3).
  exists v. rewrite Htrim in Hwin. split; [|split; assumption].
  simpl in Hscenario.
  destruct Hscenario as [<-|[<-|[<-|[]]]].
  - rewrite Hstep in H1. inversion H1. left. reflexivity.
  - rewrite Hstep in H2. inversion H2. right. left. reflexivity.
  - rewrite Hstep in H3. inversion H3. right. right. left. reflexivity.
Qed.

Lemma inconclusive_winner_is_tech1_witness :
  exists v,
    In v [ mkScenarioVerdict "Move Fast Team" "Go" "Shipping speed matters most here."
             "Move Fast Team scenario analysis";
           mkScenarioVerdict "Scale Team" "Rust wins." "Memory safety at scale."
             "Scale Team scenario analysis";
           mkScenarioVerdict "Budget Team" "Go wins." "Cheaper to staff a team."
             "Budget Team scenario analysis" ]
    /\ name v = "Move Fast Team" /\ winner v = "Go".
Proof.
  apply (inconclusive_winner_is_tech1 undecided_verdicts "Go" "Rust" "Move Fast Team"
           "Why? Shipping speed matters most here.
").
  - split; vm_compute; reflexivity.
  - split; vm_compute; reflexivity.
  - vm_compute. reflexivity.
  - left. reflexivity.
  - vm_compute. reflexivity.
  - repeat constructor; vm_compute; reflexivity.
  - repeat split; [discriminate | discriminate].
  - repeat constructor; vm_compute; reflexivity.
  - exists 0. split; vm_compute; reflexivity.
  - vm_compute. reflexivity.
Defined.

(* ===================================================================== *)
(** * Facts about the matcher *)
(* ===================================================================== *)

Section MatcherFacts.
Import JS RegExp Matching.

Lemma extends_refl x : extends x x.
Proof. exists EmptyString. simpl. split; [reflexivity | lia]. Qed.

Lemma app_cons (ch : ascii) (a b : string) : String ch a ++ b = String ch (a ++ b).
Proof. reflexivity. Qed.

Lemma app_nil_l (b : string) : EmptyString ++ b = b.
Proof. reflexivity. Qed.

Lemma string_app_assoc (a b c : string) : (a ++ b) ++ c = a ++ (b ++ c).
Proof.
  induction a as [|ch a IH]; [reflexivity|].
  rewrite !app_cons. f_equal. exact IH.
Qed.

Lemma string_app_length (a b : string) :
  String.length (a ++ b) = String.length a + String.length b.
Proof.
  induction a as [|ch a IH]; [reflexivity|].
  rewrite app_cons. simpl. f_equal. exact IH.
Qed.

Lemma string_app_nil_r (a : string) : a ++ EmptyString = a.
Proof.
  induction a as [|ch a IH]; [reflexivity|].
  rewrite app_cons. f_equal. exact IH.
Qed.

Lemma extends_trans x y z : extends x y -> extends y z -> extends x z.
Proof.
  intros (c1 & Hr1 & Hp1) (c2 & Hr2 & Hp2). exists (c1 ++ c2). split.
  - rewrite Hr1, Hr2, string_app_assoc. reflexivity.
  - rewrite Hp2, Hp1, string_app_length. lia.
Qed.

Lemma extends_advance x a rest :
  m_rest x = String a rest -> extends x (advance a rest x).
Proof.
  intros H. exists (String a EmptyString). simpl. split; [exact H | lia].
Qed.

(** The captures play no part in [extends]. *)
Lemma extends_caps_l x x' caps :
  extends x x' -> extends (with_caps x caps) x'.
Proof. intros (c & Hr & Hp). exists c. split; assumption. Qed.

Lemma extends_caps_r x x' caps :
  extends x x' -> extends x (with_caps x' caps).
Proof. intros (c & Hr & Hp). exists c. split; assumption. Qed.

Lemma extends_clear_l gs x x' :
  extends (clear_caps gs x) x' -> extends x x'.
Proof. destruct gs; simpl; [auto|]. intros (c & Hr & Hp). exists c. split; assumption. Qed.

Lemma extends_set_cap_r idx v x x' :
  extends x x' -> extends x (set_cap idx v x').
Proof. intros (c & Hr & Hp). exists c. split; assumption. Qed.

Lemma extends_pos x x' : extends x x' -> m_pos x <= m_pos x'.
Proof. intros (c & _ & Hp). lia. Qed.

Lemma forwards_single p : forwards (m_single p).
Proof.
  intros x k y. unfold m_single.
  destruct (m_rest x) as [|a rest] eqn:Hrest; [discriminate|].
  destruct (p a); [|discriminate].
  intros H. exists (advance a rest x). split; [apply extends_advance; exact Hrest | exact H].
Qed.

Lemma forwards_repeat mr gs greedy :
  forwards mr ->
  forall fuel min max, forwards (repeat_matcher fuel mr gs min max greedy).
Proof.
  intros Hmr. induction fuel as [|fuel IH]; intros min max x k y; simpl; [discriminate|].
  set (d := fun y0 : mstate =>
              if Nat.eqb min 0 && Nat.eqb (m_pos y0) (m_pos x) then None
              else repeat_matcher fuel mr gs (pred min) (option_map pred max) greedy y0 k).
  assert (Hd : forall z, mr (clear_caps gs x) d = Some z ->
                         exists x', extends x x' /\ k x' = Some z).
  { intros z Hz. apply Hmr in Hz as (x1 & Hx1 & Hz). unfold d in Hz.
    destruct (Nat.eqb min 0 && Nat.eqb (m_pos x1) (m_pos x)); [discriminate|].
    apply IH in Hz as (x2 & Hx2 & Hz). exists x2. split; [|exact Hz].
    eapply extends_trans; [|exact Hx2]. eapply extends_clear_l; exact Hx1. }
  assert (Hk : forall z, k x = Some z -> exists x', extends x x' /\ k x' = Some z).
  { intros z Hz. exists x. split; [apply extends_refl | exact Hz]. }
  destruct max as [[|mx]|]; try (intros H; apply Hk; exact H);
    (destruct (negb (Nat.eqb min 0)); [intros H; apply Hd; exact H|];
     destruct greedy;
     [ destruct (mr (clear_caps gs x) d) as [z|] eqn:Hz;
       [intros H; inversion H; subst; apply Hd; reflexivity | intros H; apply Hk; exact H]
     | destruct (k x) as [z|] eqn:Hz;
       [intros H; inversion H; subst; apply Hk; reflexivity | intros H; apply Hd; exact H] ]).
Qed.

(** The result of a match is the result of a call of the continuation on a
    state further on in the text. *)
Lemma forwards_m ic r : forwards (m ic r).
Proof.
  induction r as [| c | | neg items | r1 IH1 r2 IH2 | r1 IH1 r2 IH2
                  | min max greedy r IH | idx r IH | pos r IH | | | pos];
    intros x k y; cbn [m].
  - intros H. exists x. split; [apply extends_refl | exact H].
  - apply forwards_single.
  - apply forwards_single.
  - apply forwards_single.
  - intros H. apply IH1 in H as (x1 & Hx1 & H). apply IH2 in H as (x2 & Hx2 & H).
    exists x2. split; [eapply extends_trans; eassumption | exact H].
  - destruct (m ic r1 x k) as [z|] eqn:Hz.
    + intros H. inversion H; subst. apply IH1. exact Hz.
    + apply IH2.
  - apply forwards_repeat. exact IH.
  - intros H. apply IH in H as (x1 & Hx1 & H).
    eexists. split; [|exact H]. apply extends_set_cap_r. exact Hx1.
  - destruct pos.
    + destruct (m ic r x Some) as [z|]; [|discriminate].
      intros H. eexists. split; [|exact H]. apply extends_caps_r, extends_refl.
    + destruct (m ic r x Some) as [z|]; [discriminate|].
      intros H. exists x. split; [apply extends_refl | exact H].
  - destruct (Nat.eqb (m_pos x) 0); [|discriminate].
    intros H. exists x. split; [apply extends_refl | exact H].
  - destruct (m_rest x); [|discriminate].
    intros H. exists x. split; [apply extends_refl | exact H].
  - destruct (Bool.eqb pos _); [|discriminate].
    intros H. exists x. split; [apply extends_refl | exact H].
Qed.

(** A pattern without capturing groups hands the captures on unchanged. *)
Definition keeps_caps (mr : mstate -> cont -> option mstate) : Prop :=
  forall x k y, mr x k = Some y ->
    exists x', extends x x' /\ m_caps x' = m_caps x /\ k x' = Some y.

Lemma keeps_caps_single p : keeps_caps (m_single p).
Proof.
  intros x k y. unfold m_single.
  destruct (m_rest x) as [|a rest] eqn:Hrest; [discriminate|].
  destruct (p a); [|discriminate].
  intros H. exists (advance a rest x).
  split; [apply extends_advance; exact Hrest | split; [reflexivity | exact H]].
Qed.

Lemma keeps_caps_repeat mr greedy :
  keeps_caps mr ->
  forall fuel min max, keeps_caps (repeat_matcher fuel mr [] min max greedy).
Proof.
  intros Hmr. induction fuel as [|fuel IH]; intros min max x k y; simpl; [discriminate|].
  set (d := fun y0 : mstate =>
              if Nat.eqb min 0 && Nat.eqb (m_pos y0) (m_pos x) then None
              else repeat_matcher fuel mr [] (pred min) (option_map pred max) greedy y0 k).
  assert (Hd : forall z, mr x d = Some z ->
                         exists x', extends x x' /\ m_caps x' = m_caps x /\ k x' = Some z).
  { intros z Hz. apply Hmr in Hz as (x1 & Hx1 & Hc1 & Hz). unfold d in Hz.
    destruct (Nat.eqb min 0 && Nat.eqb (m_pos x1) (m_pos x)); [discriminate|].
    apply IH in Hz as (x2 & Hx2 & Hc2 & Hz). exists x2.
    split; [eapply extends_trans; eassumption|]. split; [congruence | exact Hz]. }
  assert (Hk : forall z, k x = Some z ->
                         exists x', extends x x' /\ m_caps x' = m_caps x /\ k x' = Some z).
  { intros z Hz. exists x. split; [apply extends_refl | split; [reflexivity | exact Hz]]. }
  destruct max as [[|mx]|]; try (intros H; apply Hk; exact H);
    (destruct (negb (Nat.eqb min 0)); [intros H; apply Hd; exact H|];
     destruct greedy;
     [ destruct (mr x d) as [z|] eqn:Hz;
       [intros H; inversion H; subst; apply Hd; reflexivity | intros H; apply Hk; exact H]
     | destruct (k x) as [z|] eqn:Hz;
       [intros H; inversion H; subst; apply Hk; reflexivity | intros H; apply Hd; exact H] ]).
Qed.

Lemma app_eq_nil_inv {A : Type} (l1 l2 : list A) : (l1 ++ l2)%list = [] -> l1 = [] /\ l2 = [].
Proof. destruct l1; simpl; [auto | discriminate]. Qed.

Lemma keeps_caps_m ic r : groups_of r = [] -> keeps_caps (m ic r).
Proof.
  induction r as [| c | | neg items | r1 IH1 r2 IH2 | r1 IH1 r2 IH2
                  | min max greedy r IH | idx r IH | pos r IH | | | pos];
    intros Hg x k y; cbn [m]; cbn [groups_of] in Hg.
  - intros H. exists x. split; [apply extends_refl | split; [reflexivity | exact H]].
  - apply keeps_caps_single.
  - apply keeps_caps_single.
  - apply keeps_caps_single.
  - apply app_eq_nil_inv in Hg as [Hg1 Hg2].
    intros H. apply (IH1 Hg1) in H as (x1 & Hx1 & Hc1 & H).
    apply (IH2 Hg2) in H as (x2 & Hx2 & Hc2 & H).
    exists x2. split; [eapply extends_trans; eassumption|]. split; [congruence | exact H].
  - apply app_eq_nil_inv in Hg as [Hg1 Hg2].
    destruct (m ic r1 x k) as [z|] eqn:Hz.
    + intros H. inversion H; subst. apply (IH1 Hg1). exact Hz.
    + apply (IH2 Hg2).
  - rewrite Hg. apply keeps_caps_repeat. apply IH. exact Hg.
  - discriminate.
  - destruct pos.
    + destruct (m ic r x Some) as [z|] eqn:Hz; [|discriminate].
      apply (IH Hg) in Hz as (x1 & _ & Hc1 & Hz). inversion Hz; subst.
      intros H. exists (with_caps x (m_caps z)).
      split; [apply extends_caps_r, extends_refl|]. split; [exact Hc1 | exact H].
    + destruct (m ic r x Some) as [z|]; [discriminate|].
      intros H. exists x. split; [apply extends_refl | split; [reflexivity | exact H]].
  - destruct (Nat.eqb (m_pos x) 0); [|discriminate].
    intros H. exists x. split; [apply extends_refl | split; [reflexivity | exact H]].
  - destruct (m_rest x); [|discriminate].
    intros H. exists x. split; [apply extends_refl | split; [reflexivity | exact H]].
  - destruct (Bool.eqb pos _); [|discriminate].
    intros H. exists x. split; [apply extends_refl | split; [reflexivity | exact H]].
Qed.

(** ** Stars and pluses of one-character atoms *)

Lemma atom_pred_m ic r p :
  atom_pred ic r = Some p -> forall x k, m ic r x k = m_single p x k.
Proof.
  destruct r; simpl; intros H; inversion H; subst; reflexivity.
Qed.

Lemma atom_pred_groups ic r p : atom_pred ic r = Some p -> groups_of r = [].
Proof. destruct r; simpl; intros H; inversion H; reflexivity. Qed.

Lemma repeat_star_step fuel mr greedy x k :
  repeat_matcher (S fuel) mr [] 0 None greedy x k
  = let d := fun y => if Nat.eqb (m_pos y) (m_pos x) then None
                      else repeat_matcher fuel mr [] 0 None greedy y k in
    if greedy then match mr x d with Some z => Some z | None => k x end
    else match k x with Some z => Some z | None => mr x d end.
Proof. reflexivity. Qed.

Lemma repeat_plus_step fuel mr greedy x k :
  repeat_matcher (S fuel) mr [] 1 None greedy x k
  = mr x (fun y => repeat_matcher fuel mr [] 0 None greedy y k).
Proof. reflexivity. Qed.

Lemma advance_pos_neq a rest x : Nat.eqb (m_pos (advance a rest x)) (m_pos x) = false.
Proof. apply Nat.eqb_neq. simpl. lia. Qed.

Lemma repeat_star_greedy mr p k :
  (forall x k, mr x k = m_single p x k) ->
  forall fuel x, String.length (m_rest x) < fuel ->
    repeat_matcher fuel mr [] 0 None true x k = star_greedy p (m_rest x) x k.
Proof.
  intros Hmr. induction fuel as [|fuel IH]; intros x Hfuel; [lia|].
  rewrite repeat_star_step. cbv zeta. rewrite Hmr. unfold m_single.
  destruct (m_rest x) as [|a rest] eqn:Hrest; [reflexivity|].
  cbn [star_greedy]. destruct (p a); [|reflexivity].
  rewrite advance_pos_neq.
  rewrite IH by (simpl in *; lia). reflexivity.
Qed.

Lemma repeat_star_lazy mr p k :
  (forall x k, mr x k = m_single p x k) ->
  forall fuel x, String.length (m_rest x) < fuel ->
    repeat_matcher fuel mr [] 0 None false x k = star_lazy p (m_rest x) x k.
Proof.
  intros Hmr. induction fuel as [|fuel IH]; intros x Hfuel; [lia|].
  rewrite repeat_star_step. cbv zeta. rewrite Hmr. unfold m_single.
  destruct (m_rest x) as [|a rest] eqn:Hrest.
  - cbn [star_lazy]. destruct (k x); reflexivity.
  - cbn [star_lazy]. destruct (k x); [reflexivity|].
    destruct (p a); [|reflexivity].
    rewrite advance_pos_neq.
    rewrite IH by (simpl in *; lia). reflexivity.
Qed.

Lemma m_star_greedy ic r p x k :
  atom_pred ic r = Some p ->
  m ic (RQuant 0 None true r) x k = star_greedy p (m_rest x) x k.
Proof.
  intros Hp. cbn [m]. rewrite (atom_pred_groups _ _ _ Hp).
  apply repeat_star_greedy; [apply atom_pred_m; exact Hp | simpl; lia].
Qed.

Lemma m_star_lazy ic r p x k :
  atom_pred ic r = Some p ->
  m ic (RQuant 0 None false r) x k = star_lazy p (m_rest x) x k.
Proof.
  intros Hp. cbn [m]. rewrite (atom_pred_groups _ _ _ Hp).
  apply repeat_star_lazy; [apply atom_pred_m; exact Hp | simpl; lia].
Qed.

Lemma m_plus_greedy ic r p x k :
  atom_pred ic r = Some p ->
  m ic (RQuant 1 None true r) x k
  = m_single p x (fun y => star_greedy p (m_rest y) y k).
Proof.
  intros Hp. cbn [m]. rewrite (atom_pred_groups _ _ _ Hp).
  cbn [Nat.add]. rewrite repeat_plus_step.
  rewrite (atom_pred_m _ _ _ Hp). unfold m_single.
  destruct (m_rest x) as [|a rest] eqn:Hrest; [reflexivity|].
  destruct (p a); [|reflexivity].
  apply repeat_star_greedy; [apply atom_pred_m; exact Hp | simpl; lia].
Qed.

Lemma m_plus_lazy ic r p x k :
  atom_pred ic r = Some p ->
  m ic (RQuant 1 None false r) x k
  = m_single p x (fun y => star_lazy p (m_rest y) y k).
Proof.
  intros Hp. cbn [m]. rewrite (atom_pred_groups _ _ _ Hp).
  cbn [Nat.add]. rewrite repeat_plus_step.
  rewrite (atom_pred_m _ _ _ Hp). unfold m_single.
  destruct (m_rest x) as [|a rest] eqn:Hrest; [reflexivity|].
  destruct (p a); [|reflexivity].
  apply repeat_star_lazy; [apply atom_pred_m; exact Hp | simpl; lia].
Qed.

(** ** Runs *)

Lemma skip_nil x : skip EmptyString x = x.
Proof. reflexivity. Qed.

Lemma skip_cons c run a rest x :
  m_rest x = String a rest -> skip (String c run) x = skip run (advance a rest x).
Proof. intros H. cbn [skip]. rewrite H. reflexivity. Qed.

Lemma skip_spec run : forall x rest',
  m_rest x = run ++ rest' ->
  m_rest (skip run x) = rest'
  /\ m_pos (skip run x) = m_pos x + String.length run
  /\ m_caps (skip run x) = m_caps x.
Proof.
  induction run as [|c run IH]; intros x rest' H.
  - rewrite skip_nil. simpl. repeat split; [exact H | lia].
  - rewrite app_cons in H. rewrite (skip_cons _ _ _ _ _ H).
    destruct (IH (advance c (run ++ rest') x) rest' eq_refl) as (H1 & H2 & H3).
    repeat split; [exact H1 | rewrite H2; simpl; lia | rewrite H3; reflexivity].
Qed.

Lemma extends_skip run x rest' :
  m_rest x = run ++ rest' -> extends x (skip run x).
Proof.
  intros H. destruct (skip_spec run x rest' H) as (H1 & H2 & _).
  exists run. rewrite H1. split; assumption.
Qed.

(** When the continuation cannot fail, the greedy star takes the longest
    run. *)
Lemma star_greedy_total p k :
  (forall y, k y <> None) ->
  forall rest x, m_rest x = rest ->
    exists run rest',
      rest = run ++ rest' /\ all p run = true /\ stops p rest'
      /\ star_greedy p rest x k = k (skip run x).
Proof.
  intros Hk. induction rest as [|a rest IH]; intros x Hx.
  - exists EmptyString, EmptyString. repeat split.
  - cbn [star_greedy]. destruct (p a) eqn:Hpa.
    + destruct (IH (advance a rest x) eq_refl) as (run & rest' & H1 & H2 & H3 & H4).
      exists (String a run), rest'. rewrite app_cons, <- H1.
      repeat split; [simpl; rewrite Hpa; exact H2 | exact H3 |].
      rewrite (skip_cons _ _ _ _ _ Hx), H4.
      destruct (k (skip run (advance a rest x))) eqn:Hky; [reflexivity|].
      exfalso. eapply Hk. exact Hky.
    + exists EmptyString, (String a rest). repeat split. exact Hpa.
Qed.

(** The greedy star returns what its continuation returns after the longest
    run, when that succeeds. *)
Lemma star_greedy_first p k z run : forall x rest',
  m_rest x = run ++ rest' -> all p run = true -> stops p rest' ->
  k (skip run x) = Some z ->
  star_greedy p (run ++ rest') x k = Some z.
Proof.
  induction run as [|c run IH]; intros x rest' Hx Hall Hstop Hk.
  - rewrite app_nil_l. rewrite skip_nil in Hk.
    destruct rest' as [|a r]; cbn [star_greedy]; [exact Hk|].
    simpl in Hstop. rewrite Hstop. exact Hk.
  - rewrite app_cons in Hx. rewrite app_cons. cbn [star_greedy].
    simpl in Hall. apply andb_prop in Hall as [Hc Hall]. rewrite Hc.
    rewrite (skip_cons _ _ _ _ _ Hx) in Hk.
    rewrite (IH (advance c (run ++ rest') x) rest' eq_refl Hall Hstop Hk).
    reflexivity.
Qed.

(** The lazy star of an atom that takes every character cannot fail before
    a continuation that succeeds at the end of the text. *)
Lemma star_lazy_total p k :
  (forall a, p a = true) ->
  (forall y, m_rest y = EmptyString -> k y <> None) ->
  forall rest x, m_rest x = rest -> star_lazy p rest x k <> None.
Proof.
  intros Hp Hk. induction rest as [|a rest IH]; intros x Hx.
  - cbn [star_lazy]. specialize (Hk x Hx). destruct (k x); [discriminate | contradiction].
  - cbn [star_lazy]. destruct (k x); [discriminate|]. rewrite Hp.
    apply IH. reflexivity.
Qed.

Lemma substring0_app a b : substring0 (String.length a) (a ++ b) = a.
Proof.
  unfold substring0. induction a as [|c a IH].
  - destruct b; reflexivity.
  - rewrite app_cons. cbn [String.length String.substring]. f_equal. exact IH.
Qed.

(** The text a capturing group records is the text its body consumed. *)
Lemma captured_text x y :
  extends x y -> substring0 (m_pos y - m_pos x) (m_rest x)
                 = substring0 (m_pos y - m_pos x) (m_rest x)
                 /\ exists consumed, m_rest x = consumed ++ m_rest y
                      /\ substring0 (m_pos y - m_pos x) (m_rest x) = consumed.
Proof.
  intros (c & Hr & Hp). split; [reflexivity|]. exists c. split; [exact Hr|].
  rewrite Hp, Hr. replace (m_pos x + String.length c - m_pos x) with (String.length c) by lia.
  apply substring0_app.
Qed.

Lemma star_lazy_result p k z : forall rest x,
  m_rest x = rest ->
  star_lazy p rest x k = Some z ->
  exists c after,
    rest = c ++ after /\ all p c = true /\ k (skip c x) = Some z
    /\ forall c1 c2, c = c1 ++ c2 -> c2 <> EmptyString -> k (skip c1 x) = None.
Proof.
  induction rest as [|a rest IH]; intros x Hx; cbn [star_lazy].
  - destruct (k x) as [z0|] eqn:Hk; [|discriminate].
    intros H. inversion H; subst. exists EmptyString, EmptyString.
    repeat split; [exact Hk|]. intros c1 c2 Hc Hne. destruct c1; [|discriminate].
    rewrite app_nil_l in Hc. congruence.
  - destruct (k x) as [z0|] eqn:Hk.
    + intros H. inversion H; subst. exists EmptyString, (String a rest).
      repeat split; [exact Hk|]. intros c1 c2 Hc Hne. destruct c1; [|discriminate].
      rewrite app_nil_l in Hc. congruence.
    + destruct (p a) eqn:Hpa; [|discriminate].
      intros H. apply (IH (advance a rest x) eq_refl) in H
        as (c & after & Hrest & Hall & Hkc & Hmin).
      exists (String a c), after. rewrite app_cons, <- Hrest.
      repeat split.
      * simpl. rewrite Hpa. exact Hall.
      * rewrite (skip_cons _ _ _ _ _ Hx). exact Hkc.
      * intros c1 c2 Hc Hne. destruct c1 as [|b c1].
        -- exact Hk.
        -- rewrite app_cons in Hc. inversion Hc; subst.
           rewrite (skip_cons _ _ _ _ _ Hx). apply (Hmin c1 c2); [reflexivity | exact Hne].
Qed.

(** ** Section patterns *)

Lemma m_seq ic r1 r2 x k : m ic (RSeq r1 r2) x k = m ic r1 x (fun y => m ic r2 y k).
Proof. reflexivity. Qed.

Lemma m_group ic idx r x k :
  m ic (RGroup idx r) x k
  = m ic r x (fun y => k (set_cap idx (Some (substring0 (m_pos y - m_pos x) (m_rest x))) y)).
Proof. reflexivity. Qed.

Lemma any_class ic a : class_match ic false [CSpace true; CSpace false] a = true.
Proof. unfold class_match. simpl. destruct (is_space a); reflexivity. Qed.

Lemma space_class ic a : class_match ic false [CSpace true] a = is_space a.
Proof. unfold class_match. simpl. destruct (is_space a); reflexivity. Qed.

Lemma all_space_class ic ws :
  all (class_match ic false [CSpace true]) ws = all is_space ws.
Proof.
  induction ws as [|a ws IH]; [reflexivity|].
  cbn [all]. rewrite IH. f_equal. unfold class_match. simpl. destruct (is_space a); reflexivity.
Qed.

Lemma all_ext p q s : (forall a, p a = q a) -> all p s = all q s.
Proof. intros H. induction s as [|c s IH]; simpl; [reflexivity | rewrite H, IH; reflexivity]. Qed.

Lemma split_section_chain r : forall heads tail,
  split_section r = Some (heads, tail) ->
  r = chain heads (section_body tail)
  /\ Forall (fun h => groups_of h = []) heads
  /\ tail_marker tail <> None.
Proof.
  induction r as [| c | | neg items | r1 IH1 r2 IH2 | r1 IH1 r2 IH2
                  | min max greedy r IH | idx r IH | pos r IH | | | pos];
    intros heads tail; try discriminate.
  cbn [split_section].
  assert (Hgen : match groups_of r1, split_section r2 with
                 | [], Some (heads0, tail0) => Some (r1 :: heads0, tail0)
                 | _, _ => None
                 end = Some (heads, tail) ->
                 RSeq r1 r2 = chain heads (section_body tail)
                 /\ Forall (fun h => groups_of h = []) heads
                 /\ tail_marker tail <> None).
  { destruct (groups_of r1) eqn:Hg; [|discriminate].
    destruct (split_section r2) as [[hs tl]|] eqn:Hs; [|discriminate].
    intros H. inversion H; subst.
    destruct (IH2 hs tail eq_refl) as (-> & Hall & Htl).
    split; [reflexivity|]. split; [constructor; assumption | exact Htl]. }
  destruct r1; try exact Hgen.
  destruct min; try exact Hgen.
  destruct max; try exact Hgen.
  destruct greedy; try exact Hgen.
  destruct r1; try exact Hgen.
  destruct negated; try exact Hgen.
  destruct items as [|[| |[]| |] [|? ?]]; try exact Hgen.
  destruct r2; try exact Hgen.
  destruct r2_1; try exact Hgen.
  destruct idx as [|[|idx]]; try exact Hgen.
  destruct r2_1; try exact Hgen.
  destruct min; try exact Hgen.
  destruct max; try exact Hgen.
  destruct greedy; try exact Hgen.
  destruct r2_1; try exact Hgen.
  destruct negated; try exact Hgen.
  destruct items as [|[| |[]| |] [|[| |[]| |] [|? ?]]]; try exact Hgen.
  destruct (tail_marker r2_2) eqn:Htl; [|exact Hgen].
  intros H. inversion H; subst. split; [reflexivity|].
  split; [constructor | congruence].
Qed.

(** The factors of a heading have no groups: they hand the captures on. *)
Lemma chain_inv ic heads last : forall x k y,
  Forall (fun h => groups_of h = []) heads ->
  m ic (chain heads last) x k = Some y ->
  exists x1, extends x x1 /\ m_caps x1 = m_caps x /\ m ic last x1 k = Some y.
Proof.
  induction heads as [|h heads IH]; intros x k y Hall H; cbn [chain] in H.
  - exists x. split; [apply extends_refl | split; [reflexivity | exact H]].
  - inversion Hall as [|? ? Hh Hrest]; subst. rewrite m_seq in H.
    apply (keeps_caps_m ic h Hh) in H as (x1 & Hx1 & Hc1 & H).
    apply (IH x1 k y Hrest) in H as (x2 & Hx2 & Hc2 & H).
    exists x2. split; [eapply extends_trans; eassumption|]. split; [congruence | exact H].
Qed.

(** The tail of a section pattern succeeds at the end of the text. *)
Lemma tail_at_end ic tail z :
  tail_marker tail <> None -> m_rest z = EmptyString -> m ic tail z Some <> None.
Proof.
  intros Htl Hz. destruct tail; try (exfalso; apply Htl; reflexivity).
  - destruct positive; [|exfalso; apply Htl; reflexivity].
    destruct tail; try (exfalso; apply Htl; reflexivity).
    destruct tail2; try (exfalso; apply Htl; reflexivity).
    cbn [m]. destruct (m ic tail1 z Some); [discriminate|]. rewrite Hz. discriminate.
  - cbn [m]. rewrite Hz. discriminate.
Qed.

Lemma tail_groups tail : tail_marker tail <> None -> groups_of tail = [].
Proof.
  intros Htl. destruct tail; try (exfalso; apply Htl; reflexivity); [|reflexivity].
  destruct positive; [|exfalso; apply Htl; reflexivity].
  destruct tail; try (exfalso; apply Htl; reflexivity).
  destruct tail2; try (exfalso; apply Htl; reflexivity).
  simpl in *. destruct (groups_of tail1); [reflexivity | exfalso; apply Htl; reflexivity].
Qed.

(** The tail consumes nothing. *)
Lemma tail_pos ic tail z y :
  tail_marker tail <> None -> m ic tail z Some = Some y ->
  m_pos y = m_pos z /\ m_rest y = m_rest z /\ m_caps y = m_caps z.
Proof.
  intros Htl. pose proof (tail_groups tail Htl) as Hg.
  destruct tail; try (exfalso; apply Htl; reflexivity).
  - destruct positive; [|exfalso; apply Htl; reflexivity].
    cbn [m]. destruct (m ic tail z Some) as [w|] eqn:Hw; [|discriminate].
    intros H. inversion H; subst. cbn [with_caps m_pos m_rest m_caps].
    split; [reflexivity|]. split; [reflexivity|].
    apply (keeps_caps_m ic tail Hg) in Hw as (x' & _ & Hc & Hw). inversion Hw; subst.
    exact Hc.
  - cbn [m]. intros H. assert (Hyz : y = z).
    { destruct (m_rest z); [inversion H; reflexivity | discriminate]. }
    subst. split; [reflexivity|]. split; reflexivity.
Qed.

(** The part of a section pattern after the heading: white space is
    skipped as far as it goes, and the capture is the shortest text after
    which the tail holds. *)
Lemma section_body_match ic tail x y :
  tail_marker tail <> None ->
  m_caps x = [None] ->
  m ic (section_body tail) x Some = Some y ->
  exists ws c after,
    m_rest x = ws ++ c ++ after
    /\ all is_space ws = true /\ stops is_space (c ++ after)
    /\ m_caps y = [Some c]
    /\ m_pos y = m_pos x + String.length ws + String.length c
    /\ (exists z, m_rest z = after /\ m ic tail z Some <> None)
    /\ (forall c1 c2, c = c1 ++ c2 -> c2 <> EmptyString ->
          exists z, m_rest z = c2 ++ after /\ m ic tail z Some = None).
Proof.
  intros Htl Hcaps. unfold section_body, space_star. rewrite m_seq.
  rewrite (m_star_greedy ic _ (class_match ic false [CSpace true])) by reflexivity.
  set (K := fun y0 : mstate => m ic (RSeq (RGroup 1 any_star) tail) y0 Some).
  assert (HK : forall y0, K y0 =
            star_lazy (class_match ic false [CSpace true; CSpace false]) (m_rest y0) y0
              (fun y3 => m ic tail
                           (set_cap 1 (Some (substring0 (m_pos y3 - m_pos y0) (m_rest y0))) y3)
                           Some)).
  { intros y0. unfold K. rewrite m_seq, m_group. unfold any_star.
    rewrite (m_star_lazy ic _ (class_match ic false [CSpace true; CSpace false]))
      by reflexivity.
    reflexivity. }
  assert (Htotal : forall y0, K y0 <> None).
  { intros y0. rewrite HK. apply star_lazy_total; [apply any_class | | reflexivity].
    intros y3 Hy3. apply tail_at_end; [exact Htl | exact Hy3]. }
  destruct (star_greedy_total (class_match ic false [CSpace true]) K Htotal (m_rest x) x eq_refl)
    as (ws & rest1 & Hrest & Hws & Hstop & Hstar).
  rewrite Hstar. intros HKy.
  destruct (skip_spec ws x rest1 Hrest) as (Hr2 & Hp2 & Hc2).
  set (x2 := skip ws x) in *.
  rewrite HK in HKy.
  apply (star_lazy_result _ _ _ (m_rest x2) x2 eq_refl) in HKy
    as (c & after & Hrest2 & _ & Htail & Hmin).
  rewrite Hr2 in Hrest2.
  assert (Hx2c : m_rest x2 = c ++ after) by (rewrite Hr2; exact Hrest2).
  destruct (skip_spec c x2 after Hx2c) as (Hr3 & Hp3 & Hc3).
  assert (Hsub : forall c1 c2, c = c1 ++ c2 ->
             substring0 (m_pos (skip c1 x2) - m_pos x2) (m_rest x2) = c1).
  { intros c1 c2 Hc. assert (Hx2c1 : m_rest x2 = c1 ++ (c2 ++ after))
      by (rewrite Hx2c, Hc, string_app_assoc; reflexivity).
    destruct (skip_spec c1 x2 _ Hx2c1) as (_ & Hp & _).
    rewrite Hp, Hx2c1.
    replace (m_pos x2 + String.length c1 - m_pos x2) with (String.length c1) by lia.
    apply substring0_app. }
  exists ws, c, after. split; [rewrite Hrest, Hrest2; reflexivity|].
  split; [rewrite <- Hws; apply all_ext; intros a; symmetry; apply (space_class ic)|].
  split.
  { rewrite <- Hrest2. destruct rest1; unfold stops in *; [exact I|].
    rewrite (space_class ic) in Hstop. exact Hstop. }
  rewrite (Hsub c EmptyString) in Htail by (symmetry; apply string_app_nil_r).
  destruct (tail_pos ic tail _ y Htl Htail) as (Hpy & Hry & Hcy).
  split.
  { rewrite Hcy. cbn [set_cap m_caps pred]. rewrite Hc3, Hc2, Hcaps. reflexivity. }
  split.
  { rewrite Hpy. cbn [set_cap m_pos]. rewrite Hp3, Hp2. lia. }
  split.
  { eexists. split; [|rewrite Htail; discriminate]. cbn [set_cap m_rest]. exact Hr3. }
  intros c1 c2 Hc Hne. specialize (Hmin c1 c2 Hc Hne). cbv beta in Hmin.
  rewrite (Hsub c1 c2 Hc) in Hmin.
  eexists. split; [|exact Hmin]. cbn [set_cap m_rest].
  assert (Hx2c1 : m_rest x2 = c1 ++ (c2 ++ after))
    by (rewrite Hx2c, Hc, string_app_assoc; reflexivity).
  destruct (skip_spec c1 x2 _ Hx2c1) as (Hr & _ & _). exact Hr.
Qed.

(** ** Search *)

Lemma search_inv re : forall s prev pos ma,
  search re prev s pos = Some ma ->
  exists pre suf prev' y,
    s = pre ++ suf
    /\ m (ignoreCase re) (ast re)
         (mkstate prev' suf (pos + String.length pre) (List.repeat None (ngroups re))) Some
       = Some y
    /\ ma = mkmatch (substring0 (m_pos y - (pos + String.length pre)) suf) (m_caps y)
                    (pos + String.length pre).
Proof.
  induction s as [|a s IH]; intros prev pos ma; cbn [search].
  - destruct (m _ _ _ Some) as [y|] eqn:Hy; [|discriminate].
    intros H. inversion H; subst. exists EmptyString, EmptyString, prev, y.
    simpl. rewrite Nat.add_0_r. repeat split. exact Hy.
  - destruct (m _ _ _ Some) as [y|] eqn:Hy.
    + intros H. inversion H; subst. exists EmptyString, (String a s), prev, y.
      simpl. rewrite Nat.add_0_r. repeat split. exact Hy.
    + intros H. apply IH in H as (pre & suf & prev' & y & Hs & Hm & Hma).
      exists (String a pre), suf, prev', y. rewrite app_cons, Hs.
      simpl String.length. replace (pos + S (String.length pre)) with (S pos + String.length pre) by lia.
      repeat split; assumption.
Qed.

Lemma search_here re s prev pos y :
  m (ignoreCase re) (ast re) (mkstate prev s pos (List.repeat None (ngroups re))) Some = Some y ->
  search re prev s pos = Some (mkmatch (substring0 (m_pos y - pos) s) (m_caps y) pos).
Proof. intros H. destruct s; cbn [search]; rewrite H; reflexivity. Qed.

End MatcherFacts.

(* ===================================================================== *)
(** * Section extraction *)
(* ===================================================================== *)

Section SectionExtraction.
Import JS RegExp Matching.

(** What a match of a section pattern captures is empty or begins with a
    character that is not white space. *)
Lemma section_capture re text ma :
  section_shaped re = true ->
  exec re text = Some ma ->
  exists c, captures ma = [Some c]
    /\ (c = EmptyString \/ exists a c', c = String a c' /\ is_space a = false).
Proof.
  unfold section_shaped, exec.
  destruct (split_section (ast re)) as [[heads tail]|] eqn:Hsplit; [|discriminate].
  intros Hn Hs. apply Nat.eqb_eq in Hn.
  apply split_section_chain in Hsplit as (Hast & Hheads & Htl).
  apply search_inv in Hs as (pre & suf & prev' & y & Htext & Hm & ->).
  rewrite Hast, Hn in Hm.
  apply (chain_inv _ _ _ _ _ _ Hheads) in Hm as (x1 & Hx1 & Hc1 & Hm).
  apply (section_body_match _ _ _ _ Htl Hc1) in Hm
    as (ws & c & after & Hrest & Hws & Hstop & Hcy & _).
  exists c. split; [exact Hcy|].
  destruct c as [|a c']; [left; reflexivity|].
  right. exists a, c'. split; [reflexivity|]. rewrite app_cons in Hstop. exact Hstop.
Qed.

Lemma trim_nonspace_head a c :
  is_space a = false -> truthy (trim (String a c)) = true.
Proof.
  intros Ha. unfold trim. cbn [ltrim]. rewrite Ha. cbn [rtrim]. rewrite Ha.
  destruct (rtrim c); reflexivity.
Qed.

(** One turn of the loop of [extractSections] in route.ts, against the
    content of the section. *)
Lemma Route_section_step re text :
  section_shaped re = true ->
  match section_content re text with
  | None => has 1 (exec re text) = false
  | Some c => has 1 (exec re text) = true /\ c = trim (cap 1 (exec re text))
  end.
Proof.
  intros Hshape. unfold section_content, has, cap, has_capture, capture_or_empty, capture.
  destruct (exec re text) as [ma|] eqn:Hexec; [|reflexivity].
  destruct (section_capture re text ma Hshape Hexec) as (c & Hc & Hhead).
  rewrite Hc. cbn [nth pred].
  destruct Hhead as [->|(a & c' & -> & Ha)].
  - reflexivity.
  - rewrite (trim_nonspace_head a c' Ha). split; reflexivity.
Qed.

(** The same turn in part_000, which tests the trimmed capture itself. *)
Lemma Part000_section_step re text :
  match section_content re text with
  | None => Part000.section_missing (exec re text) = true
  | Some c => Part000.section_missing (exec re text) = false
              /\ c = trim (cap 1 (exec re text))
  end.
Proof.
  unfold section_content, Part000.section_missing, has, cap, has_capture,
    capture_or_empty.
  destruct (exec re text) as [ma|]; [|reflexivity].
  destruct (capture 1 ma) as [c|]; [|reflexivity].
  destruct (trim c) as [|a t] eqn:Htrim; cbn [truthy String.length Nat.eqb].
  - rewrite orb_true_r. reflexivity.
  - destruct c as [|b c']; [discriminate|]. cbn [truthy negb orb]. split; reflexivity.
Qed.

Lemma Route_extract_loop_five p1 p2 p3 p4 p5 response :
  section_shaped p1 = true -> section_shaped p2 = true -> section_shaped p3 = true ->
  section_shaped p4 = true -> section_shaped p5 = true ->
  match Route.extract_loop response
          [("matchup", p1); ("taleOfTheTape", p2); ("verdicts", p3);
           ("hiddenTax", p4); ("tieBreaker", p5)] [] with
  | Failure e => Failure e
  | Success sections => Success (Route.sections_data sections)
  end
  = extraction [("matchup", p1); ("taleOfTheTape", p2); ("verdicts", p3);
                ("hiddenTax", p4); ("tieBreaker", p5)] response.
Proof.
  intros H1 H2 H3 H4 H5.
  pose proof (Route_section_step p1 response H1) as S1.
  pose proof (Route_section_step p2 response H2) as S2.
  pose proof (Route_section_step p3 response H3) as S3.
  pose proof (Route_section_step p4 response H4) as S4.
  pose proof (Route_section_step p5 response H5) as S5.
  unfold extraction, content_of. cbn [first_missing Route.extract_loop obj_get String.eqb
    Ascii.eqb Bool.eqb].
  destruct (section_content p1 response) as [c1|]; [destruct S1 as [-> ->] | rewrite S1; reflexivity].
  destruct (section_content p2 response) as [c2|]; [destruct S2 as [-> ->] | rewrite S2; reflexivity].
  destruct (section_content p3 response) as [c3|]; [destruct S3 as [-> ->] | rewrite S3; reflexivity].
  destruct (section_content p4 response) as [c4|]; [destruct S4 as [-> ->] | rewrite S4; reflexivity].
  destruct (section_content p5 response) as [c5|]; [destruct S5 as [-> ->] | rewrite S5; reflexivity].
  reflexivity.
Qed.

Lemma Part000_extract_loop_five p1 p2 p3 p4 p5 response :
  match Part000.extract_loop response
          [("matchup", p1); ("taleOfTheTape", p2); ("verdicts", p3);
           ("hiddenTax", p4); ("tieBreaker", p5)] [] with
  | Failure e => Failure e
  | Success sections => Success (Route.sections_data sections)
  end
  = extraction [("matchup", p1); ("taleOfTheTape", p2); ("verdicts", p3);
                ("hiddenTax", p4); ("tieBreaker", p5)] response.
Proof.
  pose proof (Part000_section_step p1 response) as S1.
  pose proof (Part000_section_step p2 response) as S2.
  pose proof (Part000_section_step p3 response) as S3.
  pose proof (Part000_section_step p4 response) as S4.
  pose proof (Part000_section_step p5 response) as S5.
  unfold extraction, content_of. cbn [first_missing Part000.extract_loop obj_get String.eqb
    Ascii.eqb Bool.eqb].
  destruct (section_content p1 response) as [c1|]; [destruct S1 as [-> ->] | rewrite S1; reflexivity].
  destruct (section_content p2 response) as [c2|]; [destruct S2 as [-> ->] | rewrite S2; reflexivity].
  destruct (section_content p3 response) as [c3|]; [destruct S3 as [-> ->] | rewrite S3; reflexivity].
  destruct (section_content p4 response) as [c4|]; [destruct S4 as [-> ->] | rewrite S4; reflexivity].
  destruct (section_content p5 response) as [c5|]; [destruct S5 as [-> ->] | rewrite S5; reflexivity].
  reflexivity.
Qed.

Lemma Route_patterns_shaped :
  Forall (fun kp => section_shaped (snd kp) = true) Route.patterns.
Proof. repeat constructor; vm_compute; reflexivity. Qed.

Lemma Part000_patterns_shaped :
  Forall (fun kp => section_shaped (snd kp) = true) Part000.patterns.
Proof. repeat constructor; vm_compute; reflexivity. Qed.

End SectionExtraction.

Lemma Route_extractSections_spec response :
  Route.extractSections response = Return (extraction Route.patterns response).
Proof.
  unfold Route.extractSections, Route.patterns.
  rewrite <- Route_extract_loop_five by (vm_compute; reflexivity).
  destruct (Route.extract_loop response _ []); reflexivity.
Qed.

Lemma Part000_extractSections_spec response :
  Part000.extractSections response
  = Return (if negb (JS.truthy response) then Failure "Response is not a valid string"
            else if Nat.eqb (String.length (JS.trim response)) 0
                 then Failure "Response is empty"
                 else extraction Part000.patterns (JS.trim response)).
Proof.
  unfold Part000.extractSections, Part000.patterns.
  destruct (negb (JS.truthy response)); [reflexivity|].
  destruct (Nat.eqb (String.length (JS.trim response)) 0); [reflexivity|].
  rewrite <- Part000_extract_loop_five.
  destruct (Part000.extract_loop (JS.trim response) _ []); reflexivity.
Qed.

Lemma section_content_trimmed re text c :
  section_content re text = Some c -> trimmed_content c.
Proof.
  unfold section_content.
  destruct (RegExp.exec re text) as [ma|]; [|discriminate].
  destruct (RegExp.capture 1 ma) as [c0|]; [|discriminate].
  destruct (JS.truthy (JS.trim c0)) eqn:Ht; [|discriminate].
  intros H. inversion H; subst. split; [exact Ht | exists c0; reflexivity].
Qed.

(** What [extraction] returns for five patterns under the five keys. *)
Lemma extraction_five p1 p2 p3 p4 p5 text :
  match extraction [("matchup", p1); ("taleOfTheTape", p2); ("verdicts", p3);
                    ("hiddenTax", p4); ("tieBreaker", p5)] text with
  | Success s => five_contents s
  | Failure e => names_a_section e text
  end.
Proof.
  unfold extraction, content_of.
  cbn [first_missing obj_get String.eqb Ascii.eqb Bool.eqb].
  destruct (section_content p1 text) as [c1|] eqn:H1;
    [|exists "matchup"; split; [simpl; tauto | reflexivity]].
  destruct (section_content p2 text) as [c2|] eqn:H2;
    [|exists "taleOfTheTape"; split; [simpl; tauto | reflexivity]].
  destruct (section_content p3 text) as [c3|] eqn:H3;
    [|exists "verdicts"; split; [simpl; tauto | reflexivity]].
  destruct (section_content p4 text) as [c4|] eqn:H4;
    [|exists "hiddenTax"; split; [simpl; tauto | reflexivity]].
  destruct (section_content p5 text) as [c5|] eqn:H5;
    [|exists "tieBreaker"; split; [simpl; tauto | reflexivity]].
  repeat split; cbn [s_matchup s_taleOfTheTape s_verdicts s_hiddenTax s_tieBreaker];
    eapply section_content_trimmed; eassumption.
Qed.

(** C1, as stated, fails in part_000: on an empty reply its extractor
    returns a failure that names no section (and on a reply of white space
    only, the failure "Response is empty"). *)
Lemma extractSections_empty_reply_names_no_section :
  Part000.extractSections "" = Return (Failure "Response is not a valid string")
  /\ ~ names_a_section "Response is not a valid string" "".
Proof.
  split; [vm_compute; reflexivity|].
  intros (key & _ & Heq).
  apply (f_equal (String.get 0)) in Heq. vm_compute in Heq. discriminate Heq.
Qed.

(** C1, amended.  For an ASCII reply: in route.ts, for every such reply,
    and in part_000, for every such reply that is not blank (there on the
    trimmed reply), section extraction returns all five sections, each with
    content that is not empty and is trimmed, or the failure that names the
    first section, in the order matchup, taleOfTheTape, verdicts,
    hiddenTax, tieBreaker, whose heading is missing or whose captured
    content is empty after trimming; no other result exists.  On a blank
    reply part_000 fails before it looks for any section, with "Response is
    not a valid string" (empty reply) or "Response is empty" (white space
    only). *)
Theorem extractSections_all_or_first_missing (response : string)
    (Hascii : JS.is_ascii response = true) :
  Route.extractSections response = Return (extraction Route.patterns response)
  /\ Part000.extractSections response
     = Return (if negb (JS.truthy response) then Failure "Response is not a valid string"
               else if Nat.eqb (String.length (JS.trim response)) 0
                    then Failure "Response is empty"
                    else extraction Part000.patterns (JS.trim response))
  /\ match extraction Route.patterns response with
     | Success s => five_contents s
     | Failure e => names_a_section e response
                    /\ exists key, first_missing Route.patterns response = Some key
                                   /\ e = missing_message key response
     end
  /\ match extraction Part000.patterns (JS.trim response) with
     | Success s => five_contents s
     | Failure e => names_a_section e (JS.trim response)
                    /\ exists key, first_missing Part000.patterns (JS.trim response) = Some key
                                   /\ e = missing_message key (JS.trim response)
     end.
Proof.
  split; [apply Route_extractSections_spec|].
  split; [apply Part000_extractSections_spec|].
  split.
  - pose proof (extraction_five (snd (nth 0 Route.patterns ("", RegExp.literal "" "")))
                  (snd (nth 1 Route.patterns ("", RegExp.literal "" "")))
                  (snd (nth 2 Route.patterns ("", RegExp.literal "" "")))
                  (snd (nth 3 Route.patterns ("", RegExp.literal "" "")))
                  (snd (nth 4 Route.patterns ("", RegExp.literal "" ""))) response) as H.
    change (match extraction Route.patterns response with
            | Success s => five_contents s
            | Failure e => names_a_section e response
            end) in H.
    unfold extraction in *.
    destruct (first_missing Route.patterns response) as [key|]; [|exact H].
    split; [exact H | exists key; split; reflexivity].
  - pose proof (extraction_five (snd (nth 0 Part000.patterns ("", RegExp.literal "" "")))
                  (snd (nth 1 Part000.patterns ("", RegExp.literal "" "")))
                  (snd (nth 2 Part000.patterns ("", RegExp.literal "" "")))
                  (snd (nth 3 Part000.patterns ("", RegExp.literal "" "")))
                  (snd (nth 4 Part000.patterns ("", RegExp.literal "" "")))
                  (JS.trim response)) as H.
    change (match extraction Part000.patterns (JS.trim response) with
            | Success s => five_contents s
            | Failure e => names_a_section e (JS.trim response)
            end) in H.
    unfold extraction in *.
    destruct (first_missing Part000.patterns (JS.trim response)) as [key|]; [|exact H].
    split; [exact H | exists key; split; reflexivity].
Qed.

Lemma extractSections_all_or_first_missing_witness :
  Route.extractSections sample_reply = Return (extraction Route.patterns sample_reply).
Proof.
  refine (proj1 (extractSections_all_or_first_missing sample_reply _)).
  vm_compute. reflexivity.
Defined.

(* ===================================================================== *)
(** * Where the capture of a section ends *)
(* ===================================================================== *)

Section SectionEnds.
Import JS RegExp Matching.

(** Search returns the leftmost position where the pattern matches. *)
Lemma drop_get_cons i : forall text a rest,
  drop i text = String a rest ->
  String.get i text = Some a /\ drop (S i) text = rest.
Proof.
  induction i as [|i IH]; intros text a rest H.
  - simpl in H. subst. split; reflexivity.
  - destruct text as [|b text]; [discriminate|].
    cbn [drop] in H. destruct (IH text a rest H) as [Hg Hd].
    split; [exact Hg | exact Hd].
Qed.

Lemma search_leftmost re text : forall s pos prev ma,
  s = drop pos text ->
  prev = match pos with O => None | S j => String.get j text end ->
  search re prev s pos = Some ma ->
  pos <= index ma
  /\ match_at re text (index ma) <> None
  /\ (forall i, pos <= i < index ma -> match_at re text i = None)
  /\ exists y, match_at re text (index ma) = Some y /\ captures ma = m_caps y.
Proof.
  induction s as [|a s IH]; intros pos prev ma Hs Hprev; cbn [search].
  - destruct (m _ _ _ Some) as [y|] eqn:Hy; [|discriminate].
    intros H. inversion H; subst ma. cbn [index captures].
    assert (Hat : match_at re text pos = Some y).
    { unfold match_at, state_at. rewrite <- Hs, <- Hprev. exact Hy. }
    split; [lia|]. split; [rewrite Hat; discriminate|].
    split; [intros i Hi; lia | exists y; split; [exact Hat | reflexivity]].
  - destruct (m _ _ _ Some) as [y|] eqn:Hy.
    + intros H. inversion H; subst ma. cbn [index captures].
      assert (Hat : match_at re text pos = Some y).
      { unfold match_at, state_at. rewrite <- Hs, <- Hprev. exact Hy. }
      split; [lia|]. split; [rewrite Hat; discriminate|].
      split; [intros i Hi; lia | exists y; split; [exact Hat | reflexivity]].
    + intros H. symmetry in Hs. destruct (drop_get_cons pos text a s Hs) as [Hg Hd].
      apply (IH (S pos) (Some a) ma) in H; [| symmetry; exact Hd | symmetry; exact Hg].
      destruct H as (Hle & Hne & Hmin & Hy').
      split; [lia|]. split; [exact Hne|]. split; [|exact Hy'].
      intros i Hi. destruct (Nat.eq_dec i pos) as [->|Hneq].
      * unfold match_at, state_at. rewrite Hs, <- Hprev. exact Hy.
      * apply Hmin. lia.
Qed.

Lemma exec_leftmost re text ma :
  exec re text = Some ma ->
  (forall i, i < index ma -> match_at re text i = None)
  /\ exists y, match_at re text (index ma) = Some y /\ captures ma = m_caps y.
Proof.
  intros H. apply (search_leftmost re text text 0 None ma eq_refl eq_refl) in H
    as (_ & _ & Hmin & Hy).
  split; [intros i Hi; apply Hmin; lia | exact Hy].
Qed.

Lemma drop_app_length a : forall b, drop (String.length a) (a ++ b) = b.
Proof. induction a as [|c a IH]; intros b; [reflexivity|]. rewrite app_cons. simpl. apply IH. Qed.

Lemma drop_split i : forall text, i <= String.length text ->
  exists pre, text = pre ++ drop i text /\ String.length pre = i.
Proof.
  induction i as [|i IH]; intros text Hi.
  - exists EmptyString. split; reflexivity.
  - destruct text as [|c text]; [simpl in Hi; lia|].
    destruct (IH text) as (pre & Hpre & Hlen); [simpl in Hi; lia|].
    exists (String c pre). rewrite app_cons. cbn [drop]. split; [f_equal; exact Hpre|].
    simpl. rewrite Hlen. reflexivity.
Qed.

Lemma index_in_text re text ma :
  exec re text = Some ma -> index ma <= String.length text.
Proof.
  unfold exec. intros H. apply search_inv in H as (pre & suf & prev & y & Htext & _ & ->).
  cbn [index]. rewrite Htext, string_app_length. lia.
Qed.

(** A match of a section pattern, taken apart: the reply is what precedes
    the match, the heading with the white space after it, the capture, and
    what follows. *)
Lemma section_exec_parts re text ma heads tail :
  split_section (ast re) = Some (heads, tail) ->
  ngroups re = 1 ->
  exec re text = Some ma ->
  exists before lead c after,
    text = before ++ lead ++ c ++ after
    /\ index ma = String.length before
    /\ captures ma = [Some c]
    /\ (exists z, m_rest z = after /\ m (ignoreCase re) tail z Some <> None)
    /\ (forall c1 c2, c = c1 ++ c2 -> c2 <> EmptyString ->
          exists z, m_rest z = c2 ++ after /\ m (ignoreCase re) tail z Some = None).
Proof.
  intros Hsplit Hn Hexec.
  pose proof (index_in_text re text ma Hexec) as Hidx.
  destruct (exec_leftmost re text ma Hexec) as (_ & y & Hy & Hcaps).
  apply split_section_chain in Hsplit as (Hast & Hheads & Htl).
  unfold match_at in Hy. rewrite Hast in Hy.
  apply (chain_inv _ _ _ _ _ _ Hheads) in Hy as (x1 & (lead0 & Hx1r & _) & Hc1 & Hm).
  cbn [state_at m_caps] in Hc1. rewrite Hn in Hc1.
  apply (section_body_match _ _ _ _ Htl Hc1) in Hm
    as (ws & c & after & Hrest & _ & _ & Hcy & _ & Htail & Hmin).
  destruct (drop_split (index ma) text Hidx) as (before & Htext & Hlen).
  exists before, (lead0 ++ ws), c, after.
  split.
  { rewrite Htext at 1. f_equal. cbn [state_at m_rest] in Hx1r.
    rewrite Hx1r, Hrest, string_app_assoc. reflexivity. }
  split; [symmetry; exact Hlen|].
  split; [rewrite Hcaps; exact Hcy|].
  split; [exact Htail | exact Hmin].
Qed.

(** ** The look-ahead for the next marker *)

Lemma char_eqb_hash ic a : char_eqb ic "#" a = Ascii.eqb "#" a.
Proof. destruct ic, a as [[] [] [] [] [] [] [] []]; reflexivity. Qed.

Lemma char_eqb_dot ic a : char_eqb ic "." a = Ascii.eqb "." a.
Proof. destruct ic, a as [[] [] [] [] [] [] [] []]; reflexivity. Qed.

Lemma char_eqb_digit ic n a :
  In n ["2"; "3"; "4"; "5"]%char -> char_eqb ic n a = Ascii.eqb n a.
Proof.
  intros [<-|[<-|[<-|[<-|[]]]]]; destruct ic, a as [[] [] [] [] [] [] [] []]; reflexivity.
Qed.

Lemma ltrim_split r :
  exists ws, r = ws ++ ltrim r /\ all is_space ws = true /\ stops is_space (ltrim r).
Proof.
  induction r as [|a r IH].
  - exists EmptyString. repeat split.
  - cbn [ltrim]. destruct (is_space a) eqn:Ha.
    + destruct IH as (ws & Hr & Hws & Hstop). exists (String a ws).
      rewrite app_cons, <- Hr. repeat split; [simpl; rewrite Ha; exact Hws | exact Hstop].
    + exists EmptyString. repeat split. exact Ha.
Qed.

Lemma ltrim_app_spaces ws : forall r,
  all is_space ws = true -> ltrim (ws ++ r) = ltrim r.
Proof.
  induction ws as [|a ws IH]; intros r H; [reflexivity|].
  simpl in H. apply andb_prop in H as [Ha Hws].
  rewrite app_cons. cbn [ltrim]. rewrite Ha. apply IH. exact Hws.
Qed.

(** Whatever the greedy star returns comes from its continuation after a run
    of the atom. *)
Lemma star_greedy_inv p k z : forall rest x,
  m_rest x = rest ->
  star_greedy p rest x k = Some z ->
  exists run rest', rest = run ++ rest' /\ all p run = true /\ k (skip run x) = Some z.
Proof.
  induction rest as [|a rest IH]; intros x Hx; cbn [star_greedy].
  - intros H. exists EmptyString, EmptyString. repeat split. exact H.
  - destruct (p a) eqn:Hpa.
    + destruct (star_greedy p rest (advance a rest x) k) as [z0|] eqn:Hs.
      * intros H. inversion H; subst z0.
        apply (IH (advance a rest x) eq_refl) in Hs as (run & rest' & Hr & Hall & Hk).
        exists (String a run), rest'. rewrite app_cons, <- Hr.
        repeat split; [simpl; rewrite Hpa; exact Hall|].
        rewrite (skip_cons _ _ _ _ _ Hx). exact Hk.
      * intros H. exists EmptyString, (String a rest). repeat split. exact H.
    + intros H. exists EmptyString, (String a rest). repeat split. exact H.
Qed.

Lemma marker_regex_sem ic n z :
  In n ["2"; "3"; "4"; "5"]%char ->
  (m ic (marker_regex n) z Some <> None <-> starts_marker n (m_rest z) = true).
Proof.
  intros Hn. unfold marker_regex. rewrite !m_seq. cbn [m]. unfold m_single at 1.
  destruct (m_rest z) as [|a1 r1] eqn:Hz; [split; [congruence | discriminate]|].
  rewrite char_eqb_hash.
  destruct (Ascii.eqb_spec "#" a1) as [<-|Hne1];
    [|split; [congruence | intros H; simpl in H;
              destruct a1 as [[] [] [] [] [] [] [] []]; try discriminate; congruence]].
  unfold m_single at 1. cbn [advance m_rest].
  destruct r1 as [|a2 r2]; [split; [congruence | discriminate]|].
  rewrite char_eqb_hash.
  destruct (Ascii.eqb_spec "#" a2) as [<-|Hne2];
    [|split; [congruence | intros H; simpl in H;
              destruct a2 as [[] [] [] [] [] [] [] []]; try discriminate; congruence]].
  unfold m_single at 1. cbn [advance m_rest].
  destruct r2 as [|a3 r3]; [split; [congruence | discriminate]|].
  rewrite char_eqb_hash.
  destruct (Ascii.eqb_spec "#" a3) as [<-|Hne3];
    [|split; [congruence | intros H; simpl in H;
              destruct a3 as [[] [] [] [] [] [] [] []]; try discriminate; congruence]].
  set (x3 := advance "#" r3 _).
  unfold space_star.
  rewrite (m_star_greedy ic _ (class_match ic false [CSpace true])) by reflexivity.
  cbn [starts_marker]. change (m_rest x3) with r3.
  set (k := fun y : mstate =>
              m_single (char_eqb ic n) y (fun y0 => m_single (char_eqb ic ".") y0 Some)).
  assert (Hk : forall y, k y <> None <->
                 exists d rest, m_rest y = String d (String "." rest) /\ Ascii.eqb d n = true).
  { intros y. unfold k, m_single.
    destruct (m_rest y) as [|d [|e rest]] eqn:Hy.
    - split; [congruence | intros (? & ? & ? & _); discriminate].
    - rewrite (char_eqb_digit ic n d Hn). destruct (Ascii.eqb n d); cbn [advance m_rest];
        (split; [congruence | intros (? & ? & ? & _); discriminate]).
    - rewrite (char_eqb_digit ic n d Hn). cbn [advance m_rest].
      rewrite char_eqb_dot, (Ascii.eqb_sym n d).
      destruct (Ascii.eqb d n) eqn:Hd.
      + destruct (Ascii.eqb_spec "." e) as [<-|Hne].
        * split; [intros _; exists d, rest; split; [reflexivity | exact Hd] | discriminate].
        * split; [congruence|]. intros (d' & rest' & Heq & _). inversion Heq; subst.
          exfalso. apply Hne. reflexivity.
      + split; [congruence|]. intros (d' & rest' & Heq & Hd'). inversion Heq; subst.
        congruence. }
  split.
  - intros H. destruct (star_greedy (class_match ic false [CSpace true]) r3 x3 k) as [w|] eqn:Hs;
      [|congruence].
    apply (star_greedy_inv _ _ _ r3 x3 eq_refl) in Hs as (run & rest' & Hr & Hall & Hkw).
    assert (Hne : k (skip run x3) <> None) by (rewrite Hkw; discriminate).
    apply Hk in Hne as (d & rest & Hrest & Hd).
    destruct (skip_spec run x3 rest' Hr) as (Hr' & _ & _). rewrite Hr' in Hrest. subst rest'.
    rewrite all_space_class in Hall.
    rewrite Hr, ltrim_app_spaces by exact Hall.
    cbn [ltrim].
    assert (Hsp : is_space d = false).
    { apply Ascii.eqb_eq in Hd. subst d.
      destruct Hn as [<-|[<-|[<-|[<-|[]]]]]; reflexivity. }
    rewrite Hsp. exact Hd.
  - intros H. destruct (ltrim_split r3) as (ws & Hr & Hws & Hstop).
    destruct (ltrim r3) as [|d [|e rest]] eqn:Hl; try discriminate.
    destruct (Ascii.eqb_spec e ".") as [->|Hne];
      [|destruct e as [[] [] [] [] [] [] [] []]; try discriminate; exfalso; apply Hne; reflexivity].
    assert (Hkx : k (skip ws x3) <> None).
    { apply Hk. exists d, rest. destruct (skip_spec ws x3 _ Hr) as (Hr' & _ & _).
      split; [exact Hr' | exact H]. }
    destruct (k (skip ws x3)) as [w|] eqn:Hkw; [|congruence].
    rewrite Hr at 1.
    rewrite (star_greedy_first _ k w ws x3 (String d (String "." rest)) Hr);
      [discriminate | | | exact Hkw].
    + rewrite all_space_class. exact Hws.
    + unfold stops. rewrite (space_class ic). exact Hstop.
Qed.

Lemma next_number_digit key n :
  next_number key = Some n -> In n ["2"; "3"; "4"; "5"]%char.
Proof.
  unfold next_number.
  destruct (String.eqb key "matchup"); [intros H; inversion H; simpl; tauto|].
  destruct (String.eqb key "taleOfTheTape"); [intros H; inversion H; simpl; tauto|].
  destruct (String.eqb key "verdicts"); [intros H; inversion H; simpl; tauto|].
  destruct (String.eqb key "hiddenTax"); [intros H; inversion H; simpl; tauto|].
  discriminate.
Qed.

(** The tail of the pattern of section [key] holds exactly where the marker
    of the next expected section begins, or the text ends. *)
Lemma tail_of_sem ic key z :
  m ic (tail_of key) z Some <> None
  <-> match next_number key with
      | Some n => m_rest z = EmptyString \/ starts_marker n (m_rest z) = true
      | None => m_rest z = EmptyString
      end.
Proof.
  unfold tail_of. destruct (next_number key) as [n|] eqn:Hkey.
  - pose proof (marker_regex_sem ic n z (next_number_digit key n Hkey)) as Hm.
    cbn [m]. destruct (m ic (marker_regex n) z Some) as [w|] eqn:Hw.
    + split; [intros _; right; apply Hm; discriminate | discriminate].
    + destruct (m_rest z) as [|a r] eqn:Hz.
      * split; [intros _; left; reflexivity | discriminate].
      * split; [congruence|]. intros [H|H]; [discriminate|].
        exfalso. apply Hm in H. apply H. reflexivity.
  - cbn [m]. destruct (m_rest z); split; congruence.
Qed.

Lemma patterns_tails :
  Forall (fun kp => ngroups (snd kp) = 1
                    /\ exists heads, split_section (ast (snd kp)) = Some (heads, tail_of (fst kp)))
         (Route.patterns ++ Part000.patterns).
Proof.
  repeat constructor; try (vm_compute; reflexivity);
    (eexists; vm_compute; reflexivity).
Qed.

End SectionEnds.

(** C8, as stated, fails.  A reply whose first heading is repeated: the
    first occurrence is the one matched, but the content captured for the
    section runs through the second occurrence of the heading and stops at
    the marker of section 2 only, in both revisions. *)
Lemma capture_runs_through_a_repeated_heading :
  (exists s, Route.extractSections repeated_heading_reply = Return (Success s)
             /\ s_matchup s = JS.join nl ["React vs Vue"; "### 1. The Matchup"; "Vue vs React"])
  /\ (exists s, Part000.extractSections repeated_heading_reply = Return (Success s)
             /\ s_matchup s = JS.join nl ["React vs Vue"; "### 1. The Matchup"; "Vue vs React"]).
Proof. split; eexists; split; vm_compute; reflexivity. Qed.

(** C8, amended.  The match of a section's pattern starts at the first
    position of the reply where the pattern matches (the first occurrence of
    the heading wins), and the content captured ends where the marker of the
    next expected section, [### n+1.], first begins after the heading, or at
    the end of the reply when no such marker follows and for the last
    section; a heading with any other number, a repetition of the same
    heading included, does not end it.  Stated for an ASCII reply, on which
    the white space of the marker is that of the runtime. *)
Theorem capture_ends_at_next_expected_marker
    (key : string) (pattern : RegExp.t) (text : string) (ma : RegExp.match_array)
    (Hascii : JS.is_ascii text = true)
    (Hpattern : In (key, pattern) Route.patterns \/ In (key, pattern) Part000.patterns)
    (Hmatch : RegExp.exec pattern text = Some ma) :
  exists before lead c after,
    text = before ++ lead ++ c ++ after
    /\ RegExp.index ma = String.length before
    /\ RegExp.capture 1 ma = Some c
    /\ (forall i, i < RegExp.index ma -> match_at pattern text i = None)
    /\ ends_at_next_expected key c after.
Proof.
  assert (Hin : In (key, pattern) (Route.patterns ++ Part000.patterns))
    by (apply in_or_app; exact Hpattern).
  pose proof (proj1 (List.Forall_forall _ _) patterns_tails _ Hin) as (Hn & heads & Hsplit).
  cbn [fst snd] in *.
  destruct (section_exec_parts pattern text ma heads _ Hsplit Hn Hmatch)
    as (before & lead & c & after & Htext & Hidx & Hcaps & (z & Hz & Htail) & Hmin).
  exists before, lead, c, after.
  split; [exact Htext|]. split; [exact Hidx|].
  split; [unfold RegExp.capture; rewrite Hcaps; reflexivity|].
  split; [apply (exec_leftmost pattern text ma Hmatch)|].
  unfold ends_at_next_expected.
  apply tail_of_sem in Htail. rewrite Hz in Htail.
  destruct (next_number key) as [n|] eqn:Hkey; [|exact Htail].
  split; [exact Htail|].
  intros c1 c2 Hc Hne. destruct (Hmin c1 c2 Hc Hne) as (z' & Hz' & Hfail).
  destruct (starts_marker n (c2 ++ after)) eqn:Hs; [|reflexivity].
  exfalso. assert (Hok : RegExp.m (RegExp.ignoreCase pattern) (tail_of key) z' Some <> None).
  { apply tail_of_sem. rewrite Hkey, Hz'. right. exact Hs. }
  apply Hok. exact Hfail.
Qed.

Lemma capture_ends_at_next_expected_marker_witness :
  exists before lead c after,
    repeated_heading_reply = before ++ lead ++ c ++ after
    /\ RegExp.index repeated_heading_match = String.length before
    /\ RegExp.capture 1 repeated_heading_match = Some c
    /\ (forall i, i < RegExp.index repeated_heading_match ->
          match_at matchup_pattern repeated_heading_reply i = None)
    /\ ends_at_next_expected "matchup" c after.
Proof.
  apply (capture_ends_at_next_expected_marker "matchup" matchup_pattern
           repeated_heading_reply repeated_heading_match).
  - vm_compute. reflexivity.
  - right. left. reflexivity.
  - vm_compute. reflexivity.
Defined.

(* ===================================================================== *)
(** * The hidden-tax parser *)
(* ===================================================================== *)

Section HiddenTaxFacts.
Import JS RegExp Matching.

Lemma char_eqb_refl ic c : char_eqb ic c c = true.
Proof. unfold char_eqb. apply Ascii.eqb_refl. Qed.

(** A literal text at the head of the remaining text is stepped over. *)
Lemma m_lits ic l r2 k : forall x rest,
  m_rest x = l ++ rest ->
  m ic (chain (lits l) r2) x k = m ic r2 (skip l x) k.
Proof.
  induction l as [|c l IH]; intros x rest Hx; [reflexivity|].
  cbn [lits chain]. rewrite m_seq. cbn [m]. unfold m_single.
  rewrite app_cons in Hx. rewrite Hx, char_eqb_refl.
  rewrite (skip_cons _ _ _ _ _ Hx). apply (IH _ rest). reflexivity.
Qed.

(** The optional one-character atom, greedy. *)
Lemma m_opt_greedy ic r p x k :
  atom_pred ic r = Some p ->
  m ic (RQuant 0 (Some 1) true r) x k
  = match m_rest x with
    | String a rest =>
        if p a then match k (advance a rest x) with
                    | Some z => Some z
                    | None => k x
                    end
        else k x
    | EmptyString => k x
    end.
Proof.
  intros Hp. cbn [m]. rewrite (atom_pred_groups _ _ _ Hp). cbn [Nat.add].
  cbn [repeat_matcher]. cbn [Nat.eqb negb andb clear_caps pred option_map].
  rewrite (atom_pred_m _ _ _ Hp). unfold m_single.
  destruct (m_rest x) as [|a rest] eqn:Hrest; [reflexivity|].
  destruct (p a); [|reflexivity].
  rewrite advance_pos_neq. cbn [String.length repeat_matcher]. reflexivity.
Qed.

Lemma in_clause_here_has s : in_clause_here s = true -> has_in_clause s = true.
Proof. intros H. destruct s; cbn [has_in_clause]; rewrite H; reflexivity. Qed.

Lemma has_in_clause_app a : forall b, has_in_clause b = true -> has_in_clause (a ++ b) = true.
Proof.
  induction a as [|c a IH]; intros b H; [exact H|].
  rewrite app_cons. cbn [has_in_clause]. rewrite (IH b H). apply orb_true_r.
Qed.

Lemma char_eqb_i a : char_eqb true "i" a = Ascii.eqb a "i" || Ascii.eqb a "I".
Proof. destruct a as [[] [] [] [] [] [] [] []]; reflexivity. Qed.

Lemma char_eqb_n a : char_eqb true "n" a = Ascii.eqb a "n" || Ascii.eqb a "N".
Proof. destruct a as [[] [] [] [] [] [] [] []]; reflexivity. Qed.

(** A pattern that looks for "in" and white space in its top-level sequence
    matches only a text in which they occur. *)
Lemma forces_in_clause_match r : forall x k y,
  forces_in_clause r = true ->
  m true r x k = Some y ->
  has_in_clause (m_rest x) = true.
Proof.
  induction r as [| c | | neg items | r1 IH1 r2 IH2 | r1 IH1 r2 IH2
                  | min max greedy r IH | idx r IH | pos r IH | | | pos];
    intros x k y Hf; try discriminate.
  assert (Hgen : forces_in_clause r2 = true -> m true (RSeq r1 r2) x k = Some y ->
                 has_in_clause (m_rest x) = true).
  { intros Hf2 Hm. rewrite m_seq in Hm.
    apply forwards_m in Hm as (x1 & (consumed & Hr & _) & Hm).
    rewrite Hr. apply has_in_clause_app. eapply IH2; eassumption. }
  cbn [forces_in_clause] in Hf.
  destruct r1; try (apply Hgen; exact Hf).
  destruct c as [[] [] [] [] [] [] [] []]; try (apply Hgen; exact Hf).
  destruct r2; try (apply Hgen; exact Hf).
  destruct r2_1; try (apply Hgen; exact Hf).
  destruct c as [[] [] [] [] [] [] [] []]; try (apply Hgen; exact Hf).
  destruct r2_2; try (apply Hgen; exact Hf).
  destruct r2_2_1; try (apply Hgen; exact Hf).
  destruct min as [|[|min]]; try (apply Hgen; exact Hf).
  destruct max; try (apply Hgen; exact Hf).
  destruct r2_2_1; try (apply Hgen; exact Hf).
  destruct negated; try (apply Hgen; exact Hf).
  destruct items as [|[| |[]| |] [|? ?]]; try (apply Hgen; exact Hf).
  clear Hgen Hf IH1 IH2. intros Hm. apply in_clause_here_has.
  rewrite !m_seq in Hm. cbn [m] in Hm. unfold m_single at 1 in Hm.
  destruct (m_rest x) as [|a [|b [|c rest]]]; try discriminate.
  - change (char_eqb true "i" a) with (char_eqb true "i" a) in Hm.
    destruct (char_eqb true "i" a); [|discriminate].
    unfold m_single at 1 in Hm. cbn [advance m_rest] in Hm. discriminate.
  - destruct (char_eqb true "i" a); [|discriminate].
    unfold m_single at 1 in Hm. cbn [advance m_rest] in Hm.
    destruct (char_eqb true "n" b); [|discriminate].
    cbn [Nat.add repeat_matcher Nat.eqb negb clear_caps groups_of m] in Hm.
    unfold m_single at 1 in Hm. cbn [advance m_rest] in Hm. discriminate.
  - cbn [in_clause_here]. rewrite <- char_eqb_i, <- char_eqb_n.
    destruct (char_eqb true "i" a); [|discriminate].
    unfold m_single at 1 in Hm. cbn [advance m_rest] in Hm.
    destruct (char_eqb true "n" b); [|discriminate].
    cbn [Nat.add repeat_matcher Nat.eqb negb clear_caps groups_of m] in Hm.
    unfold m_single at 1 in Hm. cbn [advance m_rest] in Hm.
    rewrite (space_class true) in Hm. destruct (is_space c); [reflexivity | discriminate].
Qed.

(** Such a pattern finds nothing in a text without an "in" clause. *)
Lemma exec_without_in_clause re text :
  ignoreCase re = true ->
  forces_in_clause (ast re) = true ->
  has_in_clause text = false ->
  exec re text = None.
Proof.
  intros Hic Hf Hno. destruct (exec re text) as [ma|] eqn:Hexec; [|reflexivity].
  unfold exec in Hexec.
  apply search_inv in Hexec as (pre & suf & prev & y & Htext & Hm & _).
  rewrite Hic in Hm. apply (forces_in_clause_match _ _ _ _ Hf) in Hm. cbn [m_rest] in Hm.
  rewrite Htext, (has_in_clause_app pre suf Hm) in Hno. discriminate.
Qed.

Lemma skip_moved run : forall x rest',
  m_rest x = run ++ rest' -> skip run x = moved run rest' x.
Proof.
  induction run as [|c run IH]; intros x rest' Hx.
  - rewrite app_nil_l in Hx. rewrite skip_nil. destruct x as [pv rs ps cs].
    cbn in Hx. subst rs. unfold moved. cbn. rewrite Nat.add_0_r. reflexivity.
  - rewrite app_cons in Hx. rewrite (skip_cons c run c (run ++ rest') x Hx).
    rewrite (IH (advance c (run ++ rest') x) rest' eq_refl). unfold moved, advance. cbn.
    rewrite Nat.add_succ_r. reflexivity.
Qed.

Lemma lits_run ic l r2 k x rest :
  m_rest x = l ++ rest ->
  m ic (chain (lits l) r2) x k = m ic r2 (moved l rest x) k.
Proof. intros Hx. rewrite (m_lits ic l r2 k x rest Hx), (skip_moved l x rest Hx). reflexivity. Qed.

Lemma plus_greedy_run ic r p x k a run rest' z :
  atom_pred ic r = Some p ->
  m_rest x = String a run ++ rest' ->
  all p (String a run) = true -> stops p rest' ->
  k (moved (String a run) rest' x) = Some z ->
  m ic (RQuant 1 None true r) x k = Some z.
Proof.
  intros Hp Hx Hall Hstop Hk. rewrite <- (skip_moved _ _ _ Hx) in Hk.
  rewrite (m_plus_greedy _ _ _ _ _ Hp). unfold m_single.
  rewrite app_cons in Hx. rewrite Hx.
  cbn [all] in Hall. apply andb_true_iff in Hall as [Ha Hall]. rewrite Ha.
  cbn [advance m_rest]. apply star_greedy_first; try assumption; [reflexivity|].
  rewrite <- (skip_cons a run a (run ++ rest') x Hx). exact Hk.
Qed.

Lemma star_greedy_run ic r p x k run rest' z :
  atom_pred ic r = Some p ->
  m_rest x = run ++ rest' ->
  all p run = true -> stops p rest' ->
  k (moved run rest' x) = Some z ->
  m ic (RQuant 0 None true r) x k = Some z.
Proof.
  intros Hp Hx Hall Hstop Hk. rewrite <- (skip_moved _ _ _ Hx) in Hk.
  rewrite (m_star_greedy _ _ _ _ _ Hp), Hx.
  apply star_greedy_first; assumption.
Qed.

Lemma opt_greedy_run ic r p x k a rest z :
  atom_pred ic r = Some p ->
  m_rest x = String a rest -> p a = true ->
  k (moved (String a EmptyString) rest x) = Some z ->
  m ic (RQuant 0 (Some 1) true r) x k = Some z.
Proof.
  intros Hp Hx Ha Hk. rewrite <- (skip_moved (String a EmptyString) x rest Hx) in Hk.
  rewrite (m_opt_greedy _ _ _ _ _ Hp), Hx, Ha.
  rewrite (skip_cons a EmptyString a rest x Hx), skip_nil in Hk. rewrite Hk. reflexivity.
Qed.

Lemma rtrim_nonspace_last a : forall s,
  is_space a = false -> rtrim (s ++ String a EmptyString) = s ++ String a EmptyString.
Proof.
  intros s Ha. induction s as [|c s IH].
  - rewrite app_nil_l. cbn [rtrim]. rewrite Ha. reflexivity.
  - rewrite app_cons. cbn [rtrim]. rewrite IH.
    destruct s; [rewrite app_nil_l | rewrite app_cons]; reflexivity.
Qed.

Lemma not_comma_class a : class_match true true [CChar ","] a = not_comma a.
Proof. destruct a as [[] [] [] [] [] [] [] []]; reflexivity. Qed.

Lemma not_sentence_end_class a :
  class_match true true [CChar "."; CChar "!"; CChar "?"] a = not_sentence_end a.
Proof. destruct a as [[] [] [] [] [] [] [] []]; reflexivity. Qed.

Lemma begins_stops s : begins_with_text s = true -> stops (class_match true false [CSpace true]) s.
Proof.
  destruct s as [|a s]; [discriminate|]. cbn [begins_with_text stops].
  rewrite space_class. intros H. apply negb_true_iff. exact H.
Qed.

(** The pattern without a timeframe matches the template sentence at its
    beginning and captures the two texts. *)
Lemma template_found re tech warning :
  nth_error Part000.alternativePatterns 1 = Some re ->
  begins_with_text tech = true -> all not_comma tech = true ->
  begins_with_text warning = true -> all not_sentence_end warning = true ->
  exists mtext,
    exec re (template_text tech warning) = Some (mkmatch mtext [Some tech; Some warning] 0).
Proof.
  intros Hre Ht Htc Hw Hwc. injection Hre as <-.
  set (re := literal _ _).
  assert (Hm : exists y,
    m (ignoreCase re) (ast re)
      (mkstate None (template_text tech warning) 0 (List.repeat None (ngroups re))) Some
    = Some y /\ m_caps y = [Some tech; Some warning]).
  { replace (ignoreCase re) with true by (vm_compute; reflexivity).
    replace (ngroups re) with 2 by (vm_compute; reflexivity).
    replace (ast re) with
      (chain (lits "If you choose")
         (RSeq (RQuant 1 None true (RClass false [CSpace true]))
         (RSeq (RGroup 1 (RQuant 1 None true (RClass true [CChar ","])))
         (RSeq (RQuant 0 (Some 1) true (RChar ","))
         (RSeq (RQuant 0 None true (RClass false [CSpace true]))
         (chain (lits "be prepared to pay the tax of")
            (RSeq (RQuant 1 None true (RClass false [CSpace true]))
                  (RGroup 2 (RQuant 1 None true
                               (RClass true [CChar "."; CChar "!"; CChar "?"]))))))))))
      by (vm_compute; reflexivity).
    clear re. cbn [List.repeat].
    destruct tech as [|t0 tech']; [discriminate|].
    destruct warning as [|w0 warning']; [discriminate|].
    set (tech := String t0 tech') in *. set (warning := String w0 warning') in *.
    eexists. split.
    - rewrite (lits_run true "If you choose" _ _ _
                 (" " ++ tech ++ ", be prepared to pay the tax of " ++ warning ++ "."))
        by reflexivity.
      rewrite m_seq.
      eapply (plus_greedy_run true _ _ _ _ " " EmptyString
                (tech ++ ", be prepared to pay the tax of " ++ warning ++ "."));
        [reflexivity | reflexivity | reflexivity | apply begins_stops; exact Ht |].
      rewrite m_seq, m_group.
      eapply (plus_greedy_run true _ _ _ _ t0 tech'
                (", be prepared to pay the tax of " ++ warning ++ "."));
        [reflexivity | reflexivity
         | rewrite (all_ext _ _ _ not_comma_class); exact Htc | reflexivity |].
      rewrite m_seq.
      eapply (opt_greedy_run true _ _ _ _ "," (" be prepared to pay the tax of " ++ warning ++ "."));
        [reflexivity | reflexivity | reflexivity |].
      rewrite m_seq.
      eapply (star_greedy_run true _ _ _ _ " " ("be prepared to pay the tax of " ++ warning ++ "."));
        [reflexivity | reflexivity | reflexivity | reflexivity |].
      rewrite (lits_run true "be prepared to pay the tax of" _ _ _ (" " ++ warning ++ "."))
        by reflexivity.
      rewrite m_seq.
      eapply (plus_greedy_run true _ _ _ _ " " EmptyString (warning ++ "."));
        [reflexivity | reflexivity | reflexivity | apply begins_stops; exact Hw |].
      rewrite m_group.
      eapply (plus_greedy_run true _ _ _ _ w0 warning' ".");
        [reflexivity | reflexivity
         | rewrite (all_ext _ _ _ not_sentence_end_class); exact Hwc | reflexivity |].
      reflexivity.
    - cbn [moved set_cap m_caps m_pos m_rest set_nth pred].
      rewrite !(Nat.add_comm _ (String.length _)), !Nat.add_sub.
      change (String t0 tech' ++ ", be prepared to pay the tax of " ++ warning ++ ".")
        with (tech ++ ", be prepared to pay the tax of " ++ warning ++ ".").
      change (String w0 warning' ++ ".") with (warning ++ ".").
      rewrite !substring0_app. reflexivity. }
  destruct Hm as (y & Hy & Hc). eexists. unfold exec.
  rewrite (search_here _ _ _ _ _ Hy), Hc. reflexivity.
Qed.


Lemma trim_template tech warning :
  trim (template_text tech warning) = template_text tech warning.
Proof.
  unfold trim, template_text.
  change (ltrim ("If you choose " ++ tech ++ ", be prepared to pay the tax of " ++ warning ++ "."))
    with ("If you choose " ++ tech ++ ", be prepared to pay the tax of " ++ warning ++ ".").
  rewrite <- !string_app_assoc. apply rtrim_nonspace_last. reflexivity.
Qed.

Lemma begins_truthy s : begins_with_text s = true -> truthy s = true.
Proof. destruct s; [discriminate | reflexivity]. Qed.

Lemma begins_trim_length s :
  begins_with_text s = true -> Nat.eqb (String.length (trim s)) 0 = false.
Proof.
  destruct s as [|a s]; [discriminate|]. cbn [begins_with_text]. intros H.
  apply negb_true_iff in H. pose proof (trim_nonspace_head a s H) as Ht.
  destruct (trim (String a s)); [discriminate | reflexivity].
Qed.

Lemma parseHiddenTax_template tech warning :
  begins_with_text tech = true -> all not_comma tech = true ->
  begins_with_text warning = true -> all not_sentence_end warning = true ->
  has_in_clause (template_text tech warning) = false ->
  Part000.parseHiddenTax (template_text tech warning)
  = Return (Success (mkHiddenTax (trim tech) (trim warning) "6 months"
                       (trim warning ++ " expected in 6 months"))).
Proof.
  intros Ht Htc Hw Hwc Hno. unfold Part000.parseHiddenTax.
  rewrite trim_template.
  replace (truthy (template_text tech warning)) with true by reflexivity.
  replace (Nat.eqb (String.length (template_text tech warning)) 0) with false by reflexivity.
  cbn [negb].
  rewrite (exec_without_in_clause Part000.tax_regex _ eq_refl eq_refl Hno).
  cbn [has negb orb]. unfold Part000.alternativePatterns.
  cbn [Part000.alternative_loop].
  assert (H0 : forall re, nth_error Part000.alternativePatterns 0 = Some re ->
                 exec re (template_text tech warning) = None).
  { intros re Hre. injection Hre as <-.
    apply exec_without_in_clause; [vm_compute; reflexivity | vm_compute; reflexivity | exact Hno]. }
  rewrite (H0 _ eq_refl). clear H0.
  cbn [has andb].
  destruct (template_found _ tech warning eq_refl Ht Htc Hw Hwc) as (mtext & Hex).
  rewrite Hex.
  unfold has, cap, has_capture, capture_or_empty, capture. cbn [captures nth pred].
  rewrite (begins_truthy _ Ht), (begins_truthy _ Hw).
  cbn [andb negb Nat.ltb Nat.leb option_map Part000.default_timeframe captures
       Part000.assign nth pred orb].
  rewrite (begins_truthy _ Ht), (begins_truthy _ Hw). cbn [negb orb].
  rewrite (begins_trim_length _ Ht), (begins_trim_length _ Hw).
  reflexivity.
Qed.

Lemma parseHiddenTax_impact content tax :
  Part000.parseHiddenTax content = Return (Success tax) ->
  impact tax = warning tax ++ " expected in " ++ timeframe tax.
Proof.
  unfold Part000.parseHiddenTax. cbv zeta.
  repeat match goal with
         | |- context [if ?b then _ else _] => destruct b
         | |- context [match ?b with _ => _ end] => destruct b
         end.
  all: cbn [try_catch]; intros H; try discriminate; injection H as <-; reflexivity.
Qed.

End HiddenTaxFacts.

(** C5, as stated, fails.  A sentence of the template with no timeframe
    clause, whose warning has a word ending in "in": the first alternative
    pattern, [...([^.!?]+)[.!?]?\s*in\s+([^.!?]+)], cuts the warning inside
    that word and reads what follows as the timeframe. *)
Lemma timeframe_read_inside_a_word :
  Part000.parseHiddenTax (template_text "Webpack" "plugin sprawl")
  = Return (Success (mkHiddenTax "Webpack" "plug" "sprawl" "plug expected in sprawl"))
  /\ "sprawl" <> "6 months".
Proof. split; [vm_compute; reflexivity | discriminate]. Qed.

(** C5, amended.  For the template sentence
    [If you choose <tech>, be prepared to pay the tax of <warn>.], where
    [tech] and [warn] are ASCII texts,
    [tech] and [warn] begin with a character that is not white space,
    [tech] has no comma, [warn] has none of [. ! ?], and the letters "in"
    stand nowhere in the sentence before a white-space character,
    parseHiddenTax succeeds with the two texts trimmed, the timeframe
    "6 months" and the impact "<warning> expected in 6 months"; and in every
    successful result the impact is the warning, " expected in " and the
    timeframe of that result. *)
Theorem template_without_timeframe_defaults (tech warn : string)
    (Hascii : JS.is_ascii tech = true /\ JS.is_ascii warn = true)
    (Htech : begins_with_text tech = true)
    (Hcomma : Matching.all not_comma tech = true)
    (Hwarn : begins_with_text warn = true)
    (Hend : Matching.all not_sentence_end warn = true)
    (Hno_in : has_in_clause (template_text tech warn) = false) :
  Part000.parseHiddenTax (template_text tech warn)
  = Return (Success (mkHiddenTax (JS.trim tech) (JS.trim warn) "6 months"
                       (JS.trim warn ++ " expected in 6 months")))
  /\ forall content tax,
       JS.is_ascii content = true ->
       Part000.parseHiddenTax content = Return (Success tax) ->
       impact tax = warning tax ++ " expected in " ++ timeframe tax.
Proof.
  split.
  - apply parseHiddenTax_template; assumption.
  - intros content tax _. apply parseHiddenTax_impact.
Qed.

Lemma template_without_timeframe_defaults_witness :
  Part000.parseHiddenTax (template_text "React" "decision fatigue")
  = Return (Success (mkHiddenTax "React" "decision fatigue" "6 months"
                       "decision fatigue expected in 6 months")).
Proof.
  exact (proj1 (template_without_timeframe_defaults "React" "decision fatigue"
                  (conj eq_refl eq_refl) eq_refl eq_refl eq_refl eq_refl eq_refl)).
Defined.

(* ===================================================================== *)
(** * The POST handler *)
(* ===================================================================== *)

Section Handler.
Import JS Route.

Lemma Route_assemble_failure_code now s t1 t2 e :
  Route.assemble now s t1 t2 = Return (Failure e) -> code e = "PARSING_ERROR".
Proof.
  unfold Route.assemble.
  generalize (Route.parseTaleOfTheTape (s_taleOfTheTape s) t1 t2).
  generalize (Route.parseScenarios (s_verdicts s)).
  generalize (Route.parseHiddenTax (s_hiddenTax s)).
  intros [[tax|e3]|e3] [[vs|e2]|e2] [[tape|e1]|e1]; cbn [bind];
    try discriminate; try (intros H; injection H as <-; reflexivity).
  destruct (negb (JS.truthy (JS.trim (s_tieBreaker s)))); intros H;
    [injection H as <-; reflexivity | discriminate].
Qed.

Lemma Route_parse_failure_code now response t1 t2 e :
  Route.parseLLMResponse now response t1 t2 = Return (Failure e) -> code e = "PARSING_ERROR".
Proof.
  unfold Route.parseLLMResponse.
  destruct (Route.extractSections response) as [[s|e']|x]; cbn [bind try_catch].
  - destruct (Route.assemble now s t1 t2) as [r|x] eqn:Ha; cbn [try_catch].
    + intros H. injection H as ->. apply (Route_assemble_failure_code _ _ _ _ _ Ha).
    + intros H. injection H as <-. reflexivity.
  - intros H. injection H as <-. reflexivity.
  - intros H. injection H as <-. reflexivity.
Qed.

Lemma parseRequestBody_codes env request e :
  parseRequestBody env request = Failure e ->
  In (code e) ["INVALID_JSON"; "MISSING_TECH1"; "MISSING_TECH2"; "INVALID_REQUEST_BODY"].
Proof.
  unfold parseRequestBody.
  destruct (request_json request) as [body|x].
  - destruct body; try (intros H; injection H as <-; simpl; tauto);
      (destruct (string_field "tech1" _); [|intros H; injection H as <-; simpl; tauto]);
      (destruct (string_field "tech2" _); [discriminate|intros H; injection H as <-; simpl; tauto]).
  - intros H; injection H as <-; simpl; tauto.
Qed.

Lemma POST_catch_shape env error :
  exists c m d s,
    POST_catch env error = createErrorResponse env c m s d
    /\ In s [400; 408; 429; 500]
    /\ c <> "invalid_api_key" /\ c <> "model_not_found".
Proof.
  unfold POST_catch. destruct error as [m|m|c m d].
  1,2: cbn [exn_message];
    repeat match goal with |- context [if ?b then _ else _] => destruct b end;
    do 4 eexists; (split; [reflexivity|]); (split; [simpl; tauto|]); split; discriminate.
  destruct (String.eqb c "insufficient_quota" || String.eqb c "rate_limit_exceeded") eqn:H1.
  { do 4 eexists. split; [reflexivity|]. split; [simpl; tauto|].
    apply orb_true_iff in H1 as [H|H]; apply String.eqb_eq in H; subst; split; discriminate. }
  destruct (String.eqb_spec c "invalid_api_key") as [->|H2].
  { do 4 eexists. split; [reflexivity|]. split; [simpl; tauto|]. split; discriminate. }
  destruct (String.eqb_spec c "model_not_found") as [->|H3].
  { do 4 eexists. split; [reflexivity|]. split; [simpl; tauto|]. split; discriminate. }
  do 4 eexists. split; [reflexivity|]. split; [simpl; tauto|]. split; assumption.
Qed.


(** The possible answers of the part of the handler that runs once the
    limiter has admitted the request. *)
Lemma POST_admitted_cases env request w :
  (exists e, parseRequestBody env request = Failure e
             /\ POST_admitted env request w
                = (Return (createErrorResponse env (code e) (message e) 400 (details e)), w))
  \/ (exists tech1 tech2,
        parseRequestBody env request = Success (tech1, tech2)
        /\ trim (toLowerCase tech1) = trim (toLowerCase tech2)
        /\ POST_admitted env request w
           = (Return (createErrorResponse env "DUPLICATE_TECHNOLOGIES"
                        "Please provide two different technologies for comparison." 400 None), w))
  \/ (exists tech1 tech2,
        parseRequestBody env request = Success (tech1, tech2)
        /\ trim (toLowerCase tech1) <> trim (toLowerCase tech2)
        /\ isValid (createPromptPackage env tech1 tech2) = false
        /\ POST_admitted env request w
           = (Return (createErrorResponse env "VALIDATION_ERROR"
                        "Invalid technology inputs provided." 400
                        (Some (join ", " (errors (createPromptPackage env tech1 tech2))))), w))
  \/ (exists tech1 tech2 prompt,
        parseRequestBody env request = Success (tech1, tech2)
        /\ trim (toLowerCase tech1) <> trim (toLowerCase tech2)
        /\ isValid (createPromptPackage env tech1 tech2) = true
        /\ prompt = userPrompt (createPromptPackage env tech1 tech2)
        /\ snd (POST_admitted env request w)
           = mkWorld (rateLimitMap w) (openai_calls w ++ [prompt])%list
        /\ match fst (POST_admitted env request w) with
           | Throw _ => True
           | Return response =>
               (exists data, response = mkResponse 200 (Success data))
               \/ (exists e, response
                             = createErrorResponse env "PARSING_ERROR" (message e) 500 (details e))
           end).
Proof.
  unfold POST_admitted.
  destruct (parseRequestBody env request) as [[tech1 tech2]|e]; [|left; eauto].
  right.
  destruct (String.eqb_spec (trim (toLowerCase tech1)) (trim (toLowerCase tech2))) as [Heq|Hne];
    [left; eauto|].
  right.
  destruct (isValid (createPromptPackage env tech1 tech2)) eqn:Hv; cbn [negb];
    [|left; exists tech1, tech2; auto].
  right. exists tech1, tech2, (userPrompt (createPromptPackage env tech1 tech2)).
  repeat (split; [solve [auto]|]).
  destruct (callOpenAI env _) as [llm|x]; cbn [fst snd]; [|auto].
  destruct (Route.parseLLMResponse (iso_now env) llm tech1 tech2) as [[d|e]|x] eqn:Hp;
    cbn [fst snd]; auto.
  - split; [reflexivity|]. left. eauto.
  - split; [reflexivity|]. right. exists e.
    rewrite (Route_parse_failure_code _ _ _ _ _ Hp). reflexivity.
Qed.

End Handler.

(** X1.  The handler answers 200 exactly when it returns an analysis, and
    otherwise with one of the statuses 400, 408, 429 and 500. *)
Theorem POST_status_matches_payload (env : Route.Env) (request : Route.Request)
    (w : Route.World) :
  let response := fst (Route.POST env request w) in
  (Route.status response = 200 <-> is_success (Route.payload response) = true)
  /\ In (Route.status response) [200; 400; 408; 429; 500].
Proof.
  cbv zeta. unfold Route.POST.
  destruct (Route.checkRateLimit _ _ _) as [ok map']. destruct ok; cbn [negb];
    [|cbn; split; [split; discriminate | tauto]].
  set (w1 := Route.mkWorld map' _).
  destruct (POST_admitted_cases env request w1)
    as [(e & _ & ->) | [(t1 & t2 & _ & _ & ->) | [(t1 & t2 & _ & _ & _ & ->)
        | (t1 & t2 & p & _ & _ & _ & _ & _ & Hr)]]];
    try (cbn; split; [split; discriminate | tauto]).
  destruct (Route.POST_admitted env request w1) as [[response|x] w2]; cbn [fst] in *.
  - destruct Hr as [(d & ->) | (e & ->)]; cbn; split; try tauto; split; discriminate.
  - destruct (POST_catch_shape env x) as (c & m & d & s & -> & Hs & _).
    cbn. split; [|tauto]. split; [|discriminate].
    intros ->. simpl in Hs. repeat destruct Hs as [Hs|Hs]; try discriminate; contradiction.
Qed.



(** X3.  The handler never answers with the provider's codes [invalid_api_key]
    and [model_not_found]. *)
Theorem POST_never_shows_configuration_codes (env : Route.Env) (request : Route.Request)
    (w : Route.World) (e : ApiError) :
  Route.payload (fst (Route.POST env request w)) = Failure e ->
  code e <> "invalid_api_key" /\ code e <> "model_not_found".
Proof.
  unfold Route.POST.
  destruct (Route.checkRateLimit _ _ _) as [ok map']. destruct ok; cbn [negb].
  2:{ cbn. intros H. injection H as <-. split; discriminate. }
  set (w1 := Route.mkWorld map' _).
  destruct (POST_admitted_cases env request w1)
    as [(e' & Hb & ->) | [(t1 & t2 & _ & _ & ->) | [(t1 & t2 & _ & _ & _ & ->)
        | (t1 & t2 & p & _ & _ & _ & _ & _ & Hr)]]];
    try (cbn; intros H; injection H as <-; split; discriminate).
  - cbn. intros H. injection H as <-. cbn.
    pose proof (parseRequestBody_codes env request e' Hb) as Hc. simpl in Hc.
    split; intros Heq; rewrite Heq in Hc;
      repeat destruct Hc as [Hc|Hc]; try discriminate; contradiction.
  - destruct (Route.POST_admitted env request w1) as [[response|x] w2]; cbn [fst] in *.
    + destruct Hr as [(d & ->) | (e' & ->)]; cbn; intros H; [discriminate|].
      injection H as <-. split; discriminate.
    + destruct (POST_catch_shape env x) as (c & m & d & s & -> & _ & Hc1 & Hc2).
      cbn. intros H. injection H as <-. cbn. auto.
Qed.

Lemma POST_never_shows_configuration_codes_witness :
  code (mkApiError "SERVICE_ERROR" "Service configuration error. Please try again later."
          None "2024-01-01T00:00:00.000Z") <> "invalid_api_key".
Proof.
  refine (proj1 (POST_never_shows_configuration_codes
                   (example_env (Throw (OpenAIError "invalid_api_key"
                                          "Incorrect API key provided" None)))
                   (example_request "React" "Vue") empty_world _ _)).
  vm_compute. reflexivity.
Defined.

(* ===================================================================== *)
(** * The limiter's map *)
(* ===================================================================== *)

Section LimiterFacts.
Import Route.

Lemma checkRateLimit_range now c map :
  counts_in_range map -> counts_in_range (snd (checkRateLimit now c map)).
Proof.
  intros Hok c' e'. unfold checkRateLimit.
  assert (Hfresh : <[c := mkRateEntry 1 (now + RATE_LIMIT_WINDOW)]> map !! c' = Some e' ->
                   1 <= count e' <= RATE_LIMIT_MAX_REQUESTS).
  { destruct (decide (c = c')) as [->|Hne].
    - rewrite lookup_insert_eq. intros H. injection H as <-. cbn. unfold RATE_LIMIT_MAX_REQUESTS. lia.
    - rewrite lookup_insert_ne by assumption. apply Hok. }
  destruct (map !! c) as [e|] eqn:He; [|exact Hfresh].
  destruct (resetTime e <? now)%Z; [exact Hfresh|].
  destruct (Nat.leb_spec RATE_LIMIT_MAX_REQUESTS (count e)) as [Hfull|Hroom]; cbn [snd];
    [apply Hok|].
  destruct (decide (c = c')) as [->|Hne].
  - rewrite lookup_insert_eq. intros H. injection H as <-. cbn. split; lia.
  - rewrite lookup_insert_ne by assumption. apply Hok.
Qed.

Lemma checkRateLimit_keeps_entries now c map c' :
  is_Some (map !! c') -> is_Some (snd (checkRateLimit now c map) !! c').
Proof.
  intros Hsome. unfold checkRateLimit.
  assert (Hins : forall e, is_Some (<[c := e]> map !! c')).
  { intros e. destruct (decide (c = c')) as [->|Hne];
      [rewrite lookup_insert_eq; eauto | rewrite lookup_insert_ne by assumption; exact Hsome]. }
  destruct (map !! c) as [e|] eqn:He; [|apply Hins].
  destruct (resetTime e <? now)%Z; [apply Hins|].
  destruct (Nat.leb RATE_LIMIT_MAX_REQUESTS (count e)); cbn [snd]; [exact Hsome | apply Hins].
Qed.

End LimiterFacts.

(** X6.  Whatever calls are made, the limiter keeps every count between one and
    ten, and it never removes an entry: the map holds an entry for every
    client it has seen. *)
Theorem limiter_counts_in_range_and_entries_kept
    (calls : list (string * Z)) (map : gmap string Route.RateEntry) :
  (counts_in_range map -> counts_in_range (limiter_after calls map))
  /\ (forall c, is_Some (map !! c) -> is_Some (limiter_after calls map !! c))
  /\ (forall c now, In (c, now) calls -> is_Some (limiter_after calls map !! c)).
Proof.
  revert map. induction calls as [|[c now] rest IH]; intros map.
  - cbn. split; [auto|]. split; [auto | contradiction].
  - cbn [limiter_after]. destruct (IH (snd (Route.checkRateLimit now c map))) as (H1 & H2 & H3).
    split; [intros Hok; apply H1, checkRateLimit_range, Hok|].
    split; [intros c' Hc'; apply H2, checkRateLimit_keeps_entries, Hc'|].
    intros c' now' [Heq|Hin]; [|apply (H3 c' now' Hin)].
    injection Heq as <- <-. apply H2.
    unfold Route.checkRateLimit.
    destruct (map !! c) as [e|] eqn:He; [|cbn [snd]; rewrite lookup_insert_eq; eauto].
    destruct (Route.resetTime e <? now)%Z; [cbn [snd]; rewrite lookup_insert_eq; eauto|].
    destruct (Nat.leb _ _); cbn [snd]; [rewrite He; eauto | rewrite lookup_insert_eq; eauto].
Qed.

(** X7.  A refused call changes nothing: the client's window is open with a
    full count, the map stays as it is, and the first call after the
    deadline of the window is admitted and opens a new window, however
    many calls were refused before. *)
Theorem refused_call_leaves_the_window (now : Z) (client : string)
    (map : gmap string Route.RateEntry)
    (Hrefused : fst (Route.checkRateLimit now client map) = false) :
  snd (Route.checkRateLimit now client map) = map
  /\ exists e,
       map !! client = Some e
       /\ Route.RATE_LIMIT_MAX_REQUESTS <= Route.count e
       /\ (now <= Route.resetTime e)%Z
       /\ forall later, (Route.resetTime e < later)%Z ->
            Route.checkRateLimit later client map
            = (true, <[client := Route.mkRateEntry 1 (later + Route.RATE_LIMIT_WINDOW)]> map).
Proof.
  unfold Route.checkRateLimit in *.
  destruct (map !! client) as [e|] eqn:He; [|discriminate].
  destruct (Z.ltb_spec (Route.resetTime e) now) as [|Hopen]; [discriminate|].
  destruct (Nat.leb_spec Route.RATE_LIMIT_MAX_REQUESTS (Route.count e)) as [Hfull|];
    [|discriminate].
  split; [reflexivity|]. exists e. repeat split; try assumption.
  intros later Hlater.
  destruct (Z.ltb_spec (Route.resetTime e) later); [reflexivity | lia].
Qed.

Lemma refused_call_leaves_the_window_witness :
  snd (Route.checkRateLimit 2000 "203.0.113.7"
         (limiter_after (burst "203.0.113.7" 1000 10) ∅))
  = limiter_after (burst "203.0.113.7" 1000 10) ∅.
Proof.
  apply (refused_call_leaves_the_window 2000 "203.0.113.7"
           (limiter_after (burst "203.0.113.7" 1000 10) ∅)).
  vm_compute. reflexivity.
Defined.

(* ===================================================================== *)
(** * The dimension matrix *)
(* ===================================================================== *)

Section TapeFacts.
Import JS RegExp Matching.

Lemma obj_get_set_eq {V : Type} key (v : V) : forall o, obj_get key (obj_set key v o) = Some v.
Proof.
  induction o as [|[k w] o IH]; cbn [obj_set obj_get]; [rewrite String.eqb_refl; reflexivity|].
  destruct (String.eqb k key) eqn:Hk; cbn [obj_get]; rewrite Hk; [reflexivity | exact IH].
Qed.

Lemma obj_get_set_other {V : Type} key key' (v : V) : forall o,
  key' <> key -> obj_get key (obj_set key' v o) = obj_get key o.
Proof.
  intros o Hne. induction o as [|[k w] o IH]; cbn [obj_set obj_get].
  - destruct (String.eqb_spec key' key); [contradiction | reflexivity].
  - destruct (String.eqb_spec k key') as [->|Hk]; cbn [obj_get].
    + destruct (String.eqb_spec key' key); [contradiction | reflexivity].
    + destruct (String.eqb k key); [reflexivity | exact IH].
Qed.

Lemma obj_has_set_other {V : Type} key key' (v : V) o :
  key' <> key -> obj_has key (obj_set key' v o) = obj_has key o.
Proof. intros H. unfold obj_has. rewrite (obj_get_set_other _ _ _ _ H). reflexivity. Qed.

(** ** Patterns that contain a literal text *)

Lemma prefix_occurs l s : prefix_ci l s = true -> occurs_ci l s = true.
Proof. intros H. destruct s; cbn [occurs_ci]; rewrite H; reflexivity. Qed.

Lemma occurs_ci_app l a : forall b, occurs_ci l b = true -> occurs_ci l (a ++ b) = true.
Proof.
  induction a as [|c a IH]; intros b H; [exact H|].
  rewrite app_cons. cbn [occurs_ci]. rewrite (IH b H). apply orb_true_r.
Qed.

Lemma starts_lits_match l : forall r x k y,
  starts_lits l r = true -> m true r x k = Some y -> prefix_ci l (m_rest x) = true.
Proof.
  induction l as [|c l IH]; intros r x k y Hs Hm; [reflexivity|].
  cbn [starts_lits] in Hs.
  destruct r as [| c' | | | r1 r2 | | | | | | |]; try discriminate.
  - apply andb_true_iff in Hs as [Hc Hl]. apply Ascii.eqb_eq in Hc. subst c'.
    destruct l; [|discriminate].
    cbn [m] in Hm. unfold m_single in Hm.
    destruct (m_rest x) as [|a rest]; [discriminate|].
    cbn [prefix_ci]. destruct (char_eqb true c a); [reflexivity | discriminate].
  - destruct r1 as [| c' | | | | | | | | | |]; try discriminate.
    apply andb_true_iff in Hs as [Hc Hl]. apply Ascii.eqb_eq in Hc. subst c'.
    rewrite m_seq in Hm. cbn [m] in Hm. unfold m_single in Hm.
    destruct (m_rest x) as [|a rest]; [discriminate|].
    cbn [prefix_ci]. destruct (char_eqb true c a); [|discriminate].
    apply (IH _ _ _ _ Hl) in Hm. exact Hm.
Qed.

Lemma forces_lits_match l r : forall x k y,
  forces_lits l r = true -> m true r x k = Some y -> occurs_ci l (m_rest x) = true.
Proof.
  induction r as [| c | | neg items | r1 IH1 r2 IH2 | r1 IH1 r2 IH2
                  | min max greedy r IH | idx r IH | pos r IH | | | pos];
    intros x k y Hf Hm; cbn [forces_lits] in Hf;
    try (rewrite orb_false_r in Hf; apply prefix_occurs;
         eapply starts_lits_match; eassumption).
  apply orb_true_iff in Hf as [Hs|Hf].
  - apply prefix_occurs. eapply starts_lits_match; eassumption.
  - rewrite m_seq in Hm.
    apply forwards_m in Hm as (x1 & (consumed & Hr & _) & Hm).
    rewrite Hr. apply occurs_ci_app. eapply IH2; eassumption.
Qed.

Lemma exec_without_text l re text :
  ignoreCase re = true ->
  forces_lits l (ast re) = true ->
  occurs_ci l text = false ->
  exec re text = None.
Proof.
  intros Hic Hf Hno. destruct (exec re text) as [ma|] eqn:Hexec; [|reflexivity].
  unfold exec in Hexec.
  apply search_inv in Hexec as (pre & suf & prev & y & Htext & Hm & _).
  rewrite Hic in Hm. apply (forces_lits_match _ _ _ _ _ Hf) in Hm. cbn [m_rest] in Hm.
  rewrite Htext, (occurs_ci_app l pre suf Hm) in Hno. discriminate.
Qed.

Lemma loop_match_none accept patterns content :
  Forall (fun p => exec p content = None) patterns ->
  accept None = false ->
  loop_match accept patterns content None = None.
Proof.
  intros Hall Hacc. induction Hall as [|p rest Hp Hrest IH]; [reflexivity|].
  cbn [loop_match]. rewrite Hp, Hacc. exact IH.
Qed.

(** The patterns of the line phase are well formed for each of the five
    dimensions, and each of them contains the dimension's name. *)
Lemma line_patterns d :
  In d Route.dimensions ->
  exists patterns,
    create_all (Route.line_sources d) "i" = Return patterns
    /\ Forall (fun p => ignoreCase p = true /\ forces_lits d (ast p) = true) patterns.
Proof.
  intros Hd. cbn [Route.dimensions In] in Hd.
  repeat destruct Hd as [<-|Hd]; try contradiction;
    (eexists; split; [vm_compute; reflexivity
                     | repeat constructor; vm_compute; reflexivity]).
Qed.

Lemma line_key d key :
  In (d, key) dimension_keys ->
  match Route.lineKeyMap (Route.normalizedKey d) with
  | Some k => Some k
  | None => Route.lineKeyMap (toLowerCase d)
  end = Some key.
Proof.
  intros Hd. cbn [dimension_keys In] in Hd.
  repeat destruct Hd as [Hd|Hd]; try contradiction; injection Hd as <- <-;
    vm_compute; reflexivity.
Qed.

Lemma dimension_keys_names d key : In (d, key) dimension_keys -> In d Route.dimensions.
Proof.
  intros Hd. cbn [dimension_keys In] in Hd.
  repeat destruct Hd as [Hd|Hd]; try contradiction; injection Hd as <- <-; simpl; tauto.
Qed.

Lemma dimension_keys_distinct d key d0 key0 :
  In (d, key) dimension_keys -> In (d0, key0) dimension_keys -> d <> d0 -> key <> key0.
Proof.
  intros Hd Hd0 Hne. cbn [dimension_keys In] in Hd, Hd0.
  repeat destruct Hd as [Hd|Hd]; try contradiction; injection Hd as <- <-;
    repeat destruct Hd0 as [Hd0|Hd0]; try contradiction; injection Hd0 as <- <-;
    solve [discriminate | contradiction].
Qed.

Lemma Route_line_step_spec content c d key :
  In (d, key) dimension_keys ->
  exists c',
    Route.line_step content c d = Return c'
    /\ (c' = c \/ exists v, c' = obj_set key v c)
    /\ (occurs_ci d content = false -> c' = c).
Proof.
  intros Hd. unfold Route.line_step.
  destruct (obj_has (Route.normalizedKey d) c); [exists c; auto|].
  destruct (line_patterns d (dimension_keys_names _ _ Hd)) as (ps & -> & Hps).
  cbn [bind]. rewrite (line_key d key Hd).
  destruct (has 1 _ && has 2 _) eqn:Hacc; [|exists c; auto].
  eexists. split; [reflexivity|]. split; [right; eauto|].
  intros Hno. exfalso.
  rewrite (loop_match_none Route.line_accept ps content) in Hacc; [discriminate| |reflexivity].
  eapply List.Forall_impl; [|exact Hps]. cbv beta.
  intros p [Hic Hf]. apply (exec_without_text d); assumption.
Qed.

Lemma Part000_line_step_spec content c d key :
  In (d, key) dimension_keys ->
  exists c',
    Part000.line_step content c d = Return c'
    /\ (c' = c \/ exists v, c' = obj_set key v c)
    /\ (occurs_ci d content = false -> c' = c).
Proof.
  intros Hd. unfold Part000.line_step.
  destruct (obj_has (Route.normalizedKey d) c); [exists c; auto|].
  destruct (line_patterns d (dimension_keys_names _ _ Hd)) as (ps & -> & Hps).
  cbn [bind]. rewrite (line_key d key Hd).
  destruct (has 1 _ && has 2 _) eqn:Hacc; [|exists c; auto].
  eexists. split; [reflexivity|]. split; [right; eauto|].
  intros Hno. exfalso.
  rewrite (loop_match_none Part000.line_accept ps content) in Hacc; [discriminate| |reflexivity].
  eapply List.Forall_impl; [|exact Hps]. cbv beta.
  intros p [Hic Hf]. apply (exec_without_text d); assumption.
Qed.


Lemma Route_line_phase_spec content : forall l c,
  Forall (fun dk => In dk dimension_keys) l ->
  exists c',
    Route.line_phase content (map fst l) c = Return c'
    /\ forall d0 k0, In (d0, k0) dimension_keys -> occurs_ci d0 content = false ->
         obj_has k0 c = false -> obj_has k0 c' = false.
Proof.
  induction l as [|[d key] l IH]; intros c Hl; [exists c; split; [reflexivity | auto]|].
  inversion Hl as [|? ? Hd Hrest]; subst.
  cbn [map fst Route.line_phase].
  destruct (Route_line_step_spec content c d key Hd) as (c1 & -> & Hc1 & Hsame).
  cbn [bind]. destruct (IH c1 Hrest) as (c' & -> & Hkeep).
  exists c'. split; [reflexivity|]. intros d0 k0 Hd0 Hno Hc.
  apply (Hkeep d0 k0 Hd0 Hno).
  destruct Hc1 as [->|(v & ->)]; [exact Hc|].
  destruct (occurs_ci d content) eqn:Hocc.
  - rewrite obj_has_set_other; [exact Hc|].
    apply (dimension_keys_distinct d key d0 k0 Hd Hd0). intros ->. congruence.
  - specialize (Hsame eq_refl). rewrite Hsame. exact Hc.
Qed.

Lemma Part000_line_phase_spec content : forall l c,
  Forall (fun dk => In dk dimension_keys) l ->
  exists c',
    Part000.line_phase content (map fst l) c = Return c'
    /\ forall d0 k0, In (d0, k0) dimension_keys -> occurs_ci d0 content = false ->
         obj_has k0 c = false -> obj_has k0 c' = false.
Proof.
  induction l as [|[d key] l IH]; intros c Hl; [exists c; split; [reflexivity | auto]|].
  inversion Hl as [|? ? Hd Hrest]; subst.
  cbn [map fst Part000.line_phase].
  destruct (Part000_line_step_spec content c d key Hd) as (c1 & -> & Hc1 & Hsame).
  cbn [bind]. destruct (IH c1 Hrest) as (c' & -> & Hkeep).
  exists c'. split; [reflexivity|]. intros d0 k0 Hd0 Hno Hc.
  apply (Hkeep d0 k0 Hd0 Hno).
  destruct Hc1 as [->|(v & ->)]; [exact Hc|].
  destruct (occurs_ci d content) eqn:Hocc.
  - rewrite obj_has_set_other; [exact Hc|].
    apply (dimension_keys_distinct d key d0 k0 Hd Hd0). intros ->. congruence.
  - specialize (Hsame eq_refl). rewrite Hsame. exact Hc.
Qed.

Lemma dimension_keys_all : Forall (fun dk => In dk dimension_keys) dimension_keys.
Proof. apply List.Forall_forall. auto. Qed.

Lemma Route_comparison_of_spec content :
  exists comparison,
    Route.comparison_of content = Return comparison
    /\ forall d0 k0, In (d0, k0) dimension_keys -> occurs_ci d0 content = false ->
         obj_has k0 (Route.table_phase content) = false -> obj_has k0 comparison = false.
Proof.
  unfold Route.comparison_of. cbv zeta.
  destruct (Nat.ltb _ 5); [|eexists; split; [reflexivity | auto]].
  change Route.dimensions with (map fst dimension_keys).
  apply Route_line_phase_spec, dimension_keys_all.
Qed.

Lemma Part000_comparison_of_spec content :
  exists comparison,
    Part000.comparison_of content = Return comparison
    /\ forall d0 k0, In (d0, k0) dimension_keys -> occurs_ci d0 content = false ->
         obj_has k0 (Route.table_phase content) = false -> obj_has k0 comparison = false.
Proof.
  unfold Part000.comparison_of. cbv zeta.
  destruct (Nat.ltb _ 5); [|eexists; split; [reflexivity | auto]].
  change Route.dimensions with (map fst dimension_keys).
  apply Part000_line_phase_spec, dimension_keys_all.
Qed.

(** The five tests and the list of what is missing. *)
Lemma missing_of_named labels c key label :
  List.NoDup (map snd labels) -> In (key, label) labels ->
  (In label (Route.missing_of labels c) <-> obj_has key c = false).
Proof.
  intros Hnd Hin. unfold Route.missing_of. rewrite in_map_iff. split.
  - intros ([key' label'] & Hl & Hf). cbn in Hl. subst label'.
    apply list_elem_of_In, list_elem_of_filter in Hf as [Hf Hin'].
    apply list_elem_of_In in Hin'. cbn in Hf. apply Is_true_true, negb_true_iff in Hf.
    assert (key' = key) as <-; [|exact Hf].
    clear Hf. induction labels as [|[k l] labels IH]; [contradiction|].
    cbn in Hnd. apply List.NoDup_cons_iff in Hnd as [Hnot Hnd].
    destruct Hin as [Hin|Hin], Hin' as [Hin'|Hin'].
    + congruence.
    + injection Hin as -> ->. exfalso. apply Hnot.
      apply in_map_iff. exists (key', label). auto.
    + injection Hin' as -> ->. exfalso. apply Hnot.
      apply in_map_iff. exists (key, label). auto.
    + apply IH; assumption.
  - intros Hf. exists (key, label). split; [reflexivity|].
    apply list_elem_of_In, list_elem_of_filter. split; [|apply list_elem_of_In; exact Hin].
    cbn. rewrite Hf. exact I.
Qed.

Lemma validate_outcome labels content c :
  map fst labels = map snd dimension_keys ->
  List.NoDup (map snd labels) ->
  tape_outcome labels content c (Route.validate_matrix labels content c).
Proof.
  intros Hkeys Hnd. unfold Route.validate_matrix, Route.as_matrix, tape_outcome.
  assert (Hmiss : forall key, In key (map fst labels) -> obj_get key c = None ->
                    Route.missing_of labels c <> []).
  { intros key Hk Hnone. apply in_map_iff in Hk as ([k l] & <- & Hin). cbn in Hnone.
    assert (Hl : In l (Route.missing_of labels c)).
    { apply (missing_of_named labels c k l Hnd Hin). unfold obj_has. rewrite Hnone. reflexivity. }
    intros Hnil. rewrite Hnil in Hl. contradiction. }
  rewrite Hkeys in Hmiss. cbn [dimension_keys map snd] in Hmiss.
  destruct (obj_get "speed" c) eqn:H1;
    [|split; [apply (Hmiss "speed"); simpl; tauto | reflexivity]].
  destruct (obj_get "cost" c) eqn:H2;
    [|split; [apply (Hmiss "cost"); simpl; tauto | reflexivity]].
  destruct (obj_get "developerExperience" c) eqn:H3;
    [|split; [apply (Hmiss "developerExperience"); simpl; tauto | reflexivity]].
  destruct (obj_get "scalability" c) eqn:H4;
    [|split; [apply (Hmiss "scalability"); simpl; tauto | reflexivity]].
  destruct (obj_get "maintainability" c) eqn:H5;
    [|split; [apply (Hmiss "maintainability"); simpl; tauto | reflexivity]].
  cbn. auto.
Qed.

Lemma labels_distinct :
  List.NoDup (map snd Route.missing_labels) /\ List.NoDup (map snd Part000.missing_labels)
  /\ map fst Route.missing_labels = map snd dimension_keys
  /\ map fst Part000.missing_labels = map snd dimension_keys.
Proof.
  repeat split; try reflexivity;
    repeat (apply List.NoDup_cons; [simpl; intros H; repeat destruct H as [H|H];
                                    try discriminate; contradiction|]);
    apply List.NoDup_nil.
Qed.

End TapeFacts.

(** X8.  The matrix parser, in both revisions, on an ASCII text with ASCII
    names: the table phase and then the line
    phase fill [comparison] without raising an exception; the result is a
    matrix exactly when the five keys are present, and it is then made of
    the five entries; otherwise it is the error that lists the labels of the
    keys that are absent, and of no other.  part_000 first refuses a blank
    text and blank names, and works on the trimmed text. *)
Theorem parseTaleOfTheTape_lists_what_is_missing (content tech1 tech2 : string)
    (Hascii : JS.is_ascii content = true /\ JS.is_ascii tech1 = true
              /\ JS.is_ascii tech2 = true) :
  (exists comparison r,
     Route.comparison_of content = Return comparison
     /\ Route.parseTaleOfTheTape content tech1 tech2 = Return r
     /\ tape_outcome Route.missing_labels content comparison r
     /\ forall key label, In (key, label) Route.missing_labels ->
          (In label (Route.missing_of Route.missing_labels comparison)
           <-> obj_has key comparison = false))
  /\ match tape_guard content tech1 tech2 with
     | Some e => Part000.parseTaleOfTheTape content tech1 tech2 = Return (Failure e)
     | None =>
         exists comparison r,
           Part000.comparison_of (JS.trim content) = Return comparison
           /\ Part000.parseTaleOfTheTape content tech1 tech2 = Return r
           /\ tape_outcome Part000.missing_labels (JS.trim content) comparison r
           /\ forall key label, In (key, label) Part000.missing_labels ->
                (In label (Route.missing_of Part000.missing_labels comparison)
                 <-> obj_has key comparison = false)
     end.
Proof.
  destruct labels_distinct as (Hr & Hp & Hkr & Hkp).
  split.
  - destruct (Route_comparison_of_spec content) as (comparison & Hc & _).
    exists comparison, (Route.validate_matrix Route.missing_labels content comparison).
    split; [exact Hc|]. split.
    + unfold Route.parseTaleOfTheTape. rewrite Hc. reflexivity.
    + split; [apply validate_outcome; assumption|].
      intros key label Hin. apply missing_of_named; assumption.
  - unfold tape_guard, Part000.parseTaleOfTheTape.
    destruct (negb (JS.truthy content)); [reflexivity|].
    cbv zeta.
    destruct (Nat.eqb (String.length (JS.trim content)) 0); [reflexivity|].
    destruct (negb (JS.truthy tech1) || negb (JS.truthy tech2)
              || Nat.eqb (String.length (JS.trim tech1)) 0
              || Nat.eqb (String.length (JS.trim tech2)) 0); [reflexivity|].
    destruct (Part000_comparison_of_spec (JS.trim content)) as (comparison & Hc & _).
    exists comparison,
      (Route.validate_matrix Part000.missing_labels (JS.trim content) comparison).
    split; [exact Hc|]. split; [rewrite Hc; reflexivity|].
    split; [apply validate_outcome; assumption|].
    intros key label Hin. apply missing_of_named; assumption.
Qed.

Lemma parseTaleOfTheTape_lists_what_is_missing_witness :
  exists comparison r,
    Route.comparison_of sample_tape = Return comparison
    /\ Route.parseTaleOfTheTape sample_tape "React" "Vue" = Return r
    /\ tape_outcome Route.missing_labels sample_tape comparison r
    /\ forall key label, In (key, label) Route.missing_labels ->
         (In label (Route.missing_of Route.missing_labels comparison)
          <-> obj_has key comparison = false).
Proof.
  refine (proj1 (parseTaleOfTheTape_lists_what_is_missing sample_tape "React" "Vue" _)).
  repeat split; vm_compute; reflexivity.
Defined.

(** X9.  In an ASCII text, with ASCII names: a dimension that the table phase
    has not found and whose name stands
    nowhere in the text, whatever the case of its letters, is listed as
    missing: the parser fails, in both revisions (part_000 on a text and
    names that pass its guards). *)
Theorem unmentioned_dimension_is_reported_missing
    (content tech1 tech2 d key : string)
    (Hascii : JS.is_ascii content = true /\ JS.is_ascii tech1 = true
              /\ JS.is_ascii tech2 = true)
    (Hdimension : In (d, key) dimension_keys)
    (Hno_table : obj_has key (Route.table_phase content) = false)
    (Hno_name : Matching.occurs_ci d content = false) :
  (exists comparison,
     Route.parseTaleOfTheTape content tech1 tech2
     = Return (Failure (Route.missing_data_error Route.missing_labels content comparison))
     /\ forall label, In (key, label) Route.missing_labels ->
          In label (Route.missing_of Route.missing_labels comparison))
  /\ (tape_guard content tech1 tech2 = None -> JS.trim content = content ->
      exists comparison,
        Part000.parseTaleOfTheTape content tech1 tech2
        = Return (Failure (Route.missing_data_error Part000.missing_labels content comparison))
        /\ forall label, In (key, label) Part000.missing_labels ->
             In label (Route.missing_of Part000.missing_labels comparison)).
Proof.
  destruct labels_distinct as (Hr & Hp & Hkr & Hkp).
  assert (Hnone : forall comparison, obj_has key comparison = false ->
                    Route.as_matrix comparison = None).
  { intros comparison Hk. unfold obj_has in Hk. unfold Route.as_matrix.
    cbn [dimension_keys In] in Hdimension.
    repeat destruct Hdimension as [Hdimension|Hdimension]; try contradiction;
      injection Hdimension as <- <-;
      destruct (obj_get _ comparison); try discriminate;
      repeat match goal with |- context [match obj_get ?k comparison with _ => _ end] =>
               destruct (obj_get k comparison) end; reflexivity. }
  split.
  - destruct (Route_comparison_of_spec content) as (comparison & Hc & Hkeep).
    specialize (Hkeep d key Hdimension Hno_name Hno_table).
    exists comparison. split.
    + unfold Route.parseTaleOfTheTape, Route.validate_matrix.
      rewrite Hc. cbn [bind try_catch]. rewrite (Hnone _ Hkeep). reflexivity.
    + intros label Hin. apply (missing_of_named _ _ key label Hr Hin). exact Hkeep.
  - intros Hguard Htrim. unfold tape_guard in Hguard.
    unfold Part000.parseTaleOfTheTape.
    destruct (negb (JS.truthy content)); [discriminate|].
    cbv zeta. rewrite Htrim in *.
    destruct (Nat.eqb (String.length content) 0); [discriminate|].
    destruct (negb (JS.truthy tech1) || negb (JS.truthy tech2)
              || Nat.eqb (String.length (JS.trim tech1)) 0
              || Nat.eqb (String.length (JS.trim tech2)) 0); [discriminate|].
    destruct (Part000_comparison_of_spec content) as (comparison & Hc & Hkeep).
    specialize (Hkeep d key Hdimension Hno_name Hno_table).
    exists comparison. split.
    + unfold Route.validate_matrix.
      rewrite Hc. cbn [bind try_catch]. rewrite (Hnone _ Hkeep). reflexivity.
    + intros label Hin. apply (missing_of_named _ _ key label Hp Hin). exact Hkeep.
Qed.

Lemma unmentioned_dimension_is_reported_missing_witness :
  exists comparison,
    Route.parseTaleOfTheTape (lines (without 3 tape_lines)) "React" "Vue"
    = Return (Failure (Route.missing_data_error Route.missing_labels
                         (lines (without 3 tape_lines)) comparison))
    /\ forall label, In ("scalability", label) Route.missing_labels ->
         In label (Route.missing_of Route.missing_labels comparison).
Proof.
  refine (proj1 (unmentioned_dimension_is_reported_missing
                   (lines (without 3 tape_lines)) "React" "Vue" "Scalability" "scalability"
                   _ _ _ _)).
  - repeat split; vm_compute; reflexivity.
  - simpl. tauto.
  - vm_compute. reflexivity.
  - vm_compute. reflexivity.
Defined.

(** The name of a dimension standing elsewhere in the text is enough for
    the line phase to fill it: with the Cost line left out, the word "cost"
    of the Maintainability line gives the cost its two descriptors. *)
Example deleted_cost_line_is_read_from_another_line :
  exists matrix,
    Route.parseTaleOfTheTape (lines (without 1 tape_lines)) "React" "Vue"
    = Return (Success matrix)
    /\ Part000.parseTaleOfTheTape (lines (without 1 tape_lines)) "React" "Vue"
       = Return (Success matrix)
    /\ cost matrix = mkDescriptors "high" "cost".
Proof. eexists. split; [vm_compute; reflexivity|]. split; vm_compute; reflexivity. Qed.

(* ===================================================================== *)
(** * The shape of the verdicts *)
(* ===================================================================== *)

Section ScenarioShape.
Import JS.

Lemma Route_scenario_step_shape content scenario v :
  Route.scenario_step content scenario = Return (Success v) -> verdict_for scenario v.
Proof.
  unfold Route.scenario_step.
  destruct (create_all (Route.scenario_sources scenario) "i") as [ps|x]; cbn [bind];
    [|discriminate].
  cbv zeta.
  destruct (negb (has 1 _)); [discriminate|].
  repeat match goal with
         | |- context [match ?b with Some _ => _ | None => _ end] =>
             match b with
             | context [match _ with _ => _ end] => fail 1
             | _ => destruct b
             end
         end;
    try discriminate; intros H; injection H as <-; split; reflexivity.
Qed.

Lemma Route_scenario_step_failure content scenario e :
  Route.scenario_step content scenario = Return (Failure e) ->
  String.prefix "Expected 3 scenarios" e = false.
Proof.
  unfold Route.scenario_step.
  destruct (create_all (Route.scenario_sources scenario) "i") as [ps|x]; cbn [bind];
    [|discriminate].
  cbv zeta.
  destruct (negb (has 1 _)); [intros H; injection H as <-; reflexivity|].
  repeat match goal with
         | |- context [match ?b with Some _ => _ | None => _ end] =>
             match b with
             | context [match _ with _ => _ end] => fail 1
             | _ => destruct b
             end
         end;
    try discriminate; intros H; injection H as <-; reflexivity.
Qed.

Lemma Part000_verdict_of_shape scenario sc t1 t2 v :
  Part000.verdict_of scenario sc t1 t2 = Return (Success v) -> verdict_for scenario v.
Proof.
  unfold Part000.verdict_of. cbv zeta.
  destruct (negb (has 1 (loop_match Part000.winner_accept _ _ _)) || _).
  - destruct (negb (truthy t1) || negb (truthy t2)); [discriminate|].
    destruct (Part000.fallback_winner sc t1 t2) as [fw|x]; cbn [bind]; [|discriminate].
    destruct (truthy fw); [|discriminate].
    intros H; injection H as <-; split; reflexivity.
  - intros H; injection H as <-; split; reflexivity.
Qed.

Lemma Part000_verdict_of_failure scenario sc t1 t2 e :
  Part000.verdict_of scenario sc t1 t2 = Return (Failure e) ->
  String.prefix "Expected 3 scenarios" e = false.
Proof.
  unfold Part000.verdict_of. cbv zeta.
  destruct (negb (has 1 (loop_match Part000.winner_accept _ _ _)) || _).
  - destruct (negb (truthy t1) || negb (truthy t2));
      [intros H; injection H as <-; reflexivity|].
    destruct (Part000.fallback_winner sc t1 t2) as [fw|x]; cbn [bind]; [|discriminate].
    destruct (truthy fw); [discriminate|].
    intros H; injection H as <-; reflexivity.
  - discriminate.
Qed.

Lemma Part000_scenario_step_shape content t1 t2 scenario v :
  Part000.scenario_step content t1 t2 scenario = Return (Success v) -> verdict_for scenario v.
Proof.
  unfold Part000.scenario_step.
  destruct (Part000.locate content scenario) as [[text|]|x]; cbn [bind]; try discriminate.
  apply Part000_verdict_of_shape.
Qed.

Lemma Part000_scenario_step_failure content t1 t2 scenario e :
  Part000.scenario_step content t1 t2 scenario = Return (Failure e) ->
  String.prefix "Expected 3 scenarios" e = false.
Proof.
  unfold Part000.scenario_step.
  destruct (Part000.locate content scenario) as [[text|]|x]; cbn [bind]; try discriminate.
  - apply Part000_verdict_of_failure.
  - intros H; injection H as <-; reflexivity.
Qed.

Lemma Route_parseScenarios_cases content :
  match Route.parseScenarios content with
  | Return (Success verdicts) => three_verdicts verdicts
  | Return (Failure e) => String.prefix "Expected 3 scenarios" e = false
  | Throw _ => False
  end.
Proof.
  unfold Route.parseScenarios, Route.scenarioNames. cbn [Route.scenario_loop].
  pose proof (Route_scenario_step_shape content "Move Fast Team") as S1.
  pose proof (Route_scenario_step_shape content "Scale Team") as S2.
  pose proof (Route_scenario_step_shape content "Budget Team") as S3.
  pose proof (Route_scenario_step_failure content "Move Fast Team") as F1.
  pose proof (Route_scenario_step_failure content "Scale Team") as F2.
  pose proof (Route_scenario_step_failure content "Budget Team") as F3.
  revert S1 S2 S3 F1 F2 F3.
  generalize (Route.scenario_step content "Move Fast Team").
  generalize (Route.scenario_step content "Scale Team").
  generalize (Route.scenario_step content "Budget Team").
  intros [[v3|e3]|e3] [[v2|e2]|e2] [[v1|e1]|e1] S1 S2 S3 F1 F2 F3;
    cbn [bind app try_catch Route.check_count List.length Nat.eqb negb];
    try reflexivity; try (apply F1; reflexivity); try (apply F2; reflexivity);
    try (apply F3; reflexivity).
  exists v1, v2, v3. split; [reflexivity|]. auto.
Qed.

Lemma Part000_parseScenarios_cases content t1 t2 :
  match Part000.parseScenarios content t1 t2 with
  | Return (Success verdicts) => three_verdicts verdicts
  | Return (Failure e) => String.prefix "Expected 3 scenarios" e = false
  | Throw _ => False
  end.
Proof.
  unfold Part000.parseScenarios, Route.scenarioNames.
  destruct (negb (truthy content)); [reflexivity|].
  cbv zeta. destruct (Nat.eqb (String.length (trim content)) 0); [reflexivity|].
  cbn [Part000.scenario_loop].
  pose proof (Part000_scenario_step_shape (trim content) t1 t2 "Move Fast Team") as S1.
  pose proof (Part000_scenario_step_shape (trim content) t1 t2 "Scale Team") as S2.
  pose proof (Part000_scenario_step_shape (trim content) t1 t2 "Budget Team") as S3.
  pose proof (Part000_scenario_step_failure (trim content) t1 t2 "Move Fast Team") as F1.
  pose proof (Part000_scenario_step_failure (trim content) t1 t2 "Scale Team") as F2.
  pose proof (Part000_scenario_step_failure (trim content) t1 t2 "Budget Team") as F3.
  revert S1 S2 S3 F1 F2 F3.
  generalize (Part000.scenario_step (trim content) t1 t2 "Move Fast Team").
  generalize (Part000.scenario_step (trim content) t1 t2 "Scale Team").
  generalize (Part000.scenario_step (trim content) t1 t2 "Budget Team").
  intros [[v3|e3]|e3] [[v2|e2]|e2] [[v1|e1]|e1] S1 S2 S3 F1 F2 F3;
    cbn [bind app try_catch Route.check_count List.length Nat.eqb negb];
    try reflexivity; try (apply F1; reflexivity); try (apply F2; reflexivity);
    try (apply F3; reflexivity).
  exists v1, v2, v3. split; [reflexivity|]. auto.
Qed.

End ScenarioShape.

(** X11.  A parse of the verdicts that succeeds returns three verdicts, those of
    the scenarios Move Fast Team, Scale Team and Budget Team in this order,
    each named after its scenario and with the context
    "<name> scenario analysis"; and the error of the final count,
    "Expected 3 scenarios, found ...", is never returned.  In both
    revisions. *)
Theorem parseScenarios_returns_the_three_scenarios (content tech1 tech2 : string) :
  (forall verdicts, Route.parseScenarios content = Return (Success verdicts) ->
                    three_verdicts verdicts)
  /\ (forall e, Route.parseScenarios content = Return (Failure e) ->
                String.prefix "Expected 3 scenarios" e = false)
  /\ (forall verdicts, Part000.parseScenarios content tech1 tech2 = Return (Success verdicts) ->
                       three_verdicts verdicts)
  /\ (forall e, Part000.parseScenarios content tech1 tech2 = Return (Failure e) ->
                String.prefix "Expected 3 scenarios" e = false).
Proof.
  pose proof (Route_parseScenarios_cases content) as HR.
  pose proof (Part000_parseScenarios_cases content tech1 tech2) as HP.
  repeat split; intros r H; [rewrite H in HR | rewrite H in HR | rewrite H in HP
                            | rewrite H in HP]; assumption.
Qed.

(* ===================================================================== *)
(** * What [parseLLMResponse] returns *)
(* ===================================================================== *)

Section ReplyFacts.
Import JS RegExp Matching.

Lemma Route_parseHiddenTax_impact content tax :
  Route.parseHiddenTax content = Return (Success tax) ->
  impact tax = warning tax ++ " expected in " ++ timeframe tax
  /\ has_in_clause content = true.
Proof.
  unfold Route.parseHiddenTax.
  destruct (has_in_clause content) eqn:Hin.
  - destruct (exec Route.tax_regex content); cbn [try_catch]; [|discriminate].
    intros H. injection H as <-. split; reflexivity.
  - rewrite (exec_without_in_clause Route.tax_regex content eq_refl eq_refl Hin).
    discriminate.
Qed.

Lemma Route_assemble_complete now s t1 t2 a :
  Route.assemble now s t1 t2 = Return (Success a) -> complete_analysis t1 t2 a.
Proof.
  unfold Route.assemble.
  pose proof (Route_parseScenarios_cases (s_verdicts s)) as Hs.
  pose proof (Route_parseHiddenTax_impact (s_hiddenTax s)) as Ht.
  revert Hs Ht.
  generalize (Route.parseTaleOfTheTape (s_taleOfTheTape s) t1 t2).
  generalize (Route.parseScenarios (s_verdicts s)).
  generalize (Route.parseHiddenTax (s_hiddenTax s)).
  intros [[tax|e3]|e3] [[vs|e2]|e2] [[tape|e1]|e1] Hs Ht; cbn [bind]; try discriminate.
  destruct (truthy (trim (s_tieBreaker s))) eqn:Htie; cbn [negb]; [|discriminate].
  intros H. injection H as <-. unfold complete_analysis. cbn.
  split; [reflexivity|]. split; [exact Hs|]. split; [apply (Ht tax eq_refl)|].
  intros Hempty. rewrite Hempty in Htie. discriminate.
Qed.

Lemma Part000_assemble_complete now s t1 t2 a :
  Part000.assemble now s t1 t2 = Return (Success a) -> complete_analysis t1 t2 a.
Proof.
  unfold Part000.assemble.
  pose proof (Part000_parseScenarios_cases (s_verdicts s) t1 t2) as Hs.
  pose proof (parseHiddenTax_impact (s_hiddenTax s)) as Ht.
  revert Hs Ht.
  generalize (Part000.parseTaleOfTheTape (s_taleOfTheTape s) t1 t2).
  generalize (Part000.parseScenarios (s_verdicts s) t1 t2).
  generalize (Part000.parseHiddenTax (s_hiddenTax s)).
  intros [[tax|e3]|e3] [[vs|e2]|e2] [[tape|e1]|e1] Hs Ht; cbn [bind]; try discriminate.
  destruct (truthy (trim (s_tieBreaker s))) eqn:Htie; cbn [negb]; [|discriminate].
  intros H. injection H as <-. unfold complete_analysis. cbn.
  split; [reflexivity|]. split; [exact Hs|]. split; [apply (Ht tax eq_refl)|].
  intros Hempty. rewrite Hempty in Htie. discriminate.
Qed.

Lemma Route_assemble_failure_message now s t1 t2 e :
  Route.assemble now s t1 t2 = Return (Failure e) -> In (message e) parsing_messages.
Proof.
  unfold Route.assemble.
  generalize (Route.parseTaleOfTheTape (s_taleOfTheTape s) t1 t2).
  generalize (Route.parseScenarios (s_verdicts s)).
  generalize (Route.parseHiddenTax (s_hiddenTax s)).
  intros [[tax|e3]|e3] [[vs|e2]|e2] [[tape|e1]|e1]; cbn [bind];
    try discriminate; try (intros H; injection H as <-; simpl; tauto).
  destruct (negb (truthy (trim (s_tieBreaker s)))); intros H;
    [injection H as <-; simpl; tauto | discriminate].
Qed.

Lemma Part000_assemble_failure now s t1 t2 e :
  Part000.assemble now s t1 t2 = Return (Failure e) ->
  code e = "PARSING_ERROR" /\ In (message e) parsing_messages.
Proof.
  unfold Part000.assemble.
  generalize (Part000.parseTaleOfTheTape (s_taleOfTheTape s) t1 t2).
  generalize (Part000.parseScenarios (s_verdicts s) t1 t2).
  generalize (Part000.parseHiddenTax (s_hiddenTax s)).
  intros [[tax|e3]|e3] [[vs|e2]|e2] [[tape|e1]|e1]; cbn [bind];
    try discriminate; try (intros H; injection H as <-; simpl; tauto).
  destruct (negb (truthy (trim (s_tieBreaker s)))); intros H;
    [injection H as <-; simpl; tauto | discriminate].
Qed.

Lemma Route_parse_failure_message now response t1 t2 e :
  Route.parseLLMResponse now response t1 t2 = Return (Failure e) ->
  In (message e) parsing_messages.
Proof.
  unfold Route.parseLLMResponse.
  destruct (Route.extractSections response) as [[s|e']|x]; cbn [bind try_catch].
  - destruct (Route.assemble now s t1 t2) as [r|x] eqn:Ha; cbn [try_catch].
    + intros H. injection H as ->. apply (Route_assemble_failure_message _ _ _ _ _ Ha).
    + intros H. injection H as <-. simpl; tauto.
  - intros H. injection H as <-. simpl; tauto.
  - intros H. injection H as <-. simpl; tauto.
Qed.

Lemma Part000_parse_failure now response t1 t2 e :
  Part000.parseLLMResponse now response t1 t2 = Return (Failure e) ->
  code e = "PARSING_ERROR" /\ In (message e) (parsing_messages ++ guard_messages).
Proof.
  unfold Part000.parseLLMResponse.
  destruct (negb (truthy response) || _);
    [intros H; injection H as <-; split; [reflexivity | simpl; tauto]|].
  destruct (negb (truthy t1) || _ || _ || _);
    [intros H; injection H as <-; split; [reflexivity | simpl; tauto]|].
  destruct (Part000.extractSections response) as [[s|e']|x]; cbn [bind try_catch].
  - destruct (Part000.assemble now s t1 t2) as [r|x] eqn:Ha; cbn [try_catch].
    + intros H. injection H as ->.
      destruct (Part000_assemble_failure _ _ _ _ _ Ha) as [Hc Hm].
      split; [exact Hc | apply in_or_app; left; exact Hm].
    + intros H. injection H as <-. split; [reflexivity | simpl; tauto].
  - intros H. injection H as <-. split; [reflexivity | simpl; tauto].
  - intros H. injection H as <-. split; [reflexivity | simpl; tauto].
Qed.

End ReplyFacts.

(** X12.  In route.ts the hidden-tax parser has one pattern, which asks for an
    "in <timeframe>" clause: an ASCII text in which the letters "in" stand nowhere
    before a white-space character is refused, the template sentence
    without a timeframe included; and the impact of every hidden tax it
    returns is its warning, " expected in " and its timeframe. *)
Theorem Route_parseHiddenTax_needs_a_timeframe (content : string)
    (Hascii : JS.is_ascii content = true) :
  (has_in_clause content = false ->
   Route.parseHiddenTax content
   = Return (Failure "Hidden tax format does not match expected pattern"))
  /\ (forall tax, Route.parseHiddenTax content = Return (Success tax) ->
        has_in_clause content = true
        /\ impact tax = warning tax ++ " expected in " ++ timeframe tax).
Proof.
  split.
  - intros Hin. unfold Route.parseHiddenTax.
    rewrite (exec_without_in_clause Route.tax_regex content eq_refl eq_refl Hin).
    reflexivity.
  - intros tax H. destruct (Route_parseHiddenTax_impact content tax H). auto.
Qed.

Lemma Route_parseHiddenTax_needs_a_timeframe_witness :
  Route.parseHiddenTax "If you choose React, be prepared for decision fatigue."
  = Return (Failure "Hidden tax format does not match expected pattern").
Proof.
  refine (proj1 (Route_parseHiddenTax_needs_a_timeframe
                   "If you choose React, be prepared for decision fatigue." _) _).
  - vm_compute. reflexivity.
  - vm_compute. reflexivity.
Defined.

(** X14.  Every failure of [parseLLMResponse] has the code PARSING_ERROR, the
    time stamp of the call and one of the fixed messages of the stages:
    six in route.ts, and in part_000 also the two of its guards. *)
Theorem parseLLMResponse_failures_are_parsing_errors
    (now response tech1 tech2 : string) (e : ApiError) :
  (Route.parseLLMResponse now response tech1 tech2 = Return (Failure e) ->
   code e = "PARSING_ERROR" /\ timestamp e = now /\ In (message e) parsing_messages)
  /\ (Part000.parseLLMResponse now response tech1 tech2 = Return (Failure e) ->
      code e = "PARSING_ERROR" /\ timestamp e = now
      /\ In (message e) (parsing_messages ++ guard_messages)).
Proof.
  split; intros H.
  - split; [apply (Route_parse_failure_code _ _ _ _ _ H)|].
    split; [apply (Route_failure_timestamp _ _ _ _ _ H)|].
    apply (Route_parse_failure_message _ _ _ _ _ H).
  - destruct (Part000_parse_failure _ _ _ _ _ H) as [Hc Hm].
    split; [exact Hc|]. split; [apply (Part000_failure_timestamp _ _ _ _ _ H) | exact Hm].
Qed.

(** X15.  Every analysis [parseLLMResponse] returns is complete: it holds the two
    names it was given, the three verdicts in their order, a hidden tax
    whose impact is derived from its warning and timeframe, and a
    tie-breaker that is not empty.  In both revisions. *)
Theorem parseLLMResponse_returns_a_complete_analysis
    (now response tech1 tech2 : string) (a : RefereeAnalysis)
    (Hparsed : Route.parseLLMResponse now response tech1 tech2 = Return (Success a)
               \/ Part000.parseLLMResponse now response tech1 tech2 = Return (Success a)) :
  complete_analysis tech1 tech2 a.
Proof.
  destruct Hparsed as [H|H].
  - apply Route_parse_success_inv in H as (s & _ & Ha).
    apply (Route_assemble_complete _ _ _ _ _ Ha).
  - apply Part000_parse_success_inv in H as (s & _ & Ha).
    apply (Part000_assemble_complete _ _ _ _ _ Ha).
Qed.

Lemma parseLLMResponse_returns_a_complete_analysis_witness :
  complete_analysis "React" "Vue" sample_analysis.
Proof.
  apply (parseLLMResponse_returns_a_complete_analysis
           "2024-01-01T00:00:00.000Z" sample_reply "React" "Vue" sample_analysis).
  left. vm_compute. reflexivity.
Defined.

(* ===================================================================== *)
(** * Replies without headings, and names given twice *)
(* ===================================================================== *)

Section NoHeadings.
Import JS RegExp Matching.

Lemma prefix_ci_app l : forall b c, prefix_ci l b = true -> prefix_ci l (b ++ c) = true.
Proof.
  induction l as [|x l IH]; intros b c H; [reflexivity|].
  destruct b as [|a b]; [discriminate|]. rewrite app_cons. cbn [prefix_ci] in *.
  apply andb_true_iff in H as [Ha Hl]. rewrite Ha, (IH b c Hl). reflexivity.
Qed.

Lemma occurs_ci_app_r l : forall b c, occurs_ci l b = true -> occurs_ci l (b ++ c) = true.
Proof.
  induction b as [|a b IH]; intros c H.
  - cbn [occurs_ci] in H. rewrite orb_false_r in H.
    destruct l; [|discriminate]. destruct (EmptyString ++ c); reflexivity.
  - rewrite app_cons. cbn [occurs_ci] in *.
    apply orb_true_iff in H as [H|H].
    + rewrite <- app_cons, (prefix_ci_app l _ c H). reflexivity.
    + rewrite (IH c H). apply orb_true_r.
Qed.

Lemma rtrim_split : forall s, exists ws, s = rtrim s ++ ws.
Proof.
  induction s as [|a s [ws IH]]; [exists EmptyString; reflexivity|].
  cbn [rtrim]. destruct (rtrim s) as [|b r] eqn:Hr.
  - destruct (is_space a).
    + exists (String a s). reflexivity.
    + exists ws. rewrite app_cons, app_nil_l. rewrite app_nil_l in IH. congruence.
  - exists ws. rewrite app_cons. congruence.
Qed.

Lemma occurs_ci_trim l s : occurs_ci l s = false -> occurs_ci l (trim s) = false.
Proof.
  intros Hno. destruct (occurs_ci l (trim s)) eqn:Ht; [|reflexivity].
  unfold trim in Ht.
  destruct (ltrim_split s) as (ws1 & Hs & _ & _).
  destruct (rtrim_split (ltrim s)) as (ws2 & Hl).
  rewrite Hs, Hl in Hno.
  rewrite (occurs_ci_app l ws1 _ (occurs_ci_app_r l _ ws2 Ht)) in Hno. discriminate.
Qed.

Lemma first_missing_without_marker patterns text key pattern rest :
  patterns = (key, pattern) :: rest ->
  ignoreCase pattern = true ->
  forces_lits "###" (ast pattern) = true ->
  occurs_ci "###" text = false ->
  extraction patterns text = Failure (missing_message key text).
Proof.
  intros -> Hic Hf Hno. unfold extraction. cbn [first_missing]. unfold section_content.
  rewrite (exec_without_text "###" pattern text Hic Hf Hno). reflexivity.
Qed.

Lemma trim_nonempty_truthy s : trim s <> EmptyString -> truthy s = true.
Proof. destruct s; [intros H; exfalso; apply H; reflexivity | reflexivity]. Qed.

Lemma length_eqb_0 s : s <> EmptyString -> Nat.eqb (String.length s) 0 = false.
Proof. destruct s; [congruence | reflexivity]. Qed.

Lemma Route_reply_without_marker now response t1 t2 :
  occurs_ci "###" response = false ->
  Route.parseLLMResponse now response t1 t2
  = Return (Failure (Route.parsing_error now "Failed to parse LLM response structure"
                       (Some (missing_message "matchup" response)))).
Proof.
  intros Hno. unfold Route.parseLLMResponse. rewrite Route_extractSections_spec.
  erewrite first_missing_without_marker;
    [reflexivity | reflexivity | vm_compute; reflexivity | vm_compute; reflexivity
     | exact Hno].
Qed.

Lemma Part000_reply_without_marker now response t1 t2 :
  occurs_ci "###" response = false ->
  trim response <> EmptyString -> trim t1 <> EmptyString -> trim t2 <> EmptyString ->
  Part000.parseLLMResponse now response t1 t2
  = Return (Failure (Route.parsing_error now "Failed to parse LLM response structure"
                       (Some (missing_message "matchup" (trim response))))).
Proof.
  intros Hno Hr H1 H2. unfold Part000.parseLLMResponse.
  rewrite (trim_nonempty_truthy _ Hr), (trim_nonempty_truthy _ H1),
    (trim_nonempty_truthy _ H2), (length_eqb_0 _ Hr), (length_eqb_0 _ H1),
    (length_eqb_0 _ H2).
  cbn [negb orb]. rewrite Part000_extractSections_spec.
  rewrite (trim_nonempty_truthy _ Hr), (length_eqb_0 _ Hr). cbn [negb].
  erewrite first_missing_without_marker;
    [reflexivity | reflexivity | vm_compute; reflexivity | vm_compute; reflexivity
     | apply occurs_ci_trim; exact Hno].
Qed.

End NoHeadings.

(** X16.  An ASCII reply in which the marker ### stands nowhere is refused at the first
    section: [parseLLMResponse] fails with "Failed to parse LLM response
    structure", and the details name the section matchup and show the first
    200 characters of the reply (part_000: of the trimmed reply, when the
    reply and the names are not blank). *)
Theorem reply_without_headings_is_refused (now response tech1 tech2 : string)
    (Hascii : JS.is_ascii response = true /\ JS.is_ascii tech1 = true
              /\ JS.is_ascii tech2 = true)
    (Hno_marker : Matching.occurs_ci "###" response = false) :
  Route.parseLLMResponse now response tech1 tech2
  = Return (Failure (Route.parsing_error now "Failed to parse LLM response structure"
                       (Some (missing_message "matchup" response))))
  /\ (JS.trim response <> EmptyString -> JS.trim tech1 <> EmptyString ->
      JS.trim tech2 <> EmptyString ->
      Part000.parseLLMResponse now response tech1 tech2
      = Return (Failure (Route.parsing_error now "Failed to parse LLM response structure"
                           (Some (missing_message "matchup" (JS.trim response)))))).
Proof.
  split.
  - apply Route_reply_without_marker. exact Hno_marker.
  - intros Hr H1 H2. apply Part000_reply_without_marker; assumption.
Qed.

Lemma reply_without_headings_is_refused_witness :
  Route.parseLLMResponse "2024-01-01T00:00:00.000Z" "I cannot compare these." "React" "Vue"
  = Return (Failure (Route.parsing_error "2024-01-01T00:00:00.000Z"
                       "Failed to parse LLM response structure"
                       (Some (missing_message "matchup" "I cannot compare these.")))).
Proof.
  refine (proj1 (reply_without_headings_is_refused "2024-01-01T00:00:00.000Z"
                   "I cannot compare these." "React" "Vue" _ _)).
  - repeat split; vm_compute; reflexivity.
  - vm_compute. reflexivity.
Defined.

(** X4.  Two names that differ only in the case of their letters or in the white
    space around them are refused as duplicates: the handler answers 400
    DUPLICATE_TECHNOLOGIES and sends nothing to the model. *)
Theorem POST_refuses_the_same_name_twice
    (env : Route.Env) (request : Route.Request) (w : Route.World)
    (body : Route.json) (a b : string)
    (Hadmitted : fst (limiter_answer env request w) = true)
    (Hbody : Route.request_json request = Return body)
    (Htech1 : Route.string_field "tech1" body = Some a)
    (Htech2 : Route.string_field "tech2" body = Some b)
    (Hsame : JS.toLowerCase (JS.trim a) = JS.toLowerCase (JS.trim b)) :
  fst (Route.POST env request w)
  = Route.createErrorResponse env "DUPLICATE_TECHNOLOGIES"
      "Please provide two different technologies for comparison." 400 None
  /\ Route.openai_calls (snd (Route.POST env request w)) = Route.openai_calls w.
Proof.
  unfold limiter_answer in Hadmitted. unfold Route.POST.
  destruct (Route.checkRateLimit _ _ _) as [ok map']. cbn [fst] in Hadmitted. subst ok.
  cbn [negb]. unfold Route.POST_admitted, Route.parseRequestBody.
  rewrite Hbody.
  assert (Hobj : exists fields, body = Route.JObject fields).
  { destruct body; try discriminate. eauto. }
  destruct Hobj as (fields & ->). rewrite Htech1, Htech2.
  rewrite Hsame, String.eqb_refl. split; reflexivity.
Qed.

Lemma POST_refuses_the_same_name_twice_witness :
  fst (Route.POST (example_env (Return sample_reply)) (example_request " React " "react")
         empty_world)
  = Route.createErrorResponse (example_env (Return sample_reply)) "DUPLICATE_TECHNOLOGIES"
      "Please provide two different technologies for comparison." 400 None.
Proof.
  refine (proj1 (POST_refuses_the_same_name_twice (example_env (Return sample_reply))
                   (example_request " React " "react") empty_world
                   (Route.JObject [("tech1", Route.JString " React ");
                                   ("tech2", Route.JString "react")]) " React " "react"
                   _ _ _ _ _));
    vm_compute; reflexivity.
Defined.

(** X5.  For a request whose names are ASCII: an ASCII reply of the model
    without the marker ### makes the handler answer 500 PARSING_ERROR, the
    details naming the section matchup. *)
Theorem POST_answers_500_to_a_reply_without_headings
    (env : Route.Env) (request : Route.Request) (w : Route.World)
    (tech1 tech2 prompt reply : string)
    (Hascii : ascii_request request = true /\ JS.is_ascii reply = true)
    (Hreaches : reaches_model env request w tech1 tech2 prompt)
    (Hreply : Route.callOpenAI env prompt = Return reply)
    (Hno_marker : Matching.occurs_ci "###" reply = false) :
  fst (Route.POST env request w)
  = Route.createErrorResponse env "PARSING_ERROR" "Failed to parse LLM response structure"
      500 (Some (missing_message "matchup" reply)).
Proof.
  destruct Hreaches as (Hadm & Hb & Hne & Hv & ->).
  unfold limiter_answer in Hadm. unfold Route.POST.
  destruct (Route.checkRateLimit _ _ _) as [ok map']. cbn [fst] in Hadm. subst ok.
  cbn [negb]. unfold Route.POST_admitted. rewrite Hb.
  destruct (String.eqb_spec (JS.trim (JS.toLowerCase tech1)) (JS.trim (JS.toLowerCase tech2)));
    [contradiction|].
  rewrite Hv. cbn [negb]. rewrite Hreply.
  rewrite (Route_reply_without_marker _ _ _ _ Hno_marker).
  reflexivity.
Qed.

Lemma POST_answers_500_to_a_reply_without_headings_witness :
  fst (Route.POST (example_env (Return "I cannot compare these."))
         (example_request "React" "Vue") empty_world)
  = Route.createErrorResponse (example_env (Return "I cannot compare these."))
      "PARSING_ERROR" "Failed to parse LLM response structure" 500
      (Some (missing_message "matchup" "I cannot compare these.")).
Proof.
  refine (POST_answers_500_to_a_reply_without_headings
            (example_env (Return "I cannot compare these."))
            (example_request "React" "Vue") empty_world
            "React" "Vue" "React vs Vue" "I cannot compare these." _ _ _ _).
  - split; vm_compute; reflexivity.
  - repeat split; try (vm_compute; reflexivity). vm_compute. discriminate.
  - reflexivity.
  - vm_compute. reflexivity.
Defined.

(* ===================================================================== *)
(** * The table phase comes first *)
(* ===================================================================== *)

Section TableFirst.
Import JS RegExp Matching.

Lemma normalized_key d key :
  In (d, key) dimension_keys -> d <> "Developer Experience" -> Route.normalizedKey d = key.
Proof.
  intros Hd Hne. cbn [dimension_keys In] in Hd.
  repeat destruct Hd as [Hd|Hd]; try contradiction; injection Hd as <- <-;
    try (vm_compute; reflexivity).
  exfalso. apply Hne. reflexivity.
Qed.

Lemma obj_get_has {V : Type} key (o : obj V) v : obj_get key o = Some v -> obj_has key o = true.
Proof. unfold obj_has. intros ->. reflexivity. Qed.

Lemma Route_line_step_keeps_found content c d key d0 k0 v0 :
  In (d, key) dimension_keys -> In (d0, k0) dimension_keys ->
  d0 <> "Developer Experience" ->
  obj_get k0 c = Some v0 ->
  exists c', Route.line_step content c d = Return c' /\ obj_get k0 c' = Some v0.
Proof.
  intros Hd Hd0 Hdx Hget.
  destruct (String.eqb_spec d d0) as [->|Hne].
  - exists c. split; [|exact Hget]. unfold Route.line_step.
    rewrite (normalized_key d0 k0 Hd0 Hdx), (obj_get_has _ _ _ Hget). reflexivity.
  - destruct (Route_line_step_spec content c d key Hd) as (c' & Hstep & Hc & _).
    exists c'. split; [exact Hstep|]. destruct Hc as [->|(v & ->)]; [exact Hget|].
    rewrite obj_get_set_other; [exact Hget|].
    apply (dimension_keys_distinct d key d0 k0 Hd Hd0 Hne).
Qed.

Lemma Part000_line_step_keeps_found content c d key d0 k0 v0 :
  In (d, key) dimension_keys -> In (d0, k0) dimension_keys ->
  d0 <> "Developer Experience" ->
  obj_get k0 c = Some v0 ->
  exists c', Part000.line_step content c d = Return c' /\ obj_get k0 c' = Some v0.
Proof.
  intros Hd Hd0 Hdx Hget.
  destruct (String.eqb_spec d d0) as [->|Hne].
  - exists c. split; [|exact Hget]. unfold Part000.line_step.
    rewrite (normalized_key d0 k0 Hd0 Hdx), (obj_get_has _ _ _ Hget). reflexivity.
  - destruct (Part000_line_step_spec content c d key Hd) as (c' & Hstep & Hc & _).
    exists c'. split; [exact Hstep|]. destruct Hc as [->|(v & ->)]; [exact Hget|].
    rewrite obj_get_set_other; [exact Hget|].
    apply (dimension_keys_distinct d key d0 k0 Hd Hd0 Hne).
Qed.

Lemma Route_line_phase_keeps_found content d0 k0 v0 : forall l c,
  Forall (fun dk => In dk dimension_keys) l ->
  In (d0, k0) dimension_keys -> d0 <> "Developer Experience" ->
  obj_get k0 c = Some v0 ->
  exists c', Route.line_phase content (map fst l) c = Return c' /\ obj_get k0 c' = Some v0.
Proof.
  induction l as [|[d key] l IH]; intros c Hl Hd0 Hdx Hget; [exists c; auto|].
  inversion Hl as [|? ? Hd Hrest]; subst. cbn [map fst Route.line_phase].
  destruct (Route_line_step_keeps_found content c d key d0 k0 v0 Hd Hd0 Hdx Hget)
    as (c1 & -> & Hget1).
  cbn [bind]. apply IH; assumption.
Qed.

Lemma Part000_line_phase_keeps_found content d0 k0 v0 : forall l c,
  Forall (fun dk => In dk dimension_keys) l ->
  In (d0, k0) dimension_keys -> d0 <> "Developer Experience" ->
  obj_get k0 c = Some v0 ->
  exists c', Part000.line_phase content (map fst l) c = Return c' /\ obj_get k0 c' = Some v0.
Proof.
  induction l as [|[d key] l IH]; intros c Hl Hd0 Hdx Hget; [exists c; auto|].
  inversion Hl as [|? ? Hd Hrest]; subst. cbn [map fst Part000.line_phase].
  destruct (Part000_line_step_keeps_found content c d key d0 k0 v0 Hd Hd0 Hdx Hget)
    as (c1 & -> & Hget1).
  cbn [bind]. apply IH; assumption.
Qed.

End TableFirst.

(** X10.  In an ASCII text, what the table phase has found for Speed, Cost,
    Scalability or Maintainability is final: the line phase leaves the entry as it is, in
    both revisions.  (The entry of Developer Experience is looked for again
    by the line phase, under the key developerexperience the table never
    sets.) *)
Theorem table_entry_survives_the_line_phase
    (content d key : string) (v : Descriptors)
    (Hascii : JS.is_ascii content = true)
    (Hdimension : In (d, key) dimension_keys)
    (Hnot_dx : d <> "Developer Experience")
    (Hfound : obj_get key (Route.table_phase content) = Some v) :
  (exists comparison, Route.comparison_of content = Return comparison
                      /\ obj_get key comparison = Some v)
  /\ (exists comparison, Part000.comparison_of content = Return comparison
                         /\ obj_get key comparison = Some v).
Proof.
  split.
  - unfold Route.comparison_of. cbv zeta.
    destruct (Nat.ltb _ 5); [|eauto].
    change Route.dimensions with (map fst dimension_keys).
    apply (Route_line_phase_keeps_found content d key v); auto using dimension_keys_all.
  - unfold Part000.comparison_of. cbv zeta.
    destruct (Nat.ltb _ 5); [|eauto].
    change Route.dimensions with (map fst dimension_keys).
    apply (Part000_line_phase_keeps_found content d key v); auto using dimension_keys_all.
Qed.

Lemma table_entry_survives_the_line_phase_witness :
  exists comparison,
    Route.comparison_of mixed_tape = Return comparison
    /\ obj_get "speed" comparison = Some (mkDescriptors "**Fast**" "Faster").
Proof.
  refine (proj1 (table_entry_survives_the_line_phase mixed_tape "Speed" "speed"
                   (mkDescriptors "**Fast**" "Faster") _ _ _ _)).
  - vm_compute. reflexivity.
  - simpl. tauto.
  - discriminate.
  - vm_compute. reflexivity.
Defined.

(** The entry of Developer Experience is not final: the line phase reads
    the row again and strips the bold marks the table phase had kept. *)
Example developer_experience_is_read_twice :
  obj_get "developerExperience" (Route.table_phase mixed_tape)
  = Some (mkDescriptors "**Good**" "Great")
  /\ exists comparison,
       Route.comparison_of mixed_tape = Return comparison
       /\ obj_get "developerExperience" comparison = Some (mkDescriptors "Good" "Great").
Proof. split; [vm_compute; reflexivity|]. eexists. split; vm_compute; reflexivity. Qed.

(* ===================================================================== *)
(** * The fields of the hidden tax *)
(* ===================================================================== *)

Section FirstCharacter.
Import JS RegExp Matching.

Lemma in_all_ascii a : In a all_ascii.
Proof.
  unfold all_ascii. rewrite <- (ascii_nat_embedding a). apply in_map, in_seq.
  pose proof (nat_ascii_bounded a). lia.
Qed.

Lemma over_all_ascii (q p : ascii -> bool) a :
  forallb (fun a => implb (q a) (p a)) all_ascii = true -> q a = true -> p a = true.
Proof.
  intros Hall Hq. rewrite forallb_forall in Hall.
  specialize (Hall a (in_all_ascii a)). rewrite Hq in Hall. exact Hall.
Qed.

Lemma single_begins (q p : ascii -> bool) x k y :
  forallb (fun a => implb (q a) (p a)) all_ascii = true ->
  m_single q x k = Some y ->
  exists a rest x',
    m_rest x = String a rest /\ p a = true /\ extends x x' /\ m_pos x < m_pos x'
    /\ m_caps x' = m_caps x /\ k x' = Some y.
Proof.
  intros Hall. unfold m_single.
  destruct (m_rest x) as [|a rest] eqn:Hrest; [discriminate|].
  destruct (q a) eqn:Hq; [|discriminate]. intros Hk.
  exists a, rest, (advance a rest x). split; [reflexivity|].
  split; [apply (over_all_ascii q p a Hall Hq)|].
  split; [apply extends_advance; exact Hrest|].
  split; [cbn; lia|]. split; [reflexivity | exact Hk].
Qed.

Lemma begins_with_match ic p r : forall x k y,
  begins_with ic p r = true ->
  m ic r x k = Some y ->
  exists a rest x',
    m_rest x = String a rest /\ p a = true /\ extends x x' /\ m_pos x < m_pos x'
    /\ (groups_of r = [] -> m_caps x' = m_caps x) /\ k x' = Some y.
Proof.
  induction r as [| c | | neg items | r1 IH1 r2 IH2 | r1 IH1 r2 IH2
                  | min max greedy r IH | idx r IH | pos r IH | | | pos];
    intros x k y Hb Hm; cbn [begins_with] in Hb; try discriminate.
  - cbn [m] in Hm.
    destruct (single_begins _ p x k y Hb Hm) as (a & rest & x' & H1 & H2 & H3 & H4 & H5 & H6).
    exists a, rest, x'. auto 10.
  - cbn [m] in Hm.
    destruct (single_begins _ p x k y Hb Hm) as (a & rest & x' & H1 & H2 & H3 & H4 & H5 & H6).
    exists a, rest, x'. auto 10.
  - cbn [m] in Hm.
    destruct (single_begins _ p x k y Hb Hm) as (a & rest & x' & H1 & H2 & H3 & H4 & H5 & H6).
    exists a, rest, x'. auto 10.
  - rewrite m_seq in Hm.
    destruct (IH1 _ _ _ Hb Hm) as (a & rest & x1 & H1 & H2 & H3 & H4 & H5 & H6).
    cbn [groups_of].
    destruct (groups_of r2) as [|g gs] eqn:Hg.
    + destruct (keeps_caps_m ic r2 Hg _ _ _ H6) as (x2 & E2 & C2 & K2).
      exists a, rest, x2. split; [exact H1|]. split; [exact H2|].
      split; [apply (extends_trans _ _ _ H3 E2)|].
      split; [pose proof (extends_pos _ _ E2); lia|].
      split; [|exact K2].
      rewrite app_nil_r. intros Hg1. rewrite C2. apply H5. exact Hg1.
    + destruct (forwards_m ic r2 _ _ _ H6) as (x2 & E2 & K2).
      exists a, rest, x2. split; [exact H1|]. split; [exact H2|].
      split; [apply (extends_trans _ _ _ H3 E2)|].
      split; [pose proof (extends_pos _ _ E2); lia|].
      split; [|exact K2].
      intros Hnil. apply app_eq_nil_inv in Hnil as [_ Hnil]. discriminate.
  - apply andb_true_iff in Hb as [Hb1 Hb2]. cbn [m] in Hm. cbn [groups_of].
    destruct (m ic r1 x k) as [z|] eqn:Hm1.
    + injection Hm as ->.
      destruct (IH1 _ _ _ Hb1 Hm1) as (a & rest & x1 & H1 & H2 & H3 & H4 & H5 & H6).
      exists a, rest, x1. repeat (split; [assumption|]). split; [|exact H6].
      intros Hnil. apply app_eq_nil_inv in Hnil as [Hnil _]. auto.
    + destruct (IH2 _ _ _ Hb2 Hm) as (a & rest & x1 & H1 & H2 & H3 & H4 & H5 & H6).
      exists a, rest, x1. repeat (split; [assumption|]). split; [|exact H6].
      intros Hnil. apply app_eq_nil_inv in Hnil as [_ Hnil]. auto.
  - destruct min as [|n]; [discriminate|].
    assert (Hmax : max <> Some 0 /\ begins_with ic p r = true).
    { destruct max as [[|mx]|]; try discriminate; split; congruence. }
    destruct Hmax as [Hmax Hbr]. clear Hb.
    cbn [m] in Hm. cbn [repeat_matcher] in Hm.
    assert (Hstep : m ic r (clear_caps (groups_of r) x)
                      (fun y0 => repeat_matcher (S n + String.length (m_rest x)) (m ic r)
                                   (groups_of r) n (option_map pred max) greedy y0 k)
                    = Some y).
    { destruct max as [[|mx]|]; [congruence | exact Hm | exact Hm]. }
    clear Hm.
    destruct (IH _ _ _ Hbr Hstep) as (a & rest & x1 & H1 & H2 & H3 & H4 & H5 & H6).
    assert (Hrest : m_rest (clear_caps (groups_of r) x) = m_rest x)
      by (destruct (groups_of r); reflexivity).
    assert (Hpos : m_pos (clear_caps (groups_of r) x) = m_pos x)
      by (destruct (groups_of r); reflexivity).
    rewrite Hrest in H1. rewrite Hpos in H4. apply extends_clear_l in H3.
    cbn [groups_of].
    destruct (groups_of r) as [|g gs] eqn:Hg.
    + destruct (keeps_caps_repeat (m ic r) greedy (keeps_caps_m ic r Hg) _ _ _ _ _ _ H6)
        as (x2 & E2 & C2 & K2).
      exists a, rest, x2. split; [exact H1|]. split; [exact H2|].
      split; [apply (extends_trans _ _ _ H3 E2)|].
      split; [pose proof (extends_pos _ _ E2); lia|].
      split; [|exact K2].
      intros _. rewrite C2. apply H5. reflexivity.
    + destruct (forwards_repeat (m ic r) (g :: gs) greedy (forwards_m ic r) _ _ _ _ _ _ H6)
        as (x2 & E2 & K2).
      exists a, rest, x2. split; [exact H1|]. split; [exact H2|].
      split; [apply (extends_trans _ _ _ H3 E2)|].
      split; [pose proof (extends_pos _ _ E2); lia|].
      split; [|exact K2]. discriminate.
  - rewrite m_group in Hm.
    destruct (IH _ _ _ Hb Hm) as (a & rest & x1 & H1 & H2 & H3 & H4 & H5 & H6).
    eexists a, rest, _. split; [exact H1|]. split; [exact H2|].
    split; [apply extends_set_cap_r; exact H3|].
    split; [exact H4|]. split; [discriminate | exact H6].
Qed.

End FirstCharacter.

Section HiddenTaxFields.
Import JS RegExp Matching.

Lemma substring0_head n a rest :
  0 < n -> exists s, substring0 n (String a rest) = String a s.
Proof. destruct n as [|n]; [lia|]. intros _. cbn. eauto. Qed.

Lemma trim_begins a s : is_space a = false -> trim (String a s) <> EmptyString.
Proof.
  intros Ha Hempty. pose proof (trim_nonspace_head a s Ha) as Ht.
  rewrite Hempty in Ht. discriminate.
Qed.

(** The text a pattern matches begins with a character that is not white
    space, when the pattern can only begin with such a character. *)
Lemma matched_begins re text ma :
  begins_with (ignoreCase re) not_space (ast re) = true ->
  exec re text = Some ma ->
  trim (matched ma) <> EmptyString.
Proof.
  intros Hb Hexec. unfold exec in Hexec.
  apply search_inv in Hexec as (pre & suf & prev & y & _ & Hm & ->).
  destruct (begins_with_match _ _ _ _ _ _ Hb Hm)
    as (a & rest & x' & H1 & H2 & _ & H4 & _ & H6).
  injection H6 as ->. cbn [m_rest m_pos] in H1, H4. cbn [matched]. subst suf.
  cbn [Nat.add] in *.
  destruct (substring0_head (m_pos y - String.length pre) a rest ltac:(lia)) as (s & ->).
  apply trim_begins. unfold not_space in H2. apply negb_true_iff. exact H2.
Qed.

(** The first capture of a pattern [\b(inner)\b] begins with a character
    that is not white space, when [inner] can only begin with one. *)
Lemma word_capture_begins re inner text ma :
  ast re = RSeq (RWordB true) (RSeq (RGroup 1 inner) (RWordB true)) ->
  ngroups re = 1 ->
  groups_of inner = [] ->
  begins_with (ignoreCase re) not_space inner = true ->
  search re None text 0 = Some ma ->
  trim (capture_or_empty 1 ma) <> EmptyString.
Proof.
  intros Hast Hn Hg Hb Hsearch.
  apply search_inv in Hsearch as (pre & suf & prev & y & _ & Hm & ->).
  rewrite Hast, Hn in Hm. cbn [List.repeat] in Hm.
  cbn [m] in Hm.
  destruct (Bool.eqb true _); [|discriminate].
  destruct (begins_with_match _ _ _ _ _ _ Hb Hm)
    as (a & rest & x' & H1 & H2 & _ & H4 & H5 & H6).
  specialize (H5 Hg). cbn [m_rest m_pos m_caps] in H1, H4, H5.
  destruct (Bool.eqb true _); [|discriminate].
  injection H6 as <-.
  unfold capture_or_empty, capture. cbn [captures m_caps set_cap pred m_rest m_pos].
  rewrite H5. cbn [set_nth nth]. subst suf. cbn [Nat.add] in *.
  destruct (substring0_head (m_pos x' - String.length pre) a rest ltac:(lia)) as (s & ->).
  apply trim_begins. unfold not_space in H2. apply negb_true_iff. exact H2.
Qed.

Lemma exec_all_first re text first others :
  exec_all re text = first :: others -> search re None text 0 = Some first.
Proof.
  unfold exec_all. cbn [search_all].
  destruct (search re None text 0) as [ma|]; [|discriminate].
  intros H. injection H as -> _. reflexivity.
Qed.

Lemma Part000_parseHiddenTax_fields content tax :
  Part000.parseHiddenTax content = Return (Success tax) ->
  technology tax <> EmptyString /\ warning tax <> EmptyString.
Proof.
  unfold Part000.parseHiddenTax.
  destruct (negb (truthy content)); [discriminate|].
  cbv zeta.
  destruct (Nat.eqb (String.length (trim content)) 0); [discriminate|].
  set (taxMatch :=
         if negb (has 1 (exec Part000.tax_regex (trim content)))
            || negb (has 2 (exec Part000.tax_regex (trim content)))
            || negb (has 3 (exec Part000.tax_regex (trim content)))
         then Part000.alternative_loop (trim content) 0 Part000.alternativePatterns
                (exec Part000.tax_regex (trim content))
         else exec Part000.tax_regex (trim content)).
  clearbody taxMatch.
  destruct (negb (has 1 taxMatch) || negb (has 2 taxMatch)).
  - destruct (exec_all Part000.techPattern (trim content)) as [|first others] eqn:Hall;
      [discriminate|].
    destruct (exec Part000.warningPattern (trim content)) as [wm|] eqn:Hw; [|discriminate].
    cbn [try_catch]. intros H. injection H as <-. cbn [technology warning]. split.
    + apply (word_capture_begins Part000.techPattern _ (trim content) first
               ltac:(vm_compute; reflexivity) eq_refl eq_refl ltac:(vm_compute; reflexivity)).
      apply (exec_all_first _ _ _ _ Hall).
    + apply (matched_begins Part000.warningPattern (trim content) wm
               ltac:(vm_compute; reflexivity) Hw).
  - destruct (Nat.eqb_spec (String.length (trim (cap 1 taxMatch))) 0) as [|H1];
      [discriminate|].
    destruct (Nat.eqb_spec (String.length (trim (cap 2 taxMatch))) 0) as [|H2];
      [discriminate|].
    cbn [try_catch]. intros H. injection H as <-. cbn [technology warning].
    split; intros Hempty; [apply H1 | apply H2]; rewrite Hempty; reflexivity.
Qed.

End HiddenTaxFields.

(** X13.  Every hidden tax that part_000 returns names a technology and a warning
    that are not empty, whichever pattern or fallback found them, and its
    impact is the warning, " expected in " and the timeframe. *)
Theorem Part000_hidden_tax_is_never_blank (content : string) (tax : HiddenTax)
    (Hparsed : Part000.parseHiddenTax content = Return (Success tax)) :
  technology tax <> EmptyString
  /\ warning tax <> EmptyString
  /\ impact tax = warning tax ++ " expected in " ++ timeframe tax.
Proof.
  destruct (Part000_parseHiddenTax_fields content tax Hparsed) as [Ht Hw].
  split; [exact Ht|]. split; [exact Hw|].
  apply (parseHiddenTax_impact content tax Hparsed).
Qed.

Lemma Part000_hidden_tax_is_never_blank_witness :
  technology (mkHiddenTax "Kubernetes brings" "complexity of the cluster" "6 months"
                "complexity of the cluster expected in 6 months") <> EmptyString.
Proof.
  refine (proj1 (Part000_hidden_tax_is_never_blank
                   "Kubernetes brings complexity of the cluster." _ _)).
  vm_compute. reflexivity.
Defined.

(* ===================================================================== *)
(** * Scenarios that cannot be located *)
(* ===================================================================== *)

Section MissingScenario.
Import JS RegExp Matching.

(** The patterns that locate a scenario are well formed for each of the
    three names, and each of them contains the team type of the name. *)
Lemma scenario_patterns scenario :
  In scenario Route.scenarioNames ->
  exists patterns,
    create_all (Route.scenario_sources scenario) "i" = Return patterns
    /\ Forall (fun p => ignoreCase p = true
                        /\ forces_lits (Route.teamType scenario) (ast p) = true) patterns.
Proof.
  intros Hs. cbn [Route.scenarioNames In] in Hs.
  repeat destruct Hs as [<-|Hs]; try contradiction;
    (eexists; split; [vm_compute; reflexivity
                     | repeat constructor; vm_compute; reflexivity]).
Qed.

Lemma scenario_not_located accept content scenario :
  In scenario Route.scenarioNames ->
  accept None = false ->
  occurs_ci (Route.teamType scenario) content = false ->
  exists patterns,
    create_all (Route.scenario_sources scenario) "i" = Return patterns
    /\ loop_match accept patterns content None = None.
Proof.
  intros Hs Hacc Hno. destruct (scenario_patterns scenario Hs) as (ps & Hps & Hall).
  exists ps. split; [exact Hps|]. apply loop_match_none; [|exact Hacc].
  eapply List.Forall_impl; [|exact Hall]. cbv beta.
  intros p [Hic Hf]. apply (exec_without_text (Route.teamType scenario)); assumption.
Qed.

Lemma Route_scenario_step_missing content scenario :
  In scenario Route.scenarioNames ->
  occurs_ci (Route.teamType scenario) content = false ->
  Route.scenario_step content scenario
  = Return (Failure ("Missing scenario: " ++ scenario ++ ". Content preview: "
                     ++ substring0 400 content)).
Proof.
  intros Hs Hno. unfold Route.scenario_step.
  destruct (scenario_not_located Route.scenario_accept content scenario Hs eq_refl Hno)
    as (ps & -> & Hnone).
  cbn [bind]. rewrite Hnone. reflexivity.
Qed.

Lemma Part000_scenario_step_missing content t1 t2 scenario :
  In scenario Route.scenarioNames ->
  occurs_ci (Route.teamType scenario) content = false ->
  Part000.scenario_step content t1 t2 scenario
  = Return (Failure ("Missing scenario: " ++ scenario ++ ". Content preview: "
                     ++ substring0 400 content)).
Proof.
  intros Hs Hno. unfold Part000.scenario_step, Part000.locate.
  destruct (scenario_not_located Route.scenario_accept content scenario Hs eq_refl Hno)
    as (ps & -> & Hnone).
  cbn [bind]. rewrite Hnone. reflexivity.
Qed.

Lemma Route_parseScenarios_missing content scenario verdicts :
  In scenario Route.scenarioNames ->
  occurs_ci (Route.teamType scenario) content = false ->
  Route.parseScenarios content <> Return (Success verdicts).
Proof.
  intros Hs Hno. pose proof (Route_scenario_step_missing content scenario Hs Hno) as Hstep.
  unfold Route.parseScenarios, Route.scenarioNames. cbn [Route.scenario_loop].
  cbn [Route.scenarioNames In] in Hs.
  revert Hstep.
  generalize (substring0 400 content). intros preview.
  repeat destruct Hs as [<-|Hs]; try contradiction; intros Hstep;
    try rewrite Hstep;
    repeat match goal with
           | |- context [Route.scenario_step content ?n] =>
               lazymatch goal with
               | H : Route.scenario_step content n = _ |- _ => rewrite H
               | _ => destruct (Route.scenario_step content n) as [[?|?]|?]
               end
           end;
    cbn [bind try_catch Route.check_count]; discriminate.
Qed.

Lemma Part000_parseScenarios_missing content t1 t2 scenario verdicts :
  In scenario Route.scenarioNames ->
  occurs_ci (Route.teamType scenario) (trim content) = false ->
  Part000.parseScenarios content t1 t2 <> Return (Success verdicts).
Proof.
  intros Hs Hno.
  pose proof (Part000_scenario_step_missing (trim content) t1 t2 scenario Hs Hno) as Hstep.
  unfold Part000.parseScenarios, Route.scenarioNames.
  destruct (negb (truthy content)); [discriminate|].
  cbv zeta. destruct (Nat.eqb (String.length (trim content)) 0); [discriminate|].
  cbn [Part000.scenario_loop].
  cbn [Route.scenarioNames In] in Hs.
  revert Hstep.
  generalize (substring0 400 (trim content)). intros preview.
  repeat destruct Hs as [<-|Hs]; try contradiction; intros Hstep;
    repeat match goal with
           | |- context [Part000.scenario_step (trim content) t1 t2 ?n] =>
               lazymatch goal with
               | H : Part000.scenario_step (trim content) t1 t2 n = _ |- _ => rewrite H
               | _ => destruct (Part000.scenario_step (trim content) t1 t2 n) as [[?|?]|?]
               end
           end;
    cbn [bind try_catch Route.check_count]; discriminate.
Qed.

End MissingScenario.

(** X17.  An ASCII verdicts text in which the team type of a scenario (Move Fast, Scale
    or Budget) stands nowhere, whatever the case of its letters, does not
    parse: none of the six patterns locates the scenario, its step fails
    with "Missing scenario: <name>. Content preview: ..." and parseScenarios
    returns no verdicts, in both revisions. *)
Theorem unnamed_team_is_a_missing_scenario
    (content tech1 tech2 scenario : string)
    (Hascii : JS.is_ascii content = true /\ JS.is_ascii tech1 = true
              /\ JS.is_ascii tech2 = true)
    (Hscenario : In scenario Route.scenarioNames)
    (Hno_name : Matching.occurs_ci (Route.teamType scenario) content = false) :
  Route.scenario_step content scenario
  = Return (Failure ("Missing scenario: " ++ scenario ++ ". Content preview: "
                     ++ JS.substring0 400 content))
  /\ Part000.scenario_step content tech1 tech2 scenario
     = Return (Failure ("Missing scenario: " ++ scenario ++ ". Content preview: "
                        ++ JS.substring0 400 content))
  /\ (forall verdicts, Route.parseScenarios content <> Return (Success verdicts))
  /\ (forall verdicts,
        Part000.parseScenarios content tech1 tech2 <> Return (Success verdicts)).
Proof.
  split; [apply Route_scenario_step_missing; assumption|].
  split; [apply Part000_scenario_step_missing; assumption|].
  split; intros verdicts.
  - apply (Route_parseScenarios_missing content scenario); assumption.
  - apply (Part000_parseScenarios_missing content tech1 tech2 scenario);
      [assumption | apply occurs_ci_trim; assumption].
Qed.

Lemma unnamed_team_is_a_missing_scenario_witness :
  Route.scenario_step "**Scenario A (The 'Move Fast' Team):** React wins." "Scale Team"
  = Return (Failure ("Missing scenario: Scale Team. Content preview: "
                     ++ "**Scenario A (The 'Move Fast' Team):** React wins.")).
Proof.
  refine (proj1 (unnamed_team_is_a_missing_scenario
                   "**Scenario A (The 'Move Fast' Team):** React wins." "React" "Vue"
                   "Scale Team" _ _ _)).
  - repeat split; vm_compute; reflexivity.
  - simpl. tauto.
  - vm_compute. reflexivity.
Defined.

(* ===================================================================== *)
(** * Names that are not patterns *)
(* ===================================================================== *)

Section MalformedName.
Import JS.

Lemma Part000_verdict_of_throws scenario sc t1 t2 x :
  Forall (fun p => Part000.winner_accept (RegExp.exec p sc) = false) Part000.winnerPatterns ->
  t1 <> EmptyString -> t2 <> EmptyString ->
  RegExp.create (toLowerCase t1) "g" = Throw x ->
  Part000.verdict_of scenario sc t1 t2 = Throw x.
Proof.
  intros Hw Ht1 Ht2 Hthrow. unfold Part000.verdict_of.
  pose proof (loop_match_rejects Part000.winner_accept Part000.winnerPatterns sc None
                eq_refl Hw) as Hrej.
  unfold Part000.winner_accept in Hrej at 1.
  set (wm := loop_match Part000.winner_accept Part000.winnerPatterns sc None) in *.
  assert (Hcond : negb (has 1 wm) || Nat.eqb (String.length (trim (cap 1 wm))) 0 = true).
  { destruct (has 1 wm); simpl in *; [|reflexivity].
    destruct (String.length (trim (cap 1 wm))); [reflexivity | discriminate]. }
  rewrite Hcond.
  rewrite (truthy_nonempty t1 Ht1), (truthy_nonempty t2 Ht2). cbn [negb orb].
  unfold Part000.fallback_winner, Part000.mentions. rewrite Hthrow. reflexivity.
Qed.

Lemma Part000_parseScenarios_step_throws content t1 t2 scenario x :
  In scenario Route.scenarioNames ->
  Part000.scenario_step (trim content) t1 t2 scenario = Throw x ->
  (forall verdicts, Part000.parseScenarios content t1 t2 <> Return (Success verdicts))
  /\ (scenario = "Move Fast Team" -> trim content <> EmptyString ->
      Part000.parseScenarios content t1 t2
      = Return (Failure ("Scenarios parsing failed: " ++ exn_message x))).
Proof.
  intros Hs Hstep. split.
  - intros verdicts. unfold Part000.parseScenarios, Route.scenarioNames.
    destruct (negb (truthy content)); [discriminate|].
    cbv zeta. destruct (Nat.eqb (String.length (trim content)) 0); [discriminate|].
    cbn [Part000.scenario_loop]. cbn [Route.scenarioNames In] in Hs.
    revert Hstep.
    repeat destruct Hs as [<-|Hs]; try contradiction; intros Hstep;
      repeat match goal with
             | |- context [Part000.scenario_step (trim content) t1 t2 ?n] =>
                 lazymatch goal with
                 | H : Part000.scenario_step (trim content) t1 t2 n = _ |- _ => rewrite H
                 | _ => destruct (Part000.scenario_step (trim content) t1 t2 n) as [[?|?]|?]
                 end
             end;
      cbn [bind try_catch Route.check_count]; discriminate.
  - intros -> Hne. unfold Part000.parseScenarios, Route.scenarioNames.
    rewrite (trim_nonempty_truthy _ Hne), (length_eqb_0 _ Hne). cbn [negb].
    cbn [Part000.scenario_loop]. rewrite Hstep. reflexivity.
Qed.

End MalformedName.

(** X18.  A technology name made of the characters the handler admits
    (letters, digits, ASCII white space and . - + #) that is not a
    well-formed regular expression (C++ is one) breaks the fallback of
    part_000, on an ASCII text: when the text located for a
    scenario matches none of the winner patterns and both names are given,
    the count of the mentions builds [new RegExp(tech1.toLowerCase(), 'g')],
    which throws; the step of the scenario throws, parseScenarios returns no
    verdicts, and for the first scenario its result is the failure
    "Scenarios parsing failed: " with the message of the exception. *)
Theorem malformed_name_breaks_the_winner_fallback
    (content tech1 tech2 scenario text : string) (x : exn)
    (Hadmitted : Matching.all name_char tech1 = true
                 /\ Matching.all name_char tech2 = true)
    (Hascii : JS.is_ascii content = true /\ JS.is_ascii text = true)
    (Hscenario : In scenario Route.scenarioNames)
    (Hlocated : Part000.locate (JS.trim content) scenario = Return (Some text))
    (Hphrasing : Forall (fun p => Part000.winner_accept (RegExp.exec p (JS.trim text)) = false)
                   Part000.winnerPatterns)
    (Hnames : tech1 <> EmptyString /\ tech2 <> EmptyString)
    (Hmalformed : RegExp.create (JS.toLowerCase tech1) "g" = Throw x) :
  Part000.scenario_step (JS.trim content) tech1 tech2 scenario = Throw x
  /\ (forall verdicts,
        Part000.parseScenarios content tech1 tech2 <> Return (Success verdicts))
  /\ (scenario = "Move Fast Team" -> JS.trim content <> EmptyString ->
      Part000.parseScenarios content tech1 tech2
      = Return (Failure ("Scenarios parsing failed: " ++ exn_message x))).
Proof.
  destruct Hnames as [Ht1 Ht2].
  assert (Hstep : Part000.scenario_step (JS.trim content) tech1 tech2 scenario = Throw x).
  { unfold Part000.scenario_step. rewrite Hlocated. cbn [bind].
    apply Part000_verdict_of_throws; assumption. }
  split; [exact Hstep|].
  apply (Part000_parseScenarios_step_throws content tech1 tech2 scenario x Hscenario Hstep).
Qed.

Lemma malformed_name_breaks_the_winner_fallback_witness :
  Part000.scenario_step (JS.trim undecided_verdicts) "C++" "Rust" "Move Fast Team"
  = Throw (SyntaxError "Invalid regular expression: /c++/g: Nothing to repeat").
Proof.
  refine (proj1 (malformed_name_breaks_the_winner_fallback undecided_verdicts "C++" "Rust"
                   "Move Fast Team" "Why? Shipping speed matters most here.
" (SyntaxError "Invalid regular expression: /c++/g: Nothing to repeat") _ _ _ _ _ _ _)).
  - split; vm_compute; reflexivity.
  - split; vm_compute; reflexivity.
  - left. reflexivity.
  - vm_compute. reflexivity.
  - repeat constructor; vm_compute; reflexivity.
  - split; discriminate.
  - vm_compute. reflexivity.
Defined.
